(** * graper.network.downloader: identity pools and the download pipeline

    A shallow embedding of [src/graper/network/downloader.py] and the
    properties its specification states about it.

    Conventions of the embedding:
    - Python dictionaries are [gmap string _]; Python lists and deques are
      [list _], leftmost element first.
    - [time.time()] readings are exact rationals ([Q], in seconds); the
      rounding of floating point arithmetic is not modelled.
    - Exceptions are values of [exn]; a computation that may raise returns
      an [outcome].  Only instances of Python's [Exception] are modelled,
      so [except Exception] catches every modelled exception.
    - What the random generator, the clock drift and the collaborators that
      live outside the module (Redis, the proxy pool, httpx, the helpers of
      [graper.util]) answer is supplied explicitly, as an argument or as a
      section variable. *)

From Stdlib Require Import ZArith QArith Lqa Lia Ascii String.
From stdpp Require Import gmap strings list fin_maps sorting pretty.

Set Warnings "-register-all".

Local Open Scope Z_scope.

(** ** Python exceptions and outcomes *)

Inductive exn : Type :=
  | Exception (msg : string)
  | IndexError (msg : string)
  | AttributeError (msg : string)
  | TypeError (msg : string)
  | ValueError (msg : string)
  | AssertionError (msg : string)
  | KeyError (msg : string)
  | TransportError (msg : string).

Inductive outcome (A : Type) : Type :=
  | Ok (a : A)
  | Raise (e : exn).
Arguments Ok {A} a.
Arguments Raise {A} e.

Definition is_ok {A} (o : outcome A) : bool :=
  match o with Ok _ => true | Raise _ => false end.

(** ** CookiePool: the bounded in-memory pool *)

Module CookiePool.
Section Pool.
(** A cookie is whatever the caller stores: a header string or a jar. *)
Context {A : Type}.

(** [deque(maxlen=10000)] *)
Definition maxlen : Z := 10000.

Record pool : Type := mkPool { cookie_list : list A }.

(** [CookiePool.__init__] *)
Definition init : pool := mkPool [].

(** [deque.append]: the item goes to the right end; a deque that then
    exceeds [maxlen] drops its leftmost item. *)
Definition deque_append (x : A) (d : list A) : list A :=
  let d' := d ++ [x] in
  if maxlen <? Z.of_nat (length d') then tail d' else d'.

(** [deque.pop]: removes and returns the rightmost item, [IndexError] on
    an empty deque. *)
Definition deque_pop (d : list A) : outcome (A * list A) :=
  match last d with
  | Some r => Ok (r, removelast d)
  | None => Raise (IndexError "pop from an empty deque")
  end.

(** [CookiePool.get]: [try: r = pop() except Exception: r = None]. *)
Definition get (p : pool) : outcome (option A) * pool :=
  match deque_pop (cookie_list p) with
  | Ok (r, d') => (Ok (Some r), mkPool d')
  | Raise _ => (Ok None, p)
  end.

(** [CookiePool.add] *)
Definition add (cookies : A) (p : pool) : pool :=
  mkPool (deque_append cookies (cookie_list p)).

(** [CookiePool.__len__] *)
Definition len (p : pool) : Z := Z.of_nat (length (cookie_list p)).

(** A client of the pool: a sequence of [add] and [get] calls. *)
Inductive op : Type :=
  | Add (cookies : A)
  | Get.

Definition step (p : pool) (o : op) : pool :=
  match o with
  | Add c => add c p
  | Get => snd (get p)
  end.

Definition run (ops : list op) (p : pool) : pool := foldl step p ops.

(** What the [get] calls of a sequence returned, in call order. *)
Fixpoint answers (ops : list op) (p : pool) : list (outcome (option A)) :=
  match ops with
  | [] => []
  | Add c :: ops' => answers ops' (add c p)
  | Get :: ops' => fst (get p) :: answers ops' (snd (get p))
  end.

Definition adds (xs : list A) : list op := Add <$> xs.

Definition added (ops : list op) : list A :=
  omap (fun o => match o with Add c => Some c | Get => None end) ops.
End Pool.
Arguments pool A : clear implicits.
Arguments op A : clear implicits.
End CookiePool.

(** ** LimitRedisCookiePool: the pool kept in a Redis sorted set *)

Module LimitRedisCookiePool.

(** The Redis server, as far as the pool uses it: the sorted sets, by
    key, each a map from member to score. *)
Abbreviation zsets := (gmap string (gmap string Q)).

(** The pool talks to a clock and to the server. *)
Record world : Type := mkWorld { now : Q; redis_conn : zsets }.

Record pool : Type :=
  mkPool { cookie_key : string; limit : Z; with_random : Z }.

(** [LimitRedisCookiePool.__init__], with its two assertions. *)
Definition init (namespace : string) (limit with_random : Z)
  : outcome pool :=
  if bool_decide (namespace = "") then
    Raise (AssertionError "must special namespace")
  else if with_random <? 0 then Raise (AssertionError "")
  else Ok (mkPool ("LimitRedisCookiePool:" +:+ namespace) limit with_random).

Definition zset (key : string) (r : zsets) : gmap string Q :=
  default ∅ (r !! key).

(** The order of a sorted set: by score, members of equal score in
    lexicographic order. *)
Definition zle (a b : string * Q) : bool :=
  match (a.2 ?= b.2)%Q with
  | Lt => true
  | Gt => false
  | Eq => negb (String.ltb b.1 a.1)
  end.

(** [ZRANGEBYSCORE key -inf max] *)
Definition zrangebyscore (key : string) (max : Q) (r : zsets)
  : list string :=
  (merge_sort (fun a b => Is_true (zle a b))
     (filter (fun e => Is_true (Qle_bool e.2 max))
        (map_to_list (zset key r)))).*1.

(** [ZADD key score member]: adds the member or updates its score; the
    pool calls it as [zadd(key, **{member: score})]. *)
Definition zadd (key member : string) (score : Q) (r : zsets) : zsets :=
  <[key := <[member := score]> (zset key r)]> r.

(** [ZREM key member] *)
Definition zrem (key member : string) (r : zsets) : zsets :=
  <[key := delete member (zset key r)]> r.

(** The clock moves on by [d] seconds. *)
Definition elapse (d : Q) (w : world) : world :=
  mkWorld (now w + d)%Q (redis_conn w).

(** What one turn of the loop of [get] draws from outside:
    [pick], the draw of [random.choice];
    [lag], the time between the [time.time()] of the query and the
    [time.time()] of the re-scoring;
    [over], the time [time.sleep(1)] sleeps beyond its second. *)
Record chance : Type := mkChance { pick : nat; lag : Q; over : Q }.

(** [random.choice] on a list that is not empty: the element at a
    position drawn among the positions of the list. *)
Definition random_choice (draw : nat) (x : string) (l : list string)
  : string :=
  nth (draw mod length (x :: l)) (x :: l) x.

(** [_limit = self.limit], plus the draw [jitter] of
    [random.randint(-with_random, with_random)] when [with_random] is
    set. *)
Definition effective_limit (p : pool) (jitter : Z) : Z :=
  if with_random p =? 0 then limit p else limit p + jitter.

(** The loop [for i in range(retry)] of [get], with [n] turns left at
    turn [i]. *)
Fixpoint get_loop (p : pool) (_limit : Z) (env : nat -> chance)
    (n i : nat) (w : world) : option string * world :=
  match n with
  | O => (None, w)
  | S n' =>
      let cookie_list :=
        zrangebyscore (cookie_key p) (now w - inject_Z _limit)%Q
          (redis_conn w) in
      match cookie_list with
      | [] => get_loop p _limit env n' (S i) (elapse (1 + over (env i))%Q w)
      | x :: l =>
          let cookie := random_choice (pick (env i)) x l in
          let w1 := elapse (lag (env i)) w in
          (Some cookie,
           mkWorld (now w1) (zadd (cookie_key p) cookie (now w1)
                               (redis_conn w1)))
      end
  end.

(** [LimitRedisCookiePool.get] *)
Definition get (p : pool) (retry jitter : Z) (env : nat -> chance)
    (w : world) : option string * world :=
  get_loop p (effective_limit p jitter) env (Z.to_nat retry) 0%nat w.

(** The argument of [add]: one cookie or a list of cookies. *)
Inductive cookie_arg : Type :=
  | One (cookie : string)
  | Many (cookies : list string).

(** [info = {k: time.time() + delay for k in cookie}]: one reading of
    the clock for each cookie, [drift k] seconds after the one before;
    a cookie that comes twice keeps its last score. *)
Fixpoint scores (cookie : list string) (delay : Q) (drift : nat -> Q)
    (k : nat) (t : Q) (info : gmap string Q) : Q * gmap string Q :=
  match cookie with
  | [] => (t, info)
  | c :: rest =>
      scores rest delay drift (S k) (t + drift k)%Q
        (<[c := (t + delay)%Q]> info)
  end.

(** [zadd(key, **info)]: every pair of [info] is added or updated. *)
Definition zadd_all (key : string) (info : gmap string Q) (r : zsets)
  : zsets :=
  <[key := info ∪ zset key r]> r.

(** [if not isinstance(cookie, list): cookie = [cookie]] *)
Definition cookies_of (cookie : cookie_arg) : list string :=
  match cookie with One c => [c] | Many l => l end.

(** [LimitRedisCookiePool.add].  The command of an empty list, which the
    server refuses, changes nothing. *)
Definition add (p : pool) (cookie : cookie_arg) (delay : Q)
    (drift : nat -> Q) (w : world) : world :=
  let cookie := cookies_of cookie in
  let info := scores cookie delay drift 0 (now w) ∅ in
  mkWorld info.1 (zadd_all (cookie_key p) info.2 (redis_conn w)).

(** [LimitRedisCookiePool.delete] *)
Definition delete (p : pool) (cookie : string) (w : world) : world :=
  mkWorld (now w) (zrem (cookie_key p) cookie (redis_conn w)).

(** A client of the pool: calls of [get], [add] and [delete], and time
    that passes between them. *)
Inductive call : Type :=
  | Get (retry jitter : Z) (env : nat -> chance)
  | Add (cookie : cookie_arg) (delay : Q) (drift : nat -> Q)
  | Delete (cookie : string)
  | Wait (d : Q).

Definition step (p : pool) (w : world) (c : call) : world :=
  match c with
  | Get retry jitter env => (get p retry jitter env w).2
  | Add cookie delay drift => add p cookie delay drift w
  | Delete cookie => delete p cookie w
  | Wait d => elapse d w
  end.

Definition run (p : pool) (cs : list call) (w : world) : world :=
  foldl (step p) w cs.

(** The clock of the outside never runs backwards. *)
Definition steady (env : nat -> chance) : Prop :=
  forall i, (0 <= lag (env i))%Q /\ (0 <= over (env i))%Q.

(** The time at which a [get] whose turn [i] queries the server at [t]
    queries it [k] turns later, when no turn in between finds a cookie. *)
Fixpoint attempt_time (env : nat -> chance) (i : nat) (t : Q) (k : nat) : Q :=
  match k with
  | O => t
  | S k' => attempt_time env (S i) (t + (1 + over (env i)))%Q k'
  end.

(** What turn [k] of a [get] with effective limit [_limit], begun at turn
    [i] and time [t], finds on the server [r]. *)
Definition candidates (p : pool) (_limit : Z) (env : nat -> chance)
    (i : nat) (t : Q) (r : zsets) (k : nat) : list string :=
  zrangebyscore (cookie_key p)
    (attempt_time env i t k - inject_Z _limit)%Q r.

(** Calls that do not put cookie [c] back before its time: clocks that do
    not run backwards, and no [add] of [c] with a negative delay. *)
Definition gentle (c : string) (cl : call) : Prop :=
  match cl with
  | Get _ _ env => steady env
  | Add cookie delay drift =>
      (forall k, (0 <= drift k)%Q) /\ (c ∈ cookies_of cookie -> (0 <= delay)%Q)
  | Delete _ => True
  | Wait d => (0 <= d)%Q
  end.


(** Scenario data used by the examples below. *)
Definition calm : nat -> chance := fun _ => mkChance 0 0%Q 0%Q.

Definition no_drift : nat -> Q := fun _ => 0%Q.

(** A pool with a limit of two seconds and no jitter, and a server that
    holds one cookie, last used ten seconds ago. *)
Definition two_seconds : pool := mkPool "LimitRedisCookiePool:t" 2 0.

Definition one_cookie : world :=
  mkWorld 0%Q {[ "LimitRedisCookiePool:t" := {[ "c" := (-10)%Q ]} ]}.


Definition empty_server : world := mkWorld 0%Q ∅.

(** Calls that do not add cookie [c]. *)
Definition spares (c : string) (cl : call) : Prop :=
  match cl with
  | Add cookie _ _ => c ∉ cookies_of cookie
  | _ => True
  end.
End LimitRedisCookiePool.

(** ** Python strings and values, as the downloader uses them *)

Module Py.

(** [s.startswith(p)] *)
Fixpoint startswith (p s : string) : bool :=
  match p, s with
  | EmptyString, _ => true
  | String a p', String b s' => if Ascii.eqb a b then startswith p' s' else false
  | String _ _, EmptyString => false
  end.

(** [s[n:]] *)
Fixpoint slice_from (n : nat) (s : string) : string :=
  match n, s with
  | O, _ => s
  | S n', String _ s' => slice_from n' s'
  | S _, EmptyString => EmptyString
  end.

(** [p in s] *)
Fixpoint contains (p s : string) : bool :=
  startswith p s ||
  match s with
  | EmptyString => false
  | String _ s' => contains p s'
  end.

(** [s.split(c)] for a separator of one character. *)
Fixpoint split (c : ascii) (s : string) : list string :=
  match s with
  | EmptyString => [EmptyString]
  | String a s' =>
      if Ascii.eqb a c then EmptyString :: split c s'
      else match split c s' with
           | x :: l => String a x :: l
           | [] => [String a EmptyString]
           end
  end.

(** [s.split(c, maxsplit=1)]: one piece, or the two pieces around the
    first separator. *)
Fixpoint split_once (c : ascii) (s : string) : list string :=
  match s with
  | EmptyString => [EmptyString]
  | String a s' =>
      if Ascii.eqb a c then [EmptyString; s']
      else match split_once c s' with
           | x :: l => String a x :: l
           | [] => [String a EmptyString]
           end
  end.

(** The characters [str.strip()] removes, among the ASCII ones. *)
Definition isspace (a : ascii) : bool :=
  let n := nat_of_ascii a in
  ((9 <=? n) && (n <=? 13) || (28 <=? n) && (n <=? 32))%nat.

(** [bool(s.strip())] *)
Fixpoint strip_nonempty (s : string) : bool :=
  match s with
  | EmptyString => false
  | String a s' => negb (isspace a) || strip_nonempty s'
  end.

(** The values met in requests and keyword arguments. [VClient] is an
    HTTP client object handed in by the caller, with its headers. *)
Inductive value : Type :=
  | VNone
  | VBool (b : bool)
  | VInt (n : Z)
  | VFloat (q : Q)
  | VStr (s : string)
  | VDict (d : gmap string value)
  | VClient (id : nat) (headers : gmap string string).

(** [bool(v)] *)
Definition truthy (v : value) : bool :=
  match v with
  | VNone => false
  | VBool b => b
  | VInt n => negb (n =? 0)
  | VFloat q => negb (Qeq_bool q 0)
  | VStr s => negb (String.eqb s "")
  | VDict d => match map_to_list d with [] => false | _ => true end
  | VClient _ _ => true
  end.

(** [v is None] *)
Definition is_None (v : value) : bool :=
  match v with VNone => true | _ => false end.

(** [v == s] for a string [s] *)
Definition eq_str (v : value) (s : string) : bool :=
  match v with VStr s' => String.eqb s' s | _ => false end.

(** [d.pop(k, None)] *)
Definition pop (k : string) (d : gmap string value)
  : value * gmap string value :=
  (default VNone (d !! k), delete k d).

(** [if k not in d: d[k] = v] *)
Definition setdefault (k : string) (v : value) (d : gmap string value)
  : gmap string value :=
  match d !! k with
  | None => <[k := v]> d
  | Some _ => d
  end.

(** [str(e)] *)
Definition exn_str (e : exn) : string :=
  match e with
  | Exception m | IndexError m | AttributeError m | TypeError m
  | ValueError m | AssertionError m | KeyError m | TransportError m => m
  end.

(** [s.lstrip()], [s.rstrip()] and [s.strip()], for the ASCII white
    space. *)
Fixpoint lstrip (s : string) : string :=
  match s with
  | EmptyString => EmptyString
  | String a s' => if isspace a then lstrip s' else s
  end.

Fixpoint rstrip (s : string) : string :=
  match s with
  | EmptyString => EmptyString
  | String a s' =>
      match rstrip s' with
      | EmptyString => if isspace a then EmptyString else String a EmptyString
      | r => String a r
      end
  end.

Definition strip (s : string) : string := rstrip (lstrip s).
End Py.

(** ** Downloader *)

Module Downloader.
Import Py.

(** A request: a URL, or a dictionary with the URL under ["url"]. *)
Inductive Request : Type :=
  | Url (url : string)
  | Structured (fields : gmap string value).

(** [Downloader.convert_http_protocol].  A dictionary is updated in
    place: the dictionary returned is the argument itself.  A URL that
    is no string has no [startswith]. *)
Definition convert_http_protocol (request : Request) : outcome Request :=
  let url :=
    match request with
    | Structured d => default VNone (d !! "url")
    | Url u => VStr u
    end in
  match url with
  | VStr url =>
      let url :=
        if startswith "https" url then "http" +:+ slice_from 5 url
        else if startswith "http:" url then "https" +:+ slice_from 4 url
        else url in
      match request with
      | Structured d => Ok (Structured (<["url" := VStr url]> d))
      | Url _ => Ok (Url url)
      end
  | _ => Raise (AttributeError "object has no attribute 'startswith'")
  end.

(** The HTTP client a request is executed on. *)
Inductive client : Type :=
  | SharedSession
  | HttpxModule
  | Override (id : nat) (headers : gmap string string)
  | Fresh (proxies verify cert : value) (http2 : bool).

(** An [httpx.Response], with the attributes the downloader reads and
    writes; [truth] is what [bool(response)] gives. *)
Record Response : Type := mkResponse {
  status_code : Z;
  url : string;
  truth : bool;
  is_closed : bool;
  meta : gmap string value;
  graper_exception : option exn
}.

Definition set_graper_exception (e : option exn) (r : Response) : Response :=
  mkResponse (status_code r) (url r) (truth r) (is_closed r) (meta r) e.

Definition set_meta (m : gmap string value) (r : Response) : Response :=
  mkResponse (status_code r) (url r) (truth r) (is_closed r) m
    (graper_exception r).

(** [response.close()] *)
Definition close (r : Response) : Response :=
  mkResponse (status_code r) (url r) (truth r) true (meta r)
    (graper_exception r).

(** The attributes of a [Downloader].  The three pools are given by
    what the tests on them yield: [cookie_pool] is
    [self.cookie_pool is not None], the other two are the truth values
    of the pool objects. *)
Record downloader : Type := mkDownloader {
  proxy_enable : bool;
  timeout : value;
  user_agent_pool : bool;
  cookie_pool : bool;
  referer_pool : bool;
  show_error_log : bool;
  show_fail_log : bool;
  use_session : bool;
  stream : bool;
  http2 : bool;
  use_default_headers : bool;
  format_headers : bool;
  _custom_headers : gmap string value;
  session_headers : gmap string string
}.

(** Records handed to the logger. *)
Inductive log_record : Type :=
  | LogError (msg : string)
  | LogException (e : option exn).

Definition str_exception (e : option exn) : string :=
  match e with Some e => exn_str e | None => "None" end.

Section Download.
(** [download] over any dispatcher [_download] (the decorated method)
    and any logger, acting on a state [W] of their own. *)
Context {W : Type}.
Variable logger : log_record -> W -> W.
Variable _download :
  Request -> gmap string value -> W -> outcome (option Response) * W.
Variable self : downloader.

(** The loop [for i in range(2)], with [n] turns left; it yields
    [response] and [exception]. *)
Fixpoint download_loop (n : nat) (request : Request)
    (kwargs : gmap string value) (exception : option exn)
    (is_converted : bool) (w : W)
  : outcome (option Response * option exn) * W :=
  match n with
  | O => (Ok (None, exception), w)
  | S n' =>
      match _download request kwargs w with
      | (Ok response, w) =>
          let w :=
            match response with
            | Some r =>
                if negb (truth r) && show_fail_log self then
                  logger (LogError ("download failed: "
                            +:+ pretty (status_code r) +:+ " " +:+ url r)) w
                else w
            | None => w
            end in
          (Ok (response, exception), w)
      | (Raise e, w) =>
          if negb is_converted then
            match convert_http_protocol request with
            | Ok request => download_loop n' request kwargs (Some e) true w
            | Raise e' => (Raise e', w)
            end
          else
            let w :=
              if show_error_log self then logger (LogException exception) w
              else logger (LogError ("download exception: "
                             +:+ str_exception exception)) w in
            download_loop n' request kwargs exception is_converted w
      end
  end.

(** [Downloader.download] *)
Definition download (request : Request) (kwargs : gmap string value)
    (w : W) : outcome (option Response) * W :=
  match download_loop 2 request kwargs None false w with
  | (Ok (Some response, exception), w) =>
      (Ok (Some (set_graper_exception exception response)), w)
  | (Ok (None, _), w) => (Ok None, w)
  | (Raise e, w) => (Raise e, w)
  end.
End Download.

(** A dispatcher under observation: the requests it is called with are
    noted next to its state, in call order. *)
Definition observed {W}
    (f : Request -> gmap string value -> W -> outcome (option Response) * W)
    (request : Request) (kwargs : gmap string value)
    (ws : W * list Request)
  : outcome (option Response) * (W * list Request) :=
  let r := f request kwargs ws.1 in (r.1, (r.2, ws.2 ++ [request])).

Definition observed_logger {W} (logger : log_record -> W -> W)
    (r : log_record) (ws : W * list Request) : W * list Request :=
  (logger r ws.1, ws.2).

(** A logger under observation: the records it is handed are noted next
    to its state, in the order of the calls; and a dispatcher that leaves
    those notes alone. *)
Definition recording {W} (logger : log_record -> W -> W)
    (r : log_record) (ws : W * list log_record) : W * list log_record :=
  (logger r ws.1, ws.2 ++ [r]).

Definition unrecorded {W}
    (f : Request -> gmap string value -> W -> outcome (option Response) * W)
    (request : Request) (kwargs : gmap string value)
    (ws : W * list log_record)
  : outcome (option Response) * (W * list log_record) :=
  let r := f request kwargs ws.1 in (r.1, (r.2, ws.2)).

(** The URL of the request is there and is a string. *)
Definition url_is_str (request : Request) : Prop :=
  match request with
  | Url _ => True
  | Structured d => exists u, d !! "url" = Some (VStr u)
  end.

(** *** The pipeline behind [_download] *)

Inductive pool_id : Type := UserAgent | Cookie | Referer | Proxy.

#[global] Instance pool_id_eq_dec : EqDecision pool_id.
Proof. solve_decision. Defined.

(** What the downloader does to the outside, in order. *)
Inductive event : Type :=
  | PoolGet (p : pool_id)
  | MakeClient (c : client)
  | Exchange (c : client) (streamed : bool) (method url : value)
      (kwargs : gmap string value)
  | Logged (r : log_record).

(** [e] is an instance of the class [Exception] itself, as the error of
    line 450 is, and not of one of its subclasses. *)
Definition is_plain (e : exn) : bool :=
  match e with Exception _ => true | _ => false end.

(** What a call of [get()] on a pool does: it returns a value, or it
    raises.  [UserAgentPool.get] raises [KeyError], from [init], at a
    device type it does not know; [CookiePool.get] always returns; the
    proxy pool and the base class of the pools are not in this module.
    The error of a pool is of a class of its own, as [KeyError] is: no
    pool raises the plain [Exception], so that a plain [Exception] which
    leaves [prepare_request] is the one it raises itself, at line 450,
    and none a pool passed on. *)
Inductive answer : Type :=
  | Returns (v : value)
  | Fails (e : exn) (own : is_plain e = false).

(** The outside: what the [get()] of each pool does call after call,
    what the HTTP exchanges yield one after the other, the readings of
    [time.time()], and the record of what was done. *)
Record world : Type := mkWorld {
  pools : pool_id -> list answer;
  network : list (outcome Response);
  clock : list Q;
  trace : list event
}.

Definition M (A : Type) : Type := world -> outcome A * world.

Definition ret {A} (a : A) : M A := fun w => (Ok a, w).

Definition raise {A} (e : exn) : M A := fun w => (Raise e, w).

Definition bind {A B} (m : M A) (k : A -> M B) : M B :=
  fun w =>
    match m w with
    | (Ok a, w') => k a w'
    | (Raise e, w') => (Raise e, w')
    end.

Notation "'let*' x ':=' m 'in' k" := (bind m (fun x => k))
  (at level 10, x pattern, m at level 100, k at level 200, only parsing).

Definition emit (ev : event) (w : world) : world :=
  mkWorld (pools w) (network w) (clock w) (trace w ++ [ev]).

(** [pool.get()] of one of the four pools; a pool with nothing left
    returns [None]. *)
Definition pool_get (p : pool_id) : M value :=
  fun w =>
    let w := emit (PoolGet p) w in
    match pools w p with
    | a :: rest =>
        (match a with Returns v => Ok v | Fails e _ => Raise e end,
         mkWorld (fun q => if decide (q = p) then rest else pools w q)
           (network w) (clock w) (trace w))
    | [] => (Ok VNone, w)
    end.

(** [time.time()] *)
Definition time : M Q :=
  fun w =>
    match clock w with
    | t :: rest => (Ok t, mkWorld (pools w) (network w) rest (trace w))
    | [] => (Ok 0%Q, w)
    end.

(** One exchange with a server over client [c]: [c.request(...)], or
    [c.build_request(...)] and [c.send(..., stream=True)]. *)
Definition exchange (c : client) (streamed : bool) (method url : value)
    (kwargs : gmap string value) : M Response :=
  fun w =>
    let w := emit (Exchange c streamed method url kwargs) w in
    match network w with
    | o :: rest => (o, mkWorld (pools w) rest (clock w) (trace w))
    | [] => (Raise (TransportError "no answer"), w)
    end.

(** The logger of the module. *)
Definition logger (r : log_record) (w : world) : world := emit (Logged r) w.

(** [Downloader.make_httpx_client(proxies=..., verify=..., cert=...)] *)
Definition make_httpx_client (self : downloader)
    (proxies verify cert : value) : M client :=
  fun w =>
    let c := Fresh proxies verify cert (http2 self) in
    (Ok c, emit (MakeClient c) w).

Section Pipeline.
(** [util.format_headers], which is not in this module. *)
Variable util_format_headers : gmap string value -> gmap string value.
Variable self : downloader.

(** The property [Downloader.default_headers] *)
Definition default_headers : M (gmap string value) :=
  let* ua := (if user_agent_pool self then pool_get UserAgent
              else ret (VStr "")) in
  let headers : gmap string value :=
    {[ "User-Agent" := ua; "Accept" := VStr "*/*";
       "Accept-Encoding" := VStr "gzip, deflate";
       "Connection" := VStr "keep-alive" ]} in
  ret (_custom_headers self ∪ headers).

(** [Downloader.add_headers]: the downloader after the call, which
    updates [_custom_headers] in place. *)
Definition add_headers (headers : gmap string value) : downloader :=
  mkDownloader (proxy_enable self) (timeout self) (user_agent_pool self)
    (cookie_pool self) (referer_pool self) (show_error_log self)
    (show_fail_log self) (use_session self) (stream self) (http2 self)
    (use_default_headers self) (format_headers self)
    (util_format_headers headers ∪ _custom_headers self)
    (session_headers self).

(** [dict([x.split("=", maxsplit=1) for x in s.split(";")
    if x.strip()])] *)
Fixpoint cookie_pairs (segments : list string)
    (acc : gmap string value) : outcome (gmap string value) :=
  match segments with
  | [] => Ok acc
  | x :: rest =>
      if strip_nonempty x then
        match split_once "=" x with
        | [k; v] => cookie_pairs rest (<[k := VStr v]> acc)
        | _ => Raise (ValueError "dictionary update sequence element")
        end
      else cookie_pairs rest acc
  end.

(** [(_session or self.session).headers.get("Cookie", "")] *)
Definition session_cookie (_session : value) : outcome string :=
  if truthy _session then
    match _session with
    | VClient _ headers => Ok (default "" (headers !! "Cookie"))
    | _ => Raise (AttributeError "object has no attribute 'headers'")
    end
  else Ok (default "" (session_headers self !! "Cookie")).

(** [Downloader.prepare_request], lines 415 to 440: the headers of
    the request, from the default headers, the cookie pool, the
    referer pool and the [headers] of the call; with them comes
    [_cookies], the jar the cookie pool may have returned. *)
Definition request_headers (headers : value)
  : M (gmap string value * gmap string value) :=
  let* default_headers :=
    (if use_default_headers self then default_headers else ret ∅) in
  let* (default_headers, _cookies) :=
    (if cookie_pool self then
       let* _cookie := pool_get Cookie in
       if truthy _cookie then
         match _cookie with
         | VDict d => ret (default_headers, d)
         | _ => ret (<["Cookie" := _cookie]> default_headers, ∅)
         end
       else ret (default_headers, ∅)
     else ret (default_headers, ∅)) in
  let* default_headers :=
    (if referer_pool self then
       let* _referer := pool_get Referer in
       ret (<["Referer" := _referer]> default_headers)
     else ret default_headers) in
  let* default_headers :=
    (if truthy headers then
       match headers with
       | VDict h => ret (h ∪ default_headers)
       | VStr _ => raise (ValueError "dictionary update sequence element")
       | _ => raise (TypeError "object is not iterable")
       end
     else ret default_headers) in
  ret (if format_headers self then util_format_headers default_headers
       else default_headers, _cookies).

(** Lines 443 to 454: [verify], [proxies], [stream] and [timeout],
    each set when the call did not give it. *)
Definition request_defaults (kwargs : gmap string value)
  : M (gmap string value) :=
  let kwargs := setdefault "verify" (VBool false) kwargs in
  let* kwargs :=
    match kwargs !! "proxies" with
    | None =>
        if proxy_enable self then
          let* proxies := pool_get Proxy in
          if truthy proxies then ret (<["proxies" := proxies]> kwargs)
          else raise (Exception "no valid proxy")
        else ret kwargs
    | Some _ => ret kwargs
    end in
  let kwargs := setdefault "stream" (VBool (stream self)) kwargs in
  let kwargs := setdefault "timeout" (timeout self) kwargs in
  ret kwargs.

(** Lines 460 to 466: [cookies], when the call did not give it, from
    the Cookie header of the request, the Cookie header of the
    session and the jar of the cookie pool. *)
Definition request_cookies (_session : value)
    (headers _cookies kwargs : gmap string value)
  : M (gmap string value) :=
  match kwargs !! "cookies" with
  | None =>
      match session_cookie _session with
      | Raise e => raise e
      | Ok from_session =>
          match default (VStr "") (headers !! "Cookie") with
          | VStr cookies_str =>
              let cookies_str := cookies_str +:+ ";" +:+ from_session in
              match cookie_pairs (split ";" cookies_str) ∅ with
              | Ok cookies =>
                  ret (<["cookies" := VDict (_cookies ∪ cookies)]> kwargs)
              | Raise e => raise e
              end
          | _ => raise (TypeError "unsupported operand type")
          end
      end
  | Some _ => ret kwargs
  end.

(** The options of a call: the keyword arguments, under the fields
    of the request when it is a dictionary
    ([kwargs.update(request)]). *)
Definition options (request : Request) (kwargs : gmap string value)
  : gmap string value :=
  match request with
  | Structured d => d ∪ kwargs
  | Url _ => kwargs
  end.

(** [Downloader.prepare_request]; it returns
    [_session, method, url, kwargs]. *)
Definition prepare_request (request : Request)
    (kwargs : gmap string value)
  : M (value * value * value * gmap string value) :=
  let url :=
    match request with
    | Structured d => default VNone (d !! "url")
    | Url u => VStr u
    end in
  let kwargs := options request kwargs in
  let method := default (VStr "GET") (kwargs !! "method") in
  let* (headers, _cookies) :=
    request_headers (default (VDict ∅) (kwargs !! "headers")) in
  let kwargs := <["headers" := VDict headers]> (delete "headers" kwargs) in
  let* kwargs := request_defaults kwargs in
  let '(_session, kwargs) := pop "session" kwargs in
  let* kwargs := request_cookies _session headers _cookies kwargs in
  let method :=
    if (bool_decide (is_Some (kwargs !! "data"))
        || bool_decide (is_Some (kwargs !! "json")))
       && eq_str method "GET"
    then VStr "POST" else method in
  let kwargs := delete "method" (delete "url" kwargs) in
  ret (_session, method, url, kwargs).

(** [{k if "://" in k else f"{k}://": v for k, v in proxies.items()}];
    when two keys become one, which of the two values stays depends
    on the order of the dictionary, which a [gmap] does not keep. *)
Definition normalize_proxies (proxies : gmap string value)
  : gmap string value :=
  list_to_map
    ((fun kv : string * value =>
        (if contains "://" kv.1 then kv.1 else kv.1 +:+ "://", kv.2))
       <$> map_to_list proxies).

(** The keys [build_request] is given when the response is streamed. *)
Definition build_request_keys : list string :=
  ["content"; "data"; "files"; "json"; "params"; "headers"; "cookies";
   "timeout"].

(** [Downloader._download_by_httpx(method, url, session, **kwargs)] *)
Definition _download_by_httpx (method url session : value)
    (kwargs : gmap string value) : M Response :=
  match kwargs !! "stream" with
  | None => raise (KeyError "stream")
  | Some stream =>
      let kwargs := delete "stream" kwargs in
      let '(proxies, kwargs) := pop "proxies" kwargs in
      match kwargs !! "verify" with
      | None => raise (KeyError "verify")
      | Some verify =>
          let kwargs := delete "verify" kwargs in
          let '(cert, kwargs) := pop "cert" kwargs in
          let* session :=
            (if truthy proxies || negb (is_None verify)
                || negb (is_None cert)
             then
               let* proxies :=
                 match proxies with
                 | VNone => ret VNone
                 | VDict d => ret (VDict (normalize_proxies d))
                 | _ => raise (AttributeError
                                 "object has no attribute 'items'")
                 end in
               make_httpx_client self proxies verify cert
             else
               match session with
               | VNone =>
                   ret (if use_session self then SharedSession
                        else HttpxModule)
               | VClient id headers => ret (Override id headers)
               | _ => raise (AttributeError
                               "object has no attribute 'request'")
               end) in
          if negb (truthy stream) then
            exchange session false method url kwargs
          else
            let request : gmap string value :=
              list_to_map
                ((fun k => (k, default VNone (kwargs !! k)))
                   <$> build_request_keys) in
            exchange session true method url
              (<["auth" := default VNone (kwargs !! "auth")]>
                 (<["follow_redirects" :=
                      default VNone (kwargs !! "follow_redirects")]>
                    request))
      end
  end.

(** [x.copy()] on what should be a dictionary. *)
Definition copy (x : value) : M value :=
  match x with
  | VDict d => ret (VDict d)
  | _ => raise (AttributeError "object has no attribute 'copy'")
  end.

(** The body of [Downloader._download], before it is decorated. *)
Definition _download_body (request : Request)
    (kwargs : gmap string value) : M Response :=
  let* (_session, method, url, kwargs) := prepare_request request kwargs in
  let* _start := time in
  let* response := _download_by_httpx method url _session kwargs in
  let* _end := time in
  let* headers := copy (default VNone (kwargs !! "headers")) in
  let* cookies :=
    match kwargs !! "cookies" with
    | Some c => copy c
    | None => raise (KeyError "cookies")
    end in
  let times : gmap string value :=
    {[ "start" := VFloat _start; "end" := VFloat _end;
       "use" := VFloat (_end - _start) ]} in
  let response :=
    set_meta {[ "proxies" := default VNone (kwargs !! "proxies");
                "headers" := headers; "cookies" := cookies;
                "time" := VDict times ]} response in
  let response :=
    if negb (truthy (default VNone (kwargs !! "stream")))
    then close response else response in
  ret response.

(** Modelled from the spec: [util.retry_decorator] of [graper.util] is
    not among the sources.  The spec has the single dispatch wrapped
    in a policy that retries on any exception and leaves the number
    of attempts to the configuration: the call is made up to
    [S retries] times, the first result is returned, and the last
    exception is raised when every call failed. *)
Fixpoint retry_decorator {A} (retries : nat) (f : M A) : M A :=
  fun w =>
    match f w with
    | (Ok a, w') => (Ok a, w')
    | (Raise e, w') =>
        match retries with
        | O => (Raise e, w')
        | S n => retry_decorator n f w'
        end
    end.

(** [Downloader._download], decorated. *)
Definition _download (retries : nat) (request : Request)
    (kwargs : gmap string value) : M (option Response) :=
  retry_decorator retries
    (let* response := _download_body request kwargs in
     ret (Some response)).

(** [Downloader.download] on this pipeline. *)
Definition run_download (retries : nat) (request : Request)
    (kwargs : gmap string value) : M (option Response) :=
  download logger (_download retries) self request kwargs.
(** The clients a dispatch creates, and those it executes the request
    on, by the session and the three options it is called with. *)
Definition chosen (session proxies verify cert : value)
  : list client * list client :=
  if truthy proxies || negb (is_None verify) || negb (is_None cert) then
    match proxies with
    | VNone =>
        ([Fresh VNone verify cert (http2 self)],
         [Fresh VNone verify cert (http2 self)])
    | VDict d =>
        ([Fresh (VDict (normalize_proxies d)) verify cert (http2 self)],
         [Fresh (VDict (normalize_proxies d)) verify cert (http2 self)])
    | _ => ([], [])
    end
  else
    ([], match session with
         | VNone =>
             [if use_session self then SharedSession else HttpxModule]
         | VClient id headers => [Override id headers]
         | _ => []
         end).
End Pipeline.

(** *** Vocabulary of the properties *)

(** What the next [get()] of pool [p] does. *)
Definition next_outcome (p : pool_id) (w : world) : outcome value :=
  match pools w p with
  | Returns v :: _ => Ok v
  | Fails e _ :: _ => Raise e
  | [] => Ok VNone
  end.

(** What the next [get()] of pool [p] returns, when it returns. *)
Definition next_answer (p : pool_id) (w : world) : value :=
  match next_outcome p w with Ok v => v | Raise _ => VNone end.

(** A dictionary, or a falsy value. *)
Definition dict_or_falsy (v : value) : Prop :=
  match v with
  | VDict _ => True
  | _ => truthy v = false
  end.

(** The [headers] option is a dictionary, or falsy. *)
Definition headers_ok (opts : gmap string value) : Prop :=
  dict_or_falsy (default (VDict ∅) (opts !! "headers")).

(** The clients created, and the clients that executed a request, among
    the events [evs]. *)
Definition created (evs : list event) : list client :=
  omap (fun ev => match ev with MakeClient c => Some c | _ => None end) evs.

Definition executed_on (evs : list event) : list client :=
  omap (fun ev => match ev with Exchange c _ _ _ _ => Some c | _ => None end)
    evs.

(** The events of a run that started in [w] and ended in [w']. *)
Definition news (w w' : world) : list event :=
  drop (length (trace w)) (trace w').

(** A computation that leaves the proxy pool alone and does not raise
    the plain [Exception]. *)
Definition aside {A} (m : M A) : Prop :=
  forall w, exists evs,
    pools (m w).2 Proxy = pools w Proxy /\
    trace (m w).2 = trace w ++ evs /\
    (PoolGet Proxy ∉ evs) /\
    created evs = [] /\ executed_on evs = [] /\
    forall msg, (m w).1 ≠ Raise (Exception msg).

(** *** Data of the examples *)

(** A downloader built with the defaults of [__init__], except for
    the proxy switch. *)
Definition plain (proxy_enable : bool) : downloader :=
  mkDownloader proxy_enable (VInt 20) true false false false true true
    false false true true ∅ ∅.

Definition quiet : world := mkWorld (fun _ => []) [] [] [].

(** A world whose user-agent pool raises, as [UserAgentPool.get] does
    at a device type it does not know. *)
Definition stuck : world :=
  mkWorld (fun p => match p with
                    | UserAgent => [Fails (KeyError "compatible") eq_refl]
                    | _ => []
                    end) [] [] [].

Definition page : Response := mkResponse 200 "http://example.test/" true
                                false ∅ None.

(** A dispatcher that fails on its first call and answers on the next;
    its state counts the calls. *)
Definition flaky (request : Request) (kwargs : gmap string value) (n : nat)
  : outcome (option Response) * nat :=
  match n with
  | O => (Raise (TransportError "connection refused"), S n)
  | S _ => (Ok (Some page), S n)
  end.

(** A dispatcher that always fails. *)
Definition offline (request : Request) (kwargs : gmap string value)
    (n : nat) : outcome (option Response) * nat :=
  (Raise (TransportError "connection refused"), S n).

Definition no_logger (r : log_record) (n : nat) : nat := n.

(** A server that answers once. *)
Definition online : world := mkWorld (fun _ => []) [Ok page] [] [].
End Downloader.

(** ** UserAgentPool *)

Module UserAgentPool.
Import Py.

Definition pc : string := "pc".
Definition win : string := "win".
Definition mac : string := "mac".
Definition linux : string := "linux".
Definition compatible : string := "compatible".
Definition mobile : string := "mobile".
Definition android : string := "android".
Definition ios : string := "ios".

Definition dev_types : list string := [pc; mobile; win; mac; linux; android; ios].

(** The attributes of a pool; [os_types] is the private [__types]. *)
Record pool : Type := mkPool {
  types : list string;
  with_random_ua : bool;
  user_agents : list string;
  init_flag : bool;
  ua_local_dir : string;
  os_types : list string
}.

(** [os.path.join(a, b)] for a relative [b]. *)
Fixpoint ends_with_slash (s : string) : bool :=
  match s with
  | EmptyString => false
  | String a EmptyString => Ascii.eqb a "/"
  | String _ s' => ends_with_slash s'
  end.

Definition path_join (a b : string) : string :=
  if String.eqb a "" || ends_with_slash a then a +:+ b else a +:+ "/" +:+ b.

(** [UserAgentPool.__init__]; [home] is [os.path.expanduser("~")]. *)
Definition new (home : string) (types : list string) (with_random_ua : bool)
    (ua_local_dir : string) : pool :=
  let types := match types with [] => [win; mac] | _ => types end in
  mkPool types with_random_ua [] false
    (if negb (String.eqb ua_local_dir "") then ua_local_dir
     else path_join (path_join home ".graper") "ua")
    [].

Section Files.
(** The files there are, each with the lines [readlines] gives, and the
    generator of [user_agent2], when that module is installed. *)
Variable files : gmap string (list string).
Variable generate_user_agent : option (list string -> string).

(** [UserAgentPool.get_ua_from_file] *)
Definition get_ua_from_file (self : pool) (filename : string) : list string :=
  let ua_file := path_join (ua_local_dir self) filename in
  match files !! ua_file with
  | Some lines =>
      omap (fun x => if negb (String.eqb (strip x) "") then Some (strip x)
                     else None) lines
  | None => []
  end.

Definition win_ua (self : pool) := get_ua_from_file self "windows.txt".
Definition mac_ua (self : pool) := get_ua_from_file self "mac.txt".
Definition compatible_ua (self : pool) := get_ua_from_file self "compatible.txt".
Definition linux_ua (self : pool) := get_ua_from_file self "linux.txt".
Definition android_ua (self : pool) := get_ua_from_file self "android.txt".
Definition ios_ua (self : pool) := get_ua_from_file self "ios.txt".
Definition pc_ua (self : pool) := win_ua self ++ mac_ua self ++ linux_ua self.
Definition mobile_ua (self : pool) := android_ua self ++ ios_ua self.

(** The dictionary [type_func_dict] of [init]. *)
Definition type_func_dict (self : pool) : gmap string (list string) :=
  list_to_map
    [(pc, pc_ua self); (mobile, mobile_ua self); (win, win_ua self);
     (mac, mac_ua self); (linux, linux_ua self); (android, android_ua self);
     (ios, ios_ua self)].

(** The loop [for typ in self.types] of [init], over the two lists it
    extends; an unknown type stops it with [KeyError]. *)
Fixpoint init_loop (dict : gmap string (list string)) (types : list string)
    (user_agents os_types : list string)
  : outcome unit * (list string * list string) :=
  match types with
  | [] => (Ok tt, (user_agents, os_types))
  | typ :: rest =>
      match dict !! typ with
      | None => (Raise (KeyError typ), (user_agents, os_types))
      | Some ua_list =>
          let user_agents :=
            match ua_list with
            | [] => user_agents
            | _ => user_agents ++ ua_list
            end in
          let os_types :=
            if String.eqb typ pc then os_types ++ [win; mac; linux]
            else if String.eqb typ mobile then os_types ++ [android]
            else os_types ++ [typ] in
          init_loop dict rest user_agents os_types
      end
  end.

(** [UserAgentPool.init] *)
Definition init (self : pool) : outcome unit * pool :=
  let r := init_loop (type_func_dict self) (types self) (user_agents self)
             (os_types self) in
  match r.1 with
  | Ok _ =>
      (Ok tt,
       mkPool (types self) (with_random_ua self) r.2.1 true
         (ua_local_dir self)
         (filter (fun x => x ∉ [compatible; ios]) r.2.2))
  | Raise e =>
      (Raise e,
       mkPool (types self) (with_random_ua self) r.2.1 true
         (ua_local_dir self) r.2.2)
  end.

(** [UserAgentPool.get]; [draw] is the draw of [random.choice]. *)
Definition get (self : pool) (draw : nat) : outcome string * pool :=
  let r := if init_flag self then (Ok tt, self) else init self in
  match r.1 with
  | Raise e => (Raise e, r.2)
  | Ok _ =>
      let self := r.2 in
      match (if with_random_ua self then generate_user_agent else None) with
      | Some generate => (Ok (generate (os_types self)), self)
      | None =>
          match user_agents self with
          | [] => (Ok "", self)
          | x :: l => (Ok (nth (draw mod length (x :: l)) (x :: l) x), self)
          end
      end
  end.
End Files.

(** Data of the examples: a directory with two of the files. *)
Definition ua_files : gmap string (list string) :=
  {[ "/ua/windows.txt" :=
       ["  Mozilla/5.0 (Windows NT 10.0)  "; ""; "Opera/9.80"];
     "/ua/mac.txt" := ["Mozilla/5.0 (Macintosh)"] ]}.
End UserAgentPool.

(** * Properties *)

(** ** CookiePool *)

Section CookiePoolFacts.
Import CookiePool.
Context {A : Type}.
Implicit Types (d : list A) (p : pool A) (ops : list (op A)).

Lemma maxlen_pos : 0 < maxlen.
Proof. reflexivity. Qed.

Lemma deque_append_short x d :
  Z.of_nat (length d) < maxlen -> deque_append x d = d ++ [x].
Proof.
  intros H. unfold deque_append. cbv zeta.
  rewrite length_app. cbn [length].
  destruct (Z.ltb_spec maxlen (Z.of_nat (length d + 1))); [lia | done].
Qed.

Lemma deque_append_full x d :
  maxlen <= Z.of_nat (length d) -> deque_append x d = tail (d ++ [x]).
Proof.
  intros H. unfold deque_append. cbv zeta.
  rewrite length_app. cbn [length].
  destruct (Z.ltb_spec maxlen (Z.of_nat (length d + 1))); [done | lia].
Qed.

Lemma deque_append_length x d :
  Z.of_nat (length d) <= maxlen ->
  Z.of_nat (length (deque_append x d)) <= maxlen.
Proof.
  intros H. destruct (Z.lt_ge_cases (Z.of_nat (length d)) maxlen).
  - rewrite deque_append_short by done. rewrite length_app. cbn. lia.
  - rewrite deque_append_full by done.
    destruct d as [|y d]; cbn in *; [done|].
    rewrite length_app. cbn. lia.
Qed.

Lemma deque_append_last x d : last (deque_append x d) = Some x.
Proof.
  unfold deque_append. cbv zeta. case_match; [|apply last_snoc].
  destruct d as [|y d]; cbn in *.
  - pose proof maxlen_pos. apply Z.ltb_lt in H. lia.
  - apply last_snoc.
Qed.

Lemma deque_append_elem y x d :
  y ∈ deque_append x d -> y ∈ d \/ y = x.
Proof.
  unfold deque_append. cbv zeta. intros H.
  assert (y ∈ d ++ [x]) as H'.
  { destruct (maxlen <? _); [|done]. destruct (d ++ [x]); [done|]. by right. }
  apply elem_of_app in H' as [?|Hx]; [by left|].
  right. by apply list_elem_of_singleton in Hx.
Qed.

Lemma get_snoc d x : get (mkPool (d ++ [x])) = (Ok (Some x), mkPool d).
Proof.
  unfold get, deque_pop. cbn [cookie_list].
  by rewrite last_snoc, removelast_last.
Qed.

Lemma get_nil : get (A := A) init = (Ok None, init).
Proof. reflexivity. Qed.

Lemma get_cases p :
  (cookie_list p = [] /\ get p = (Ok None, p)) \/
  (exists d x, cookie_list p = d ++ [x] /\ get p = (Ok (Some x), mkPool d)).
Proof.
  destruct p as [l]. destruct l as [|y l] using rev_ind.
  - left. done.
  - right. exists l, y. split; [done|]. apply get_snoc.
Qed.

Lemma run_length ops p :
  len p <= maxlen -> len (run ops p) <= maxlen.
Proof.
  revert p. induction ops as [|o ops IH]; intros p Hp; [done|].
  cbn. apply IH. destruct o as [c|]; cbn.
  - by apply deque_append_length.
  - destruct (get_cases p) as [[_ ->]|(d & x & Hd & ->)]; [done|].
    unfold len in *. cbn. rewrite Hd, length_app in Hp. cbn in Hp. lia.
Qed.

(** After a run of [add], the pool holds the last [maxlen] of what it
    held and what was added. *)
Lemma run_adds xs d :
  Z.of_nat (length d) <= maxlen ->
  cookie_list (run (adds xs) (mkPool d)) =
    drop (length (d ++ xs) - Z.to_nat maxlen) (d ++ xs).
Proof.
  revert d. induction xs as [|x xs IH]; intros d Hd.
  - cbn. rewrite app_nil_r.
    replace (length d - Z.to_nat maxlen)%nat with 0%nat by lia. done.
  - change (run (adds (x :: xs)) (mkPool d))
      with (run (adds xs) (mkPool (deque_append x d))).
    rewrite IH by by apply deque_append_length.
    destruct (Z.lt_ge_cases (Z.of_nat (length d)) maxlen).
    + rewrite deque_append_short by done.
      rewrite <- app_assoc. cbn. done.
    + rewrite deque_append_full by done.
      destruct d as [|y d]; cbn in *.
      * pose proof maxlen_pos. lia.
      * rewrite <- app_assoc. cbn. rewrite !length_app. cbn.
        replace (S (length d + S (length xs)) - Z.to_nat maxlen)%nat
          with (S (length d + S (length xs) - Z.to_nat maxlen)) by lia.
        done.
Qed.

Lemma answers_elem x ops p :
  Ok (Some x) ∈ answers ops p -> x ∈ cookie_list p \/ x ∈ added ops.
Proof.
  revert p. induction ops as [|o ops IH]; intros p H; cbn in H.
  - by apply elem_of_nil in H.
  - destruct o as [c|].
    + apply IH in H as [H|H].
      * apply deque_append_elem in H as [H| ->]; [by left|].
        right. cbn. by left.
      * right. cbn. by right.
    + destruct (get_cases p) as [[Hn Hg]|(d & y & Hd & Hg)];
        rewrite Hg in H; cbn in H.
      * apply elem_of_cons in H as [H|H]; [done|]. by apply IH in H.
      * apply elem_of_cons in H as [H|H].
        -- left. rewrite Hd. apply elem_of_app. right.
           apply list_elem_of_singleton. congruence.
        -- apply IH in H as [H|H]; [|by right].
           left. rewrite Hd. cbn in H. apply elem_of_app. by left.
Qed.

(** C8.  The pool never holds more than 10000 entries; [add] on a full
    pool drops the oldest entry, so that of 10001 entries added in a row
    the first is gone for every later [get]; [get] removes and returns
    the entry added last, returns [None] on an empty pool, and never
    raises. *)
Theorem cookie_pool_bounded_newest_first :
  (forall ops, len (run ops (init (A := A))) <= 10000) /\
  (forall p x, len p = 10000 ->
     cookie_list (add x p) = tail (cookie_list p) ++ [x]) /\
  (forall ops0 first rest ops,
     Z.of_nat (length rest) = 10000 ->
     first ∉ rest -> first ∉ added ops ->
     Ok (Some first) ∉
       answers ops (run (adds (first :: rest)) (run ops0 init))) /\
  (forall p x, get (add x p) = (Ok (Some x), mkPool (removelast (cookie_list (add x p))))) /\
  (forall d x, get (mkPool (d ++ [x])) = (Ok (Some x), mkPool d)) /\
  get (A := A) init = (Ok None, init) /\
  (forall p, is_ok (get p).1 = true).
Proof.
  split_and!.
  - intros ops. apply (run_length ops init). done.
  - intros [d] x Hp. unfold len in Hp. cbn in *.
    rewrite deque_append_full by (unfold maxlen; lia).
    destruct d; [done|]. done.
  - intros ops0 first rest ops Hlen Hrest Hops Hans.
    apply answers_elem in Hans as [H|H]; [|done].
    pose proof (run_length ops0 init) as Hinv.
    destruct (run ops0 init) as [d]. unfold len in Hinv. cbn in Hinv.
    rewrite run_adds in H by (apply Hinv; done).
    rewrite length_app in H. cbn [length] in H.
    replace (length d + S (length rest) - Z.to_nat maxlen)%nat
      with (length d + 1)%nat in H by (unfold maxlen; lia).
    rewrite drop_app_add in H. done.
  - intros p x. unfold get, deque_pop, add. cbn [cookie_list].
    by rewrite deque_append_last.
  - apply get_snoc.
  - reflexivity.
  - intros p. by destruct (get_cases p) as [[_ ->]|(d & x & _ & ->)].
Qed.
End CookiePoolFacts.

(** The pool of the examples: natural numbers as cookies. *)
Lemma cookie_pool_bounded_newest_first_witness :
  CookiePool.cookie_list (CookiePool.add 7%nat
                 (CookiePool.mkPool (seq 0 (Z.to_nat 10000)))) =
    tail (seq 0 (Z.to_nat 10000)) ++ [7%nat] /\
  Ok (Some 0%nat) ∉
    CookiePool.answers [CookiePool.Get; CookiePool.Add 7%nat; CookiePool.Get]
      (CookiePool.run (CookiePool.adds (0%nat :: seq 1 (Z.to_nat 10000)))
         (CookiePool.run [] CookiePool.init)).
Proof.
  destruct (cookie_pool_bounded_newest_first (A := nat))
    as (_ & Hfull & Hgone & _).
  split.
  - apply Hfull. vm_compute. reflexivity.
  - apply Hgone.
    + vm_compute. reflexivity.
    + intros H. apply elem_of_seq in H. lia.
    + vm_compute. intros H. apply list_elem_of_singleton in H. discriminate.
Defined.

(** ** Downloader.convert_http_protocol *)

Section ConvertFacts.
Import Py Downloader.

Lemma convert_url_https rest :
  convert_http_protocol (Url ("https" +:+ rest)) = Ok (Url ("http" +:+ rest)).
Proof. reflexivity. Qed.

Lemma convert_url_http rest :
  convert_http_protocol (Url ("http:" +:+ rest))
  = Ok (Url ("https:" +:+ rest)).
Proof. reflexivity. Qed.

Lemma convert_structured d request :
  convert_http_protocol (Structured d) = Ok request ->
  exists u u',
    d !! "url" = Some (VStr u) /\
    convert_http_protocol (Url u) = Ok (Url u') /\
    request = Structured (<["url" := VStr u']> d).
Proof.
  unfold convert_http_protocol.
  destruct (d !! "url") as [[| | | |u| |]|] eqn:Hu; cbn; try discriminate.
  intros [= <-]. eauto.
Qed.

(** C9.  A URL that begins with "https" comes back with "http" in its
    place, one that begins with "http:" with "https:" in its place; in a
    dictionary the URL under "url" is converted in the same way and no
    other field changes. *)
Theorem convert_http_protocol_swaps_scheme :
  (forall rest,
     convert_http_protocol (Url ("https" +:+ rest))
     = Ok (Url ("http" +:+ rest))) /\
  (forall rest,
     convert_http_protocol (Url ("http:" +:+ rest))
     = Ok (Url ("https:" +:+ rest))) /\
  (forall d rest,
     d !! "url" = Some (VStr ("https" +:+ rest)) ->
     convert_http_protocol (Structured d)
     = Ok (Structured (<["url" := VStr ("http" +:+ rest)]> d))) /\
  (forall d rest,
     d !! "url" = Some (VStr ("http:" +:+ rest)) ->
     convert_http_protocol (Structured d)
     = Ok (Structured (<["url" := VStr ("https:" +:+ rest)]> d))) /\
  (forall d request,
     convert_http_protocol (Structured d) = Ok request ->
     exists d', request = Structured d' /\
       forall k, k ≠ "url" -> d' !! k = d !! k).
Proof.
  split_and!.
  - apply convert_url_https.
  - apply convert_url_http.
  - intros d rest Hu. unfold convert_http_protocol. by rewrite Hu.
  - intros d rest Hu. unfold convert_http_protocol. by rewrite Hu.
  - intros d request (u & u' & _ & _ & ->)%convert_structured.
    eexists. split; [done|]. intros k Hk. by rewrite lookup_insert_ne.
Qed.

Lemma convert_http_protocol_swaps_scheme_witness :
  convert_http_protocol
    (Structured {[ "url" := VStr "https://a.com/x"; "method" := VStr "GET" ]})
  = Ok (Structured
          (<["url" := VStr "http://a.com/x"]>
             {[ "url" := VStr "https://a.com/x"; "method" := VStr "GET" ]})) /\
  convert_http_protocol
    (Structured {[ "url" := VStr "http://a.com/x"; "method" := VStr "GET" ]})
  = Ok (Structured
          (<["url" := VStr "https://a.com/x"]>
             {[ "url" := VStr "http://a.com/x"; "method" := VStr "GET" ]})) /\
  exists d',
    Structured (<["url" := VStr "https://a.com/x"]>
                  {[ "url" := VStr "http://a.com/x" ]}) = Structured d' /\
    forall k, k ≠ "url" ->
      d' !! k = ({[ "url" := VStr "http://a.com/x" ]} : gmap string value) !! k.
Proof.
  destruct convert_http_protocol_swaps_scheme as (_ & _ & H1 & H2 & H3).
  split_and!.
  - apply (H1 _ "://a.com/x"). reflexivity.
  - apply (H2 _ "//a.com/x"). reflexivity.
  - apply H3. reflexivity.
Defined.
End ConvertFacts.

(** ** Downloader.download *)

Section DownloadFacts.
Import Py Downloader.
Context {W : Type}.
Variable logger : log_record -> W -> W.
Variable _download :
  Request -> gmap string value -> W -> outcome (option Response) * W.
Variable self : downloader.

Lemma convert_total request :
  url_is_str request ->
  exists request', convert_http_protocol request = Ok request'.
Proof.
  destruct request as [u|d]; cbn.
  - intros _. unfold convert_http_protocol. eauto.
  - intros [u Hu]. unfold convert_http_protocol. rewrite Hu. cbn. eauto.
Qed.

(** The second turn of the loop of [download] ends the call without an
    exception, whatever the dispatcher does. *)
Lemma download_loop_last request kwargs e (w : W) :
  exists r w',
    download_loop logger _download self 1 request kwargs (Some e) true w
    = (Ok r, w').
Proof.
  cbn. destruct (_download request kwargs w) as [[resp|e2] w1]; eauto.
Qed.
End DownloadFacts.

(** The calls [download] makes of its dispatcher, and what it returns
    after them. *)
Lemma download_attempts :
  forall (W : Type) logger _download self request kwargs (w : W),
    let r := Downloader.download (Downloader.observed_logger logger)
               (Downloader.observed _download) self request kwargs (w, []) in
    (r.2.2 = [request] \/
     exists request',
       Downloader.convert_http_protocol request = Ok request' /\
       r.2.2 = [request; request']) /\
    (forall response w1,
       _download request kwargs w = (Ok response, w1) ->
       r.1 = Ok (Downloader.set_graper_exception None <$> response) /\
       r.2.2 = [request]) /\
    (forall e w1 request',
       _download request kwargs w = (Raise e, w1) ->
       Downloader.convert_http_protocol request = Ok request' ->
       r.2.2 = [request; request'] /\
       forall response w2,
         _download request' kwargs w1 = (Ok response, w2) ->
         r.1 = Ok (Downloader.set_graper_exception (Some e) <$> response)).
Proof.
  intros W logger _download self request kwargs w r. subst r.
  unfold Downloader.download, Downloader.download_loop, Downloader.observed.
  cbn [fst snd].
  destruct (_download request kwargs w) as [[response|e] w1] eqn:H1; cbn.
  - assert (forall b : bool,
              (if b then Downloader.observed_logger logger
                           (Downloader.LogError
                              ("download failed: "
                               +:+ pretty (Downloader.status_code
                                             (default Downloader.page response))
                               +:+ " "
                               +:+ Downloader.url
                                     (default Downloader.page response)))
                           (w1, [request])
               else (w1, [request])).2 = [request]) as Hlog
      by (by intros []).
    split_and!.
    + left. destruct response; cbn; [apply Hlog | done].
    + intros ? ? [= <- <-]. destruct response; cbn; [|done].
      split; [done | apply Hlog].
    + intros; discriminate.
  - destruct (Downloader.convert_http_protocol request) as [request'|e'] eqn:Hc;
      cbn.
    + destruct (_download request' kwargs w1) as [[response|e2] w2] eqn:H2; cbn.
      * assert (forall b : bool,
              (if b then Downloader.observed_logger logger
                           (Downloader.LogError
                              ("download failed: "
                               +:+ pretty (Downloader.status_code
                                             (default Downloader.page response))
                               +:+ " "
                               +:+ Downloader.url
                                     (default Downloader.page response)))
                           (w2, [request; request'])
               else (w2, [request; request'])).2 = [request; request'])
          as Hlog by (by intros []).
        split_and!.
        -- right. exists request'. split; [done|].
           destruct response; cbn; [apply Hlog | done].
        -- intros; discriminate.
        -- intros ? ? ? [= <- <-] [= <-]. rewrite H2.
           split; [destruct response; cbn; [apply Hlog | done]|].
           intros ? ? [= <- <-]. by destruct response.
      * split_and!.
        -- right. exists request'. split; [done|].
           by destruct (Downloader.show_error_log self).
        -- intros; discriminate.
        -- intros ? ? ? [= <- <-] [= <-]. rewrite H2.
           split; [by destruct (Downloader.show_error_log self)|].
           intros; discriminate.
    + split_and!.
      * by left.
      * intros; discriminate.
      * intros; discriminate.
Qed.

(** C5.  [download] calls the dispatcher at most twice.  When the first
    call fails, the request is converted once and the second call is made
    on the converted request: on the "http" URL for an "https" one, on the
    "https:" URL for an "http:" one.  A response of the second call
    carries the exception of the first, a response of the first call
    carries [None]: the response returned has it as its
    [graper_exception], and is in everything else the response of the
    dispatcher. *)
Theorem download_two_attempts_one_conversion :
  forall (W : Type) logger _download self request kwargs (w : W),
    let r := Downloader.download (Downloader.observed_logger logger)
               (Downloader.observed _download) self request kwargs (w, []) in
    ((length r.2.2 <= 2)%nat /\
     (r.2.2 = [request] \/
      exists request',
        Downloader.convert_http_protocol request = Ok request' /\
        r.2.2 = [request; request'])) /\
    (forall response w1,
       _download request kwargs w = (Ok response, w1) ->
       r.1 = Ok (Downloader.set_graper_exception None <$> response) /\
       r.2.2 = [request]) /\
    (forall e w1 request',
       _download request kwargs w = (Raise e, w1) ->
       Downloader.convert_http_protocol request = Ok request' ->
       r.2.2 = [request; request'] /\
       forall response w2,
         _download request' kwargs w1 = (Ok response, w2) ->
         r.1 = Ok (Downloader.set_graper_exception (Some e) <$> response)) /\
    (forall e w1 rest,
       _download request kwargs w = (Raise e, w1) ->
       (request = Downloader.Url ("https" +:+ rest) ->
        r.2.2 = [request; Downloader.Url ("http" +:+ rest)]) /\
       (request = Downloader.Url ("http:" +:+ rest) ->
        r.2.2 = [request; Downloader.Url ("https:" +:+ rest)])) /\
    (forall response w1,
       _download request kwargs w = (Ok (Some response), w1) ->
       exists returned,
         r.1 = Ok (Some returned) /\
         Downloader.graper_exception returned = None /\
         Downloader.status_code returned = Downloader.status_code response /\
         Downloader.url returned = Downloader.url response /\
         Downloader.truth returned = Downloader.truth response /\
         Downloader.is_closed returned = Downloader.is_closed response /\
         Downloader.meta returned = Downloader.meta response) /\
    (forall e w1 request' response w2,
       _download request kwargs w = (Raise e, w1) ->
       Downloader.convert_http_protocol request = Ok request' ->
       _download request' kwargs w1 = (Ok (Some response), w2) ->
       exists returned,
         r.1 = Ok (Some returned) /\
         Downloader.graper_exception returned = Some e /\
         Downloader.status_code returned = Downloader.status_code response /\
         Downloader.url returned = Downloader.url response /\
         Downloader.truth returned = Downloader.truth response /\
         Downloader.is_closed returned = Downloader.is_closed response /\
         Downloader.meta returned = Downloader.meta response).
Proof.
  intros W logger _download self request kwargs w r.
  destruct (download_attempts W logger _download self request kwargs w)
    as (Hseen & Hfirst & Hsecond).
  fold r in Hseen, Hfirst, Hsecond.
  split; [|split; [|split; [|split; [|split]]]]; try done.
  - split; [|done]. destruct Hseen as [->|(request' & _ & ->)]; cbn; lia.
  - intros e w1 rest H1. split; intros ->.
    + by apply (Hsecond e w1 (Downloader.Url ("http" +:+ rest)) H1).
    + by apply (Hsecond e w1 (Downloader.Url ("https:" +:+ rest)) H1).
  - intros response w1 H1. destruct (Hfirst _ _ H1) as [Hr _].
    exists (Downloader.set_graper_exception None response).
    by split_and!.
  - intros e w1 request' response w2 H1 Hc H2.
    destruct (Hsecond _ _ _ H1 Hc) as [_ Hr].
    exists (Downloader.set_graper_exception (Some e) response).
    split; [by apply (Hr _ _ H2)|]. by split_and!.
Qed.

Lemma download_two_attempts_one_conversion_witness :
  let r := Downloader.download
             (Downloader.observed_logger Downloader.no_logger)
             (Downloader.observed Downloader.flaky) (Downloader.plain false)
             (Downloader.Url "http://a.com/x") ∅ (1%nat, []) in
  let r' := Downloader.download
              (Downloader.observed_logger Downloader.no_logger)
              (Downloader.observed Downloader.flaky) (Downloader.plain false)
              (Downloader.Url "http://a.com/x") ∅ (0%nat, []) in
  (r.1 = Ok (Downloader.set_graper_exception None <$> Some Downloader.page) /\
   r.2.2 = [Downloader.Url "http://a.com/x"]) /\
  r'.2.2 = [Downloader.Url "http://a.com/x"; Downloader.Url "https://a.com/x"] /\
  r'.1 = Ok (Downloader.set_graper_exception
               (Some (TransportError "connection refused"))
               <$> Some Downloader.page) /\
  exists returned,
    r'.1 = Ok (Some returned) /\
    Downloader.graper_exception returned
    = Some (TransportError "connection refused") /\
    Downloader.status_code returned = Downloader.status_code Downloader.page.
Proof.
  intros r r'. split.
  - destruct (download_two_attempts_one_conversion nat Downloader.no_logger
                Downloader.flaky (Downloader.plain false)
                (Downloader.Url "http://a.com/x") ∅ 1%nat) as (_ & H & _).
    apply (H (Some Downloader.page) 2%nat). reflexivity.
  - destruct (download_two_attempts_one_conversion nat Downloader.no_logger
                Downloader.flaky (Downloader.plain false)
                (Downloader.Url "http://a.com/x") ∅ 0%nat)
      as (_ & _ & H & Hflip & _ & Hnote).
    destruct (H (TransportError "connection refused") 1%nat
                (Downloader.Url "https://a.com/x") eq_refl eq_refl)
      as [_ Hresp].
    destruct (Hflip (TransportError "connection refused") 1%nat "//a.com/x"
                eq_refl) as [_ Hseen].
    split; [exact (Hseen eq_refl)|]. split.
    + apply (Hresp (Some Downloader.page) 2%nat). reflexivity.
    + destruct (Hnote (TransportError "connection refused") 1%nat
                  (Downloader.Url "https://a.com/x") Downloader.page 2%nat
                  eq_refl eq_refl eq_refl)
        as (returned & Hret & Hexc & Hstatus & _).
      exists returned. by split_and!.
Defined.

(** C4.  For every request of the data model, a URL string ([Url _]) or
    a record with its URL (a dictionary with a string under "url"), and
    for every keyword arguments, [download] ends without an exception,
    with a response or with [None], whatever the dispatcher and the
    logger do; it returns [None] when both calls of the dispatcher
    failed. *)
Theorem download_never_raises_on_string_url :
  forall (W : Type) logger _download self request kwargs (w : W),
    Downloader.url_is_str request ->
    (exists r w',
       Downloader.download logger _download self request kwargs w
       = (Ok r, w')) /\
    (forall e1 w1 request' e2 w2,
       _download request kwargs w = (Raise e1, w1) ->
       Downloader.convert_http_protocol request = Ok request' ->
       _download request' kwargs w1 = (Raise e2, w2) ->
       (Downloader.download logger _download self request kwargs w).1
       = Ok None).
Proof.
  intros W logger _download self request kwargs w Hurl.
  unfold Downloader.download. split.
  - cbn -[Downloader.convert_http_protocol].
    destruct (_download request kwargs w) as [[response|e] w1] eqn:H1.
    + destruct response; eauto.
    + destruct (convert_total request Hurl) as [request' ->].
      destruct (download_loop_last logger _download self request' kwargs e w1)
        as ([[response|] exception] & w2 & H2).
      * cbn in H2 |- *. rewrite H2. eauto.
      * cbn in H2 |- *. rewrite H2. eauto.
  - intros e1 w1 request' e2 w2 H1 Hc H2.
    cbn -[Downloader.convert_http_protocol]. rewrite H1, Hc.
    cbn. rewrite H2. by destruct (Downloader.show_error_log self).
Qed.

Lemma download_never_raises_on_string_url_witness :
  (exists r w',
     Downloader.download Downloader.no_logger Downloader.offline
       (Downloader.plain false)
       (Downloader.Structured {[ "url" := Py.VStr "http://a.com/x" ]}) ∅ 0%nat
     = (Ok r, w')) /\
  (Downloader.download Downloader.no_logger Downloader.offline
     (Downloader.plain false)
     (Downloader.Structured {[ "url" := Py.VStr "http://a.com/x" ]}) ∅ 0%nat).1
  = Ok None.
Proof.
  destruct (download_never_raises_on_string_url nat Downloader.no_logger
              Downloader.offline (Downloader.plain false)
              (Downloader.Structured {[ "url" := Py.VStr "http://a.com/x" ]})
              ∅ 0%nat) as [H1 H2].
  - exists "http://a.com/x". reflexivity.
  - split; [exact H1|].
    apply (H2 (TransportError "connection refused") 1%nat
              (Downloader.Structured
                 (<["url" := Py.VStr "https://a.com/x"]>
                    {[ "url" := Py.VStr "http://a.com/x" ]}))
              (TransportError "connection refused") 2%nat);
      reflexivity.
Defined.

(** A dictionary without URL is no request of the data model, and what
    precedes does not extend to it: with proxies switched on and an empty
    proxy pool the dispatch fails, and the conversion of the request,
    called from the handler, raises out of [download]. *)
Lemma download_raises_without_url :
  (Downloader.run_download id (Downloader.plain true) 0
     (Downloader.Structured {[ "method" := Py.VStr "GET" ]}) ∅
     Downloader.quiet).1
  = Raise (AttributeError "object has no attribute 'startswith'").
Proof. vm_compute. reflexivity. Qed.

(** ** Downloader.prepare_request *)

Section PipelineFacts.
Import Py Downloader.
Variable util_format_headers : gmap string value -> gmap string value.
Variable self : downloader.

Lemma bind_ok {A B} (m : M A) (k : A -> M B) w b w' :
  bind m k w = (Ok b, w') ->
  exists a w1, m w = (Ok a, w1) /\ k a w1 = (Ok b, w').
Proof.
  unfold bind. destruct (m w) as [[a|e] w1]; [eauto | discriminate].
Qed.

Lemma bind_run {A B} (m : M A) (k : A -> M B) w a w1 :
  m w = (Ok a, w1) -> bind m k w = k a w1.
Proof. unfold bind. by intros ->. Qed.

Lemma bind_fail {A B} (m : M A) (k : A -> M B) w e w1 :
  m w = (Raise e, w1) -> bind m k w = (Raise e, w1).
Proof. unfold bind. by intros ->. Qed.

Lemma aside_ret {A} (a : A) : aside (ret a).
Proof.
  intros w. exists []. cbn. rewrite app_nil_r.
  split_and!; try done. apply not_elem_of_nil.
Qed.

Lemma aside_raise {A} e :
  (forall msg, e ≠ Exception msg) -> aside (raise (A := A) e).
Proof.
  intros He w. exists []. cbn. rewrite app_nil_r.
  split_and!; try done; [apply not_elem_of_nil|].
  intros msg [= ->]. by eapply He.
Qed.

Lemma aside_bind {A B} (m : M A) (k : A -> M B) :
  aside m -> (forall a, aside (k a)) -> aside (bind m k).
Proof.
  intros Hm Hk w. destruct (Hm w) as (evs & Hp & Ht & Hn & Hc & Hx & He).
  unfold bind. destruct (m w) as [[a|e] w1]; cbn in *.
  - destruct (Hk a w1) as (evs' & Hp' & Ht' & Hn' & Hc' & Hx' & He').
    exists (evs ++ evs'). rewrite Hp', Ht', Hp, Ht, app_assoc.
    unfold created, executed_on in *. rewrite !omap_app, Hc, Hc', Hx, Hx'.
    split_and!; try done. rewrite elem_of_app. tauto.
  - exists evs. split_and!; try done.
    intros msg [= ->]. by eapply He.
Qed.

Lemma aside_pool_get p : p ≠ Proxy -> aside (pool_get p).
Proof.
  intros Hp w. exists [PoolGet p]. unfold pool_get. cbn.
  destruct (pools w p) as [|a rest]; cbn.
  - split_and!; try done. rewrite list_elem_of_singleton. congruence.
  - rewrite decide_False by done.
    split_and!; try done; [rewrite list_elem_of_singleton; congruence|].
    destruct a as [v|e own]; [done|]. intros msg [= ->]. done.
Qed.

Lemma aside_if {A} (b : bool) (m1 m2 : M A) :
  aside m1 -> aside m2 -> aside (if b then m1 else m2).
Proof. by destruct b. Qed.

Lemma aside_request_headers headers :
  aside (request_headers util_format_headers self headers).
Proof.
  unfold request_headers, default_headers.
  repeat first
    [ apply aside_bind; [|intros ?]
    | apply aside_if
    | apply aside_ret
    | by apply aside_pool_get
    | by apply aside_raise
    | match goal with |- aside (let '(_, _) := ?a in _) => destruct a end
    | match goal with |- aside (match ?v with VNone => _ | _ => _ end) =>
        destruct v
      end ].
Qed.

Lemma cookie_pairs_exn segments acc e :
  cookie_pairs segments acc = Raise e ->
  e = ValueError "dictionary update sequence element".
Proof.
  revert acc. induction segments as [|x rest IH]; intros acc; cbn; [done|].
  destruct (strip_nonempty x); [|apply IH].
  destruct (split_once "=" x) as [|k [|v [|? ?]]]; try (by intros [= <-]).
  apply IH.
Qed.

(** The cookies are computed without the outside; an exception there is
    never the plain [Exception]; every option but [cookies] is left as
    it is, and so is [cookies] when the call gave it. *)
Lemma request_cookies_spec _session headers _cookies kwargs w :
  let r := request_cookies self _session headers _cookies kwargs w in
  r.2 = w /\
  (forall msg, r.1 ≠ Raise (Exception msg)) /\
  (forall kw', r.1 = Ok kw' ->
     (forall k, k ≠ "cookies" -> kw' !! k = kwargs !! k) /\
     is_Some (kw' !! "cookies") /\
     (forall v, kwargs !! "cookies" = Some v -> kw' !! "cookies" = Some v)).
Proof.
  unfold request_cookies.
  destruct (kwargs !! "cookies") as [v|] eqn:Hc; cbn.
  { split_and!; try done. intros kw' [= <-]. split_and!; try done.
    by rewrite Hc. }
  unfold session_cookie.
  destruct (truthy _session); [destruct _session|]; cbn;
    try (split_and!; done).
  all: destruct (default (VStr "") (headers !! "Cookie")); cbn;
    try (split_and!; done).
  all: match goal with
       | |- context [cookie_pairs ?l ?a] =>
           destruct (cookie_pairs l a) as [cookies|e] eqn:Hp; cbn
       end.
  all: try (apply cookie_pairs_exn in Hp as ->; split_and!; done).
  all: split_and!; try done; intros kw' [= <-]; split_and!; try done.
  all: try (intros k Hk; by rewrite lookup_insert_ne).
  all: by rewrite lookup_insert_eq.
Qed.

Lemma lookup_setdefault k v (d : gmap string value) k' :
  setdefault k v d !! k' =
    if decide (k = k') then Some (default v (d !! k)) else d !! k'.
Proof.
  unfold setdefault. destruct (d !! k) as [x|] eqn:Hk; case_decide; subst.
  - by rewrite Hk.
  - done.
  - by rewrite lookup_insert_eq.
  - by rewrite lookup_insert_ne.
Qed.

Lemma pool_get_outcome p w : (pool_get p w).1 = next_outcome p w.
Proof.
  unfold pool_get, next_outcome. cbn. by destruct (pools w p) as [|[]].
Qed.

Lemma next_outcome_answer p w v :
  next_outcome p w = Ok v -> next_answer p w = v.
Proof. unfold next_answer. by intros ->. Qed.

(** What [request_defaults] yields, case by case. *)
Lemma request_defaults_spec kwargs w :
  let r := request_defaults self kwargs w in
  let filled kw :=
    setdefault "timeout" (timeout self)
      (setdefault "stream" (VBool (stream self))
         (kw (setdefault "verify" (VBool false) kwargs))) in
  match kwargs !! "proxies" with
  | Some _ => r = (Ok (filled (fun kw => kw)), w)
  | None =>
      if proxy_enable self then
        r.2 = (pool_get Proxy w).2 /\
        r.1 = match next_outcome Proxy w with
              | Ok proxies =>
                  if truthy proxies
                  then Ok (filled (insert "proxies" proxies))
                  else Raise (Exception "no valid proxy")
              | Raise e => Raise e
              end
      else r = (Ok (filled (fun kw => kw)), w)
  end.
Proof.
  unfold request_defaults. cbv zeta.
  rewrite lookup_setdefault, decide_False by done.
  destruct (kwargs !! "proxies") as [v|] eqn:Hp; [done|].
  destruct (proxy_enable self); [|done].
  unfold bind. pose proof (pool_get_outcome Proxy w) as Ha.
  destruct (pool_get Proxy w) as [o w1]. cbn in Ha. subst o. cbn.
  destruct (next_outcome Proxy w) as [proxies|e]; [|done].
  by destruct (truthy proxies).
Qed.

Lemma news_app w w' evs : trace w' = trace w ++ evs -> news w w' = evs.
Proof. unfold news. intros ->. apply drop_app_length. Qed.

(** [prepare_request], stage by stage. *)
Lemma prepare_request_stages request kwargs w :
  let opts := options request kwargs in
  let h := request_headers util_format_headers self
             (default (VDict ∅) (opts !! "headers")) w in
  prepare_request util_format_headers self request kwargs w =
    match h.1 with
    | Raise e => (Raise e, h.2)
    | Ok (headers, _cookies) =>
        let d := request_defaults self
                   (<["headers" := VDict headers]> (delete "headers" opts))
                   h.2 in
        match d.1 with
        | Raise e => (Raise e, d.2)
        | Ok kw =>
            let c := request_cookies self (default VNone (kw !! "session"))
                       headers _cookies (delete "session" kw) d.2 in
            match c.1 with
            | Raise e => (Raise e, c.2)
            | Ok kw' =>
                (Ok (default VNone (kw !! "session"),
                     (if (bool_decide (is_Some (kw' !! "data"))
                          || bool_decide (is_Some (kw' !! "json")))
                         && eq_str (default (VStr "GET") (opts !! "method"))
                              "GET"
                      then VStr "POST"
                      else default (VStr "GET") (opts !! "method")),
                     match request with
                     | Structured d => default VNone (d !! "url")
                     | Url u => VStr u
                     end,
                     delete "method" (delete "url" kw')), c.2)
            end
        end
    end.
Proof.
  cbv zeta. unfold prepare_request, bind.
  destruct (request_headers _ _ _ w) as [[[headers ck]|e] w1]; [|done].
  cbn [fst snd].
  destruct (request_defaults _ _ w1) as [[kw|e] w2]; [|done].
  cbn [fst snd pop].
  destruct (request_cookies _ _ _ _ _ w2) as [[kw'|e] w3]; done.
Qed.

Lemma pool_get_spec p w :
  exists w',
    pool_get p w = (next_outcome p w, w') /\
    trace w' = trace w ++ [PoolGet p] /\
    (forall q, q ≠ p -> pools w' q = pools w q) /\
    network w' = network w /\ clock w' = clock w.
Proof.
  unfold pool_get, next_outcome. cbn.
  destruct (pools w p) as [|a rest]; cbn.
  - eexists. split_and!; done.
  - eexists. split; [reflexivity|]. split_and!; try done.
    intros q Hq. cbn. by rewrite decide_False.
Qed.

(** The error of a pool is not the plain [Exception]. *)
Lemma next_outcome_own p w e :
  next_outcome p w = Raise e -> forall msg, e ≠ Exception msg.
Proof.
  unfold next_outcome. destruct (pools w p) as [|[v|e' own] rest]; try done.
  intros [= ->] msg ->. done.
Qed.

(** C7.  [prepare_request] raises "no valid proxy" exactly when proxies
    are switched on, neither the request nor the keywords give
    [proxies], and the proxy pool, asked, returns a falsy value: the
    error implies the three, and the three imply the error, whatever the
    headers and the other pools are (a pool may raise).  The proxy pool
    is asked exactly when proxies are on, the call gives no [proxies]
    and lines 415 to 440 have built the headers.  When [proxies] is
    given, the proxy pool is not asked and the error is not raised. *)
Theorem no_valid_proxy_exactly_when request kwargs w :
  let opts := options request kwargs in
  let r := prepare_request util_format_headers self request kwargs w in
  (r.1 = Raise (Exception "no valid proxy") ->
   proxy_enable self = true /\ opts !! "proxies" = None /\
   PoolGet Proxy ∈ news w r.2 /\
   next_outcome Proxy w = Ok (next_answer Proxy w) /\
   truthy (next_answer Proxy w) = false) /\
  (proxy_enable self = true -> opts !! "proxies" = None ->
   PoolGet Proxy ∈ news w r.2 ->
   forall proxies,
     next_outcome Proxy w = Ok proxies -> truthy proxies = false ->
     r.1 = Raise (Exception "no valid proxy")) /\
  (PoolGet Proxy ∈ news w r.2 <->
   proxy_enable self = true /\ opts !! "proxies" = None /\
   is_ok (request_headers util_format_headers self
            (default (VDict ∅) (opts !! "headers")) w).1 = true) /\
  (is_Some (opts !! "proxies") ->
   (forall msg, r.1 ≠ Raise (Exception msg)) /\
   (PoolGet Proxy ∉ news w r.2) /\
   pools r.2 Proxy = pools w Proxy).
Proof.
  intros opts r. subst r. rewrite prepare_request_stages. cbv zeta.
  fold opts. set (hv := default (VDict ∅) (opts !! "headers")).
  destruct (aside_request_headers hv w)
    as (evs & Hp & Ht & Hn & _ & _ & He).
  destruct (request_headers util_format_headers self hv w)
    as [[[headers ck]|e] w1]; cbn [fst snd is_ok] in *.
  2: { rewrite (news_app _ _ _ Ht). split_and!.
       - intros [= ->]. by destruct (He "no valid proxy").
       - done.
       - split; [done|]. by intros (_ & _ & ?).
       - intros _. split_and!; try done.
         intros msg [= ->]. by destruct (He msg). }
  clear He.
  set (kw1 := <["headers" := VDict headers]> (delete "headers" opts)).
  pose proof (request_defaults_spec kw1 w1) as Hd. cbv zeta in Hd.
  assert (kw1 !! "proxies" = opts !! "proxies") as Hkw1.
  { unfold kw1. by rewrite lookup_insert_ne, lookup_delete_ne. }
  rewrite Hkw1 in Hd.
  assert (next_outcome Proxy w1 = next_outcome Proxy w) as Hnext.
  { unfold next_outcome. by rewrite Hp. }
  assert (forall kw w2,
            let c := request_cookies self (default VNone (kw !! "session"))
                       headers ck (delete "session" kw) w2 in
            forall R (k : gmap string value -> R) msg,
              match c.1 with
              | Raise e => (Raise e, c.2)
              | Ok kw' => (Ok (k kw'), c.2)
              end.1 ≠ Raise (Exception msg)) as Hrest.
  { intros kw w2 c R k msg.
    destruct (request_cookies_spec (default VNone (kw !! "session"))
                headers ck (delete "session" kw) w2) as (_ & Hc & _).
    fold c in Hc. specialize (Hc msg).
    destruct c.1; cbn; congruence. }
  assert (forall kw w2,
            let c := request_cookies self (default VNone (kw !! "session"))
                       headers ck (delete "session" kw) w2 in
            forall R (k : gmap string value -> R),
              match c.1 with
              | Raise e => (Raise e, c.2)
              | Ok kw' => (Ok (k kw'), c.2)
              end.2 = w2) as Hworld.
  { intros kw w2 c R k.
    destruct (request_cookies_spec (default VNone (kw !! "session"))
                headers ck (delete "session" kw) w2) as (Hc & _).
    fold c in Hc. destruct c.1; cbn; congruence. }
  destruct (opts !! "proxies") as [px|] eqn:Hpx.
  - rewrite Hd. cbn [fst snd]. rewrite Hworld, (news_app _ _ _ Ht).
    split_and!.
    + intros H. by apply Hrest in H.
    + intros; discriminate.
    + split; [done|]. by intros (_ & ? & _).
    + intros _. split_and!; [intros msg; apply Hrest | done | done].
  - destruct (proxy_enable self) eqn:Hen.
    + destruct Hd as [Hd2 Hd1]. rewrite Hnext in Hd1.
      destruct (pool_get_spec Proxy w1) as (w2 & Hget & Ht2 & _).
      rewrite Hget in Hd2. cbn [snd] in Hd2.
      assert (PoolGet Proxy ∈ news w (request_defaults self kw1 w1).2)
        as Hasked.
      { rewrite Hd2, (news_app _ _ (evs ++ [PoolGet Proxy])).
        - apply elem_of_app. right. apply list_elem_of_here.
        - by rewrite Ht2, Ht, app_assoc. }
      destruct (request_defaults self kw1 w1) as [o wd].
      cbn [fst snd] in *. subst o wd.
      destruct (next_outcome Proxy w) as [proxies|e] eqn:Hout.
      * destruct (truthy proxies) eqn:Htr; cbn [fst snd].
        -- rewrite Hworld. split; [|split; [|split]].
           ++ intros H. by apply Hrest in H.
           ++ intros _ _ _ ? [= <-]. congruence.
           ++ done.
           ++ intros [? [=]].
        -- rewrite (next_outcome_answer _ _ _ Hout).
           split; [|split; [|split]]; [done|done|done|].
           intros [? [=]].
      * cbn [fst snd]. split; [|split; [|split]].
        -- intros [= ->].
           by destruct (next_outcome_own _ _ _ Hout "no valid proxy").
        -- intros; discriminate.
        -- done.
        -- intros [? [=]].
    + rewrite Hd. cbn [fst snd]. rewrite Hworld, (news_app _ _ _ Ht).
      split_and!.
      * intros H. by apply Hrest in H.
      * intros; discriminate.
      * split; [done|]. by intros (? & _).
      * intros [? [=]].
Qed.

Ltac look :=
  repeat first
    [ rewrite lookup_delete_ne by done
    | rewrite lookup_insert_ne by done
    | rewrite lookup_insert_eq
    | rewrite lookup_delete_eq
    | rewrite lookup_setdefault
    | rewrite decide_True by done
    | rewrite decide_False by done ].

(** The headers of a call whose [headers] option is a dictionary: that
    dictionary, over headers [base] that come from the downloader and
    its pools. *)
Lemma request_headers_dict hd w h ck w1 :
  request_headers util_format_headers self (VDict hd) w = (Ok (h, ck), w1) ->
  exists base,
    h = if format_headers self then util_format_headers (hd ∪ base)
        else hd ∪ base.
Proof.
  unfold request_headers. intros H.
  apply bind_ok in H as (dh & w2 & _ & H).
  apply bind_ok in H as ([dh' ck'] & w3 & _ & H).
  apply bind_ok in H as (dh'' & w4 & _ & H).
  apply bind_ok in H as (dh3 & w5 & H3 & H).
  injection H as <- _ _. exists dh''.
  destruct (truthy (VDict hd)) eqn:Ht.
  - by injection H3 as <- _.
  - injection H3 as <- _. cbn in Ht.
    destruct (map_to_list hd) eqn:Hl; [|done].
    apply map_to_list_empty_iff in Hl as ->. by rewrite (left_id_L ∅ (∪)).
Qed.

(** What a call of [prepare_request] that returns has made of the
    options of the call. *)
Lemma prepare_request_ok request kwargs w s m u kw' w' :
  prepare_request util_format_headers self request kwargs w
  = (Ok (s, m, u, kw'), w') ->
  let opts := options request kwargs in
  s = default VNone (opts !! "session") /\
  kw' !! "verify" = Some (default (VBool false) (opts !! "verify")) /\
  kw' !! "stream" = Some (default (VBool (stream self)) (opts !! "stream")) /\
  kw' !! "timeout" = Some (default (timeout self) (opts !! "timeout")) /\
  kw' !! "proxies" =
    match opts !! "proxies" with
    | Some v => Some v
    | None => if proxy_enable self then Some (next_answer Proxy w) else None
    end /\
  (forall v, opts !! "cookies" = Some v -> kw' !! "cookies" = Some v) /\
  is_Some (kw' !! "cookies") /\
  (exists h, kw' !! "headers" = Some (VDict h) /\
     forall hd, opts !! "headers" = Some (VDict hd) ->
       exists base,
         h = if format_headers self then util_format_headers (hd ∪ base)
             else hd ∪ base) /\
  (forall k,
     k ∉ ["headers"; "verify"; "proxies"; "stream"; "timeout"; "session";
          "cookies"; "url"; "method"] ->
     kw' !! k = opts !! k) /\
  (m = default (VStr "GET") (opts !! "method") \/
   m = VStr "POST" /\
   eq_str (default (VStr "GET") (opts !! "method")) "GET" = true /\
   (is_Some (opts !! "data") \/ is_Some (opts !! "json"))).
Proof.
  intros H opts. rewrite prepare_request_stages in H. cbv zeta in H.
  fold opts in H. set (hv := default (VDict ∅) (opts !! "headers")) in *.
  destruct (aside_request_headers hv w) as (evs & Hp & _).
  destruct (request_headers util_format_headers self hv w)
    as [[[headers ck]|e] w1] eqn:Hh; [|done]. cbn [fst snd] in *.
  set (kw1 := <["headers" := VDict headers]> (delete "headers" opts)) in *.
  pose proof (request_defaults_spec kw1 w1) as Hd. cbv zeta in Hd.
  assert (kw1 !! "proxies" = opts !! "proxies") as Hkw1
    by (unfold kw1; by look).
  rewrite Hkw1 in Hd.
  assert (next_outcome Proxy w1 = next_outcome Proxy w) as Hnext
    by (unfold next_outcome; by rewrite Hp).
  rewrite Hnext in Hd.
  assert (exists kw2 w2,
            request_defaults self kw1 w1 = (Ok kw2, w2) /\
            (forall k, k ≠ "proxies" ->
               kw2 !! k = setdefault "timeout" (timeout self)
                 (setdefault "stream" (VBool (stream self))
                    (setdefault "verify" (VBool false) kw1)) !! k) /\
            kw2 !! "proxies" =
              match opts !! "proxies" with
              | Some v => Some v
              | None => if proxy_enable self
                        then Some (next_answer Proxy w) else None
              end) as (kw2 & w2 & Hd' & Hkw2 & Hpx).
  { destruct (request_defaults self kw1 w1) as [o w2].
    destruct (opts !! "proxies") as [px|] eqn:Hpx.
    - injection Hd as -> ->. eexists _, _. split_and!; [done|done|].
      look. by rewrite Hkw1.
    - destruct (proxy_enable self).
      + destruct Hd as [_ Hd]. cbn in Hd. subst o.
        destruct (next_outcome Proxy w) as [proxies|e] eqn:Hout; [|done].
        rewrite (next_outcome_answer _ _ _ Hout).
        destruct (truthy proxies); [|done].
        eexists _, _. split_and!; [done| |].
        * intros k Hk. look. repeat case_decide; by look.
        * by look.
      + injection Hd as -> ->. eexists _, _. split_and!; [done|done|].
        look. by rewrite Hkw1. }
  rewrite Hd' in H. cbn [fst snd] in H.
  pose proof (request_cookies_spec (default VNone (kw2 !! "session"))
                headers ck (delete "session" kw2) w2) as (_ & _ & Hc).
  destruct (request_cookies _ _ _ _ _ w2) as [[kw3|e] w3]; [|done].
  cbn [fst snd] in *. destruct (Hc kw3 eq_refl) as (Hother & Hsome & Hgiven).
  injection H as <- <- <- <- <-.
  assert (forall k, k ≠ "method" -> k ≠ "url" -> k ≠ "cookies" ->
            k ≠ "session" -> k ≠ "proxies" ->
            delete "method" (delete "url" kw3) !! k =
              setdefault "timeout" (timeout self)
                (setdefault "stream" (VBool (stream self))
                   (setdefault "verify" (VBool false) kw1)) !! k) as Hk.
  { intros k ? ? ? ? ?. rewrite !lookup_delete_ne by done.
    rewrite Hother by done. rewrite lookup_delete_ne by done.
    by apply Hkw2. }
  split_and!.
  - rewrite Hkw2 by done. unfold kw1. by look.
  - rewrite Hk by done. unfold kw1. by look.
  - rewrite Hk by done. unfold kw1. by look.
  - rewrite Hk by done. unfold kw1. by look.
  - look. rewrite Hother by done. by look.
  - intros v Hv. look. apply Hgiven. look. rewrite Hkw2 by done.
    unfold kw1. by look.
  - by look.
  - exists headers. split.
    + rewrite Hk by done. unfold kw1. by look.
    + intros hd Hhd. unfold hv in Hh. rewrite Hhd in Hh. cbn in Hh.
      by eapply request_headers_dict.
  - intros k Hk'.
    assert (forall x,
              x ∈ ["headers"; "verify"; "proxies"; "stream"; "timeout";
                   "session"; "cookies"; "url"; "method"] -> x ≠ k) as Hne
      by (intros x Hx ->; by apply Hk').
    pose proof (Hne "headers" ltac:(repeat constructor)).
    pose proof (Hne "verify" ltac:(repeat constructor)).
    pose proof (Hne "proxies" ltac:(repeat constructor)).
    pose proof (Hne "stream" ltac:(repeat constructor)).
    pose proof (Hne "timeout" ltac:(repeat constructor)).
    pose proof (Hne "session" ltac:(repeat constructor)).
    pose proof (Hne "cookies" ltac:(repeat constructor)).
    pose proof (Hne "url" ltac:(repeat constructor)).
    pose proof (Hne "method" ltac:(repeat constructor)).
    rewrite Hk by done. unfold kw1. by look.
  - assert (forall k, k ≠ "method" -> k ≠ "url" -> k ≠ "cookies" ->
              k ≠ "session" -> k ≠ "proxies" -> k ≠ "headers" ->
              k ≠ "verify" -> k ≠ "stream" -> k ≠ "timeout" ->
              kw3 !! k = opts !! k) as Hdata.
    { intros k ? ? ? ? ? ? ? ? ?. specialize (Hk k). look.
      rewrite lookup_delete_ne, lookup_delete_ne in Hk by done.
      rewrite Hk by done. unfold kw1. by look. }
    rewrite !Hdata by done.
    destruct (eq_str _ _); [|left; by rewrite andb_false_r].
    rewrite andb_true_r.
    destruct (bool_decide (is_Some (opts !! "data"))) eqn:H1;
      [right; apply bool_decide_eq_true in H1; by eauto|].
    destruct (bool_decide (is_Some (opts !! "json"))) eqn:H2;
      [right; apply bool_decide_eq_true in H2; by eauto|].
    by left.
Qed.

(** C10.  [kwargs.update(request)] merges the request dictionary over
    the keyword arguments.  A field of the dictionary wins over the
    keyword argument of the same name, and a keyword argument whose name
    the dictionary lacks stays: the options are the keyword arguments
    under every name the dictionary lacks, and the same whatever the
    keywords say under the names the dictionary has.  The method, the
    timeout, the cookies and the headers that [prepare_request] returns
    are those of the dictionary where it has them and those of the
    keyword arguments where it lacks them, and every other option is
    returned from the dictionary, or from the keyword arguments when the
    dictionary lacks it. *)
Theorem record_fields_override_keywords d kwargs w :
  (forall k v,
     d !! k = Some v -> options (Structured d) kwargs !! k = Some v) /\
  (forall k,
     d !! k = None -> options (Structured d) kwargs !! k = kwargs !! k) /\
  (forall kwargs',
     (forall k, d !! k = None -> kwargs' !! k = kwargs !! k) ->
     prepare_request util_format_headers self (Structured d) kwargs' w
     = prepare_request util_format_headers self (Structured d) kwargs w) /\
  (forall s m u kw' w',
     prepare_request util_format_headers self (Structured d) kwargs w
     = (Ok (s, m, u, kw'), w') ->
     (forall v, d !! "timeout" = Some v -> kw' !! "timeout" = Some v) /\
     (forall v, d !! "cookies" = Some v -> kw' !! "cookies" = Some v) /\
     (forall v, d !! "method" = Some v ->
        m = v \/ m = VStr "POST" /\ eq_str v "GET" = true) /\
     (forall hd, d !! "headers" = Some (VDict hd) ->
        exists base,
          kw' !! "headers" =
            Some (VDict (if format_headers self
                         then util_format_headers (hd ∪ base)
                         else hd ∪ base))) /\
     (forall v, d !! "timeout" = None -> kwargs !! "timeout" = Some v ->
        kw' !! "timeout" = Some v) /\
     (forall v, d !! "cookies" = None -> kwargs !! "cookies" = Some v ->
        kw' !! "cookies" = Some v) /\
     (forall v, d !! "method" = None -> kwargs !! "method" = Some v ->
        m = v \/ m = VStr "POST" /\ eq_str v "GET" = true) /\
     (forall hd, d !! "headers" = None -> kwargs !! "headers" = Some (VDict hd) ->
        exists base,
          kw' !! "headers" =
            Some (VDict (if format_headers self
                         then util_format_headers (hd ∪ base)
                         else hd ∪ base))) /\
     (forall k,
        k ∉ ["headers"; "verify"; "proxies"; "stream"; "timeout"; "session";
             "cookies"; "url"; "method"] ->
        kw' !! k = match d !! k with Some v => Some v | None => kwargs !! k end)).
Proof.
  assert (forall k v,
            d !! k = Some v -> options (Structured d) kwargs !! k = Some v)
    as Hopt.
  { intros k v Hk. cbn. by apply lookup_union_Some_l. }
  assert (forall k,
            d !! k = None -> options (Structured d) kwargs !! k = kwargs !! k)
    as Hkept.
  { intros k Hk. cbn. by apply lookup_union_r. }
  split; [done|]. split; [done|]. split.
  - intros kwargs' Hsame. unfold prepare_request.
    replace (options (Structured d) kwargs')
      with (options (Structured d) kwargs); [done|].
    cbn. apply map_eq. intros k. rewrite !lookup_union.
    destruct (d !! k) eqn:Hk.
    + by destruct (kwargs !! k), (kwargs' !! k).
    + by rewrite Hsame.
  - intros s m u kw' w' H.
    apply prepare_request_ok in H
      as (_ & _ & _ & Ht & _ & Hc & _ & (h & Hh & Hhd) & Hrest & Hm).
    assert (forall v, options (Structured d) kwargs !! "method" = Some v ->
              m = v \/ m = VStr "POST" /\ eq_str v "GET" = true) as Hmeth.
    { intros v Hv. rewrite Hv in Hm. cbn in Hm.
      destruct Hm as [->|(-> & Hg & _)]; [by left | by right]. }
    assert (forall hd, options (Structured d) kwargs !! "headers"
                       = Some (VDict hd) ->
              exists base,
                kw' !! "headers" =
                  Some (VDict (if format_headers self
                               then util_format_headers (hd ∪ base)
                               else hd ∪ base))) as Hhead.
    { intros hd Hv. destruct (Hhd hd Hv) as [base ->]. by exists base. }
    split; [|split; [|split; [|split; [|split; [|split; [|split; [|split]]]]]]].
    + intros v Hv. by rewrite Ht, (Hopt _ _ Hv).
    + intros v Hv. apply Hc. by apply Hopt.
    + intros v Hv. apply Hmeth. by apply Hopt.
    + intros hd Hv. apply Hhead. by apply Hopt.
    + intros v Hd Hv. by rewrite Ht, (Hkept _ Hd), Hv.
    + intros v Hd Hv. apply Hc. by rewrite (Hkept _ Hd).
    + intros v Hd Hv. apply Hmeth. by rewrite (Hkept _ Hd).
    + intros hd Hd Hv. apply Hhead. by rewrite (Hkept _ Hd).
    + intros k Hk. rewrite (Hrest k Hk).
      destruct (d !! k) as [v|] eqn:Hd; [by apply Hopt | by apply Hkept].
Qed.

(** ** Downloader._download_by_httpx *)

(** The client [_download_by_httpx] creates, if any, and the client it
    executes the request on. *)
Lemma transport_clients method url session kwargs w stream verify :
  kwargs !! "stream" = Some stream ->
  kwargs !! "verify" = Some verify ->
  exists evs,
    trace (_download_by_httpx self method url session kwargs w).2
    = trace w ++ evs /\
    (created evs, executed_on evs) =
      chosen self session (default VNone (kwargs !! "proxies")) verify
        (default VNone (kwargs !! "cert")).
Proof.
  intros Hs Hv. unfold chosen.
  set (proxies := default VNone (kwargs !! "proxies")).
  set (cert := default VNone (kwargs !! "cert")).
  unfold _download_by_httpx. rewrite Hs. cbn [pop].
  rewrite !lookup_delete_ne by done. rewrite Hv. fold proxies cert.
  assert (forall c st m u kw w0,
            trace (exchange c st m u kw w0).2
            = trace w0 ++ [Exchange c st m u kw]) as Hex.
  { intros. unfold exchange. cbn. by destruct (network w0). }
  destruct (truthy proxies || negb (is_None verify) || negb (is_None cert)).
  - unfold bind, make_httpx_client.
    destruct proxies; cbn [fst snd raise ret];
      try (exists []; by rewrite app_nil_r).
    all: destruct (truthy stream); cbn [negb]; rewrite Hex;
      cbn [emit trace].
    all: eexists [_; _]; (split; [by rewrite <- app_assoc | done]).
  - unfold bind.
    destruct session; cbn [fst snd raise ret];
      try (exists []; by rewrite app_nil_r).
    all: destruct (truthy stream); cbn [negb]; rewrite Hex.
    all: eexists [_]; (split; [reflexivity | done]).
Qed.

Lemma request_defaults_quiet kwargs w :
  exists evs,
    trace (request_defaults self kwargs w).2 = trace w ++ evs /\
    created evs = [] /\ executed_on evs = [].
Proof.
  unfold request_defaults. cbv zeta.
  destruct (_ !! "proxies"); [exists []; by rewrite app_nil_r|].
  destruct (proxy_enable self); [|exists []; by rewrite app_nil_r].
  exists [PoolGet Proxy]. unfold bind, pool_get. cbn.
  destruct (pools w Proxy) as [|[v|e own] rest]; cbn.
  - done.
  - by destruct (truthy v).
  - done.
Qed.

(** [prepare_request] neither creates a client nor executes a
    request. *)
Lemma prepare_request_quiet request kwargs w :
  exists evs,
    trace (prepare_request util_format_headers self request kwargs w).2
    = trace w ++ evs /\
    created evs = [] /\ executed_on evs = [].
Proof.
  rewrite prepare_request_stages. cbv zeta.
  set (hv := default (VDict ∅) (_ !! "headers")).
  destruct (aside_request_headers hv w) as (evs1 & _ & Ht & _ & Hc & Hx & _).
  destruct (request_headers util_format_headers self hv w)
    as [[[headers ck]|e] w1]; cbn [fst snd] in *; [|by exists evs1].
  set (kw1 := <["headers" := VDict headers]> _).
  destruct (request_defaults_quiet kw1 w1) as (evs2 & Ht2 & Hc2 & Hx2).
  assert (exists evs, trace (request_defaults self kw1 w1).2 = trace w ++ evs
                      /\ created evs = [] /\ executed_on evs = [])
    as (evs & Hevs).
  { exists (evs1 ++ evs2). rewrite Ht2, Ht, app_assoc.
    unfold created, executed_on in *.
    by rewrite !omap_app, Hc, Hc2, Hx, Hx2. }
  destruct (request_defaults self kw1 w1) as [[kw2|e] w2];
    cbn [fst snd] in *; [|by exists evs].
  pose proof (request_cookies_spec (default VNone (kw2 !! "session"))
                headers ck (delete "session" kw2) w2) as (Hw & _).
  destruct (request_cookies _ _ _ _ _ w2) as [[kw3|e] w3];
    cbn [fst snd] in *; subst w3; by exists evs.
Qed.

(** The clients of one dispatch are those its transport chooses for
    what [prepare_request] returns. *)
Lemma download_body_clients request kwargs w :
  let r := _download_body util_format_headers self request kwargs w in
  match prepare_request util_format_headers self request kwargs w with
  | (Raise _, _) =>
      created (news w r.2) = [] /\ executed_on (news w r.2) = []
  | (Ok (s, m, u, kw), _) =>
      forall stream verify,
        kw !! "stream" = Some stream -> kw !! "verify" = Some verify ->
        (created (news w r.2), executed_on (news w r.2)) =
          chosen self s (default VNone (kw !! "proxies")) verify
            (default VNone (kw !! "cert"))
  end.
Proof.
  cbv zeta. unfold _download_body.
  destruct (prepare_request_quiet request kwargs w) as (evs & Ht & Hc & Hx).
  destruct (prepare_request util_format_headers self request kwargs w)
    as [[[[[s m] u] kw]|e] w1] eqn:Hpr; cbn [fst snd] in *.
  2: { rewrite (bind_fail _ _ _ _ _ Hpr). cbn [snd].
       by rewrite (news_app _ _ _ Ht). }
  intros stream verify Hs Hv.
  rewrite (bind_run _ _ _ _ _ Hpr).
  assert (exists t w1', time w1 = (Ok t, w1') /\ trace w1' = trace w1)
    as (t & w1' & Hti & Ht1).
  { unfold time. destruct (clock w1); eauto. }
  rewrite (bind_run _ _ _ _ _ Hti).
  destruct (transport_clients m u s kw w1' stream verify Hs Hv)
    as (evs2 & Ht2 & <-).
  assert (forall (k : Response -> M Response),
            (forall a w0, trace (k a w0).2 = trace w0) ->
            trace (bind (_download_by_httpx self m u s kw) k w1').2
            = trace w ++ evs ++ evs2) as Hfin.
  { intros k Hk. unfold bind.
    destruct (_download_by_httpx self m u s kw w1') as [[resp|e'] w2];
      cbn [fst snd] in *.
    - by rewrite Hk, Ht2, Ht1, Ht, app_assoc.
    - by rewrite Ht2, Ht1, Ht, app_assoc. }
  rewrite (news_app _ _ (evs ++ evs2)).
  - unfold created, executed_on in *.
    by rewrite !omap_app, Hc, Hx.
  - apply Hfin. intros resp w0. unfold bind, time.
    destruct (clock w0); cbn [fst snd];
      destruct (kw !! "headers") as [[]|]; cbn;
      try done;
      destruct (kw !! "cookies") as [[]|]; cbn; done.
Qed.

(** C6, as far as it holds.  [_download_by_httpx] creates a client of
    its own exactly when [proxies] is truthy, [verify] is not [None] or
    [cert] is not [None] (and [proxies] is [None] or a dictionary), and
    executes the request on it; otherwise it creates none and executes
    the request on the session of the call or, without one, on the
    shared session (on the module [httpx] when [use_session] is off).
    A dispatch whose call gives no [verify] gets [verify = False] from
    [prepare_request] and is executed on a client of its own; a dispatch
    whose call gives [verify = None], no truthy [proxies], no [cert]
    and no session is executed on the shared session. *)
Theorem fresh_client_exactly_when_proxies_verify_cert :
  (forall method url session kwargs w stream verify,
     kwargs !! "stream" = Some stream ->
     kwargs !! "verify" = Some verify ->
     let proxies := default VNone (kwargs !! "proxies") in
     let cert := default VNone (kwargs !! "cert") in
     let evs :=
       news w (_download_by_httpx self method url session kwargs w).2 in
     (created evs, executed_on evs) = chosen self session proxies verify cert
     /\
     (created evs ≠ [] <->
      truthy proxies || negb (is_None verify) || negb (is_None cert) = true
      /\ (proxies = VNone \/ exists d, proxies = VDict d))) /\
  (forall request kwargs w,
     let opts := options request kwargs in
     let evs :=
       news w (_download_body util_format_headers self request kwargs w).2 in
     (opts !! "verify" = None ->
      forall c, c ∈ executed_on evs ->
        exists proxies cert, c = Fresh proxies (VBool false) cert (http2 self))
     /\
     (opts !! "verify" = Some VNone ->
      (opts !! "proxies" = None /\ proxy_enable self = false \/
       exists v, opts !! "proxies" = Some v /\ truthy v = false) ->
      default VNone (opts !! "cert") = VNone ->
      default VNone (opts !! "session") = VNone ->
      created evs = [] /\
      forall c, c ∈ executed_on evs ->
        c = if use_session self then SharedSession else HttpxModule)).
Proof.
  split.
  - intros method url session kwargs w stream verify Hs Hv proxies cert evs.
    destruct (transport_clients method url session kwargs w stream verify
                Hs Hv) as (evs' & Ht & Hch).
    subst evs. rewrite (news_app _ _ _ Ht). fold proxies cert in Hch.
    split; [done|].
    pose proof (f_equal fst Hch) as Hc. cbn [fst] in Hc. rewrite Hc.
    unfold chosen.
    destruct (truthy proxies || negb (is_None verify) || negb (is_None cert)).
    + destruct proxies; cbn; split; try done; try (intros [_ [|[]]]; done).
      * intros _. split; [done|]. by left.
      * intros _. split; [done|]. right. by eexists.
    + cbn. split; [done|]. by intros [? _].
  - intros request kwargs w opts evs. subst evs.
    pose proof (download_body_clients request kwargs w) as Hb.
    cbv zeta in Hb.
    destruct (prepare_request util_format_headers self request kwargs w)
      as [[[[[s m] u] kw]|e] w1] eqn:Hpr.
    2: { destruct Hb as [-> ->]. split; [intros _ c Hc|intros _ _ _ _].
         - by apply elem_of_nil in Hc.
         - split; [done|]. intros c Hc. by apply elem_of_nil in Hc. }
    apply prepare_request_ok in Hpr
      as (Hsess & Hver & Hstr & _ & Hprox & _ & _ & _ & Hrest & _).
    fold opts in Hsess, Hver, Hstr, Hprox, Hrest.
    specialize (Hb _ _ Hstr Hver).
    pose proof (f_equal fst Hb) as Hc. pose proof (f_equal snd Hb) as Hx.
    cbn [fst snd] in Hc, Hx. rewrite Hc, Hx. clear Hb Hc Hx.
    assert (kw !! "cert" = opts !! "cert") as Hcert.
    { apply Hrest. intros H.
      repeat (apply elem_of_cons in H as [H|H]; [discriminate|]).
      by apply elem_of_nil in H. }
    split.
    + intros Hnone c. rewrite Hnone. unfold chosen. cbn.
      rewrite orb_true_r. cbn.
      destruct (default VNone (kw !! "proxies")); cbn;
        rewrite ?elem_of_nil, ?list_elem_of_singleton;
        try done; intros ->; eauto.
    + intros Hnone Hpx Hce Hse. rewrite Hnone, Hcert, Hce, Hsess, Hse.
      unfold chosen.
      assert (truthy (default VNone (kw !! "proxies")) = false) as ->.
      { rewrite Hprox.
        destruct Hpx as [[-> ->]|(v & -> & Hv)]; [done|by cbn]. }
      cbn. split; [done|]. intros c. by rewrite list_elem_of_singleton.
Qed.
End PipelineFacts.

Section PipelineExamples.
Import Py Downloader.

Lemma no_valid_proxy_exactly_when_witness :
  (proxy_enable (plain true) = true /\
   options (Url "http://a.com/x") ∅ !! "proxies" = None /\
   PoolGet Proxy
   ∈ news quiet
       (prepare_request id (plain true) (Url "http://a.com/x") ∅ quiet).2 /\
   next_outcome Proxy quiet = Ok (next_answer Proxy quiet) /\
   truthy (next_answer Proxy quiet) = false) /\
  (prepare_request id (plain true) (Url "http://a.com/x") ∅ quiet).1
  = Raise (Exception "no valid proxy") /\
  ((forall msg,
      (prepare_request id (plain true) (Url "http://a.com/x")
         {[ "proxies" := VDict {[ "http" := VStr "http://10.0.0.1:80" ]} ]}
         quiet).1 ≠ Raise (Exception msg)) /\
   (PoolGet Proxy ∉
      news quiet
        (prepare_request id (plain true) (Url "http://a.com/x")
           {[ "proxies" := VDict {[ "http" := VStr "http://10.0.0.1:80" ]} ]}
           quiet).2) /\
   pools (prepare_request id (plain true) (Url "http://a.com/x")
            {[ "proxies" := VDict {[ "http" := VStr "http://10.0.0.1:80" ]} ]}
            quiet).2 Proxy
   = pools quiet Proxy).
Proof.
  pose proof (no_valid_proxy_exactly_when id (plain true)
                (Url "http://a.com/x") ∅ quiet) as (H1 & H2 & H3 & _).
  pose proof (no_valid_proxy_exactly_when id (plain true)
                (Url "http://a.com/x")
                {[ "proxies" := VDict {[ "http" := VStr "http://10.0.0.1:80" ]} ]}
                quiet) as (_ & _ & _ & H4).
  cbv zeta in H1, H2, H3, H4.
  assert (PoolGet Proxy
          ∈ news quiet
              (prepare_request id (plain true) (Url "http://a.com/x") ∅
                 quiet).2) as Hasked.
  { apply H3. split; [reflexivity|]. split; [reflexivity|].
    vm_compute. reflexivity. }
  split; [|split].
  - apply H1. vm_compute. reflexivity.
  - apply (H2 eq_refl eq_refl Hasked VNone); reflexivity.
  - apply H4. eexists. reflexivity.
Defined.

Lemma record_fields_override_keywords_witness :
  options (Structured {[ "url" := VStr "http://a.com/x";
                         "timeout" := VInt 5 ]})
    {[ "timeout" := VInt 60 ]} !! "timeout" = Some (VInt 5) /\
  options (Structured {[ "url" := VStr "http://a.com/x";
                         "timeout" := VInt 5 ]})
    {[ "params" := VStr "q=1" ]} !! "params" = Some (VStr "q=1") /\
  prepare_request id (plain false)
    (Structured {[ "url" := VStr "http://a.com/x"; "timeout" := VInt 5 ]})
    ∅ quiet
  = prepare_request id (plain false)
      (Structured {[ "url" := VStr "http://a.com/x"; "timeout" := VInt 5 ]})
      {[ "timeout" := VInt 60 ]} quiet /\
  match (prepare_request id (plain false)
           (Structured {[ "url" := VStr "http://a.com/x";
                          "timeout" := VInt 5 ]})
           {[ "timeout" := VInt 60 ]} quiet).1 with
  | Ok (_, _, _, kw') => kw' !! "timeout" = Some (VInt 5)
  | Raise _ => False
  end /\
  match (prepare_request id (plain false)
           (Structured {[ "url" := VStr "http://a.com/x" ]})
           {[ "timeout" := VInt 60 ]} quiet).1 with
  | Ok (_, _, _, kw') => kw' !! "timeout" = Some (VInt 60)
  | Raise _ => False
  end.
Proof.
  pose proof (record_fields_override_keywords id (plain false)
                {[ "url" := VStr "http://a.com/x"; "timeout" := VInt 5 ]}
                {[ "timeout" := VInt 60 ]} quiet) as (H1 & _ & H2 & H3).
  pose proof (record_fields_override_keywords id (plain false)
                {[ "url" := VStr "http://a.com/x"; "timeout" := VInt 5 ]}
                {[ "params" := VStr "q=1" ]} quiet) as (_ & H4 & _).
  pose proof (record_fields_override_keywords id (plain false)
                {[ "url" := VStr "http://a.com/x" ]}
                {[ "timeout" := VInt 60 ]} quiet) as (_ & _ & _ & H5).
  split; [|split; [|split; [|split]]].
  - apply H1. reflexivity.
  - rewrite H4; reflexivity.
  - apply H2. intros k Hk.
    destruct (decide (k = "timeout")) as [->|Hne].
    + vm_compute in Hk. discriminate.
    + by rewrite lookup_empty, lookup_singleton_ne.
  - destruct (prepare_request id (plain false)
                (Structured {[ "url" := VStr "http://a.com/x";
                               "timeout" := VInt 5 ]})
                {[ "timeout" := VInt 60 ]} quiet)
      as [[[[[s m] u] kw']|e] w'] eqn:H.
    + destruct (H3 s m u kw' w' eq_refl) as (Ht & _).
      apply Ht. reflexivity.
    + vm_compute in H. discriminate.
  - destruct (prepare_request id (plain false)
                (Structured {[ "url" := VStr "http://a.com/x" ]})
                {[ "timeout" := VInt 60 ]} quiet)
      as [[[[[s m] u] kw']|e] w'] eqn:H.
    + destruct (H5 s m u kw' w' eq_refl) as (_ & _ & _ & _ & Ht & _).
      apply Ht; reflexivity.
    + vm_compute in H. discriminate.
Defined.

Lemma fresh_client_exactly_when_proxies_verify_cert_witness :
  (created
     (news online
        (_download_by_httpx (plain false) (VStr "GET")
           (VStr "http://a.com/x") VNone
           {[ "stream" := VBool false; "verify" := VBool false ]} online).2),
   executed_on
     (news online
        (_download_by_httpx (plain false) (VStr "GET")
           (VStr "http://a.com/x") VNone
           {[ "stream" := VBool false; "verify" := VBool false ]} online).2))
  = chosen (plain false) VNone VNone (VBool false) VNone /\
  (exists proxies cert,
     Fresh VNone (VBool false) VNone false
     = Fresh proxies (VBool false) cert (http2 (plain false))) /\
  (created
     (news online
        (_download_body id (plain false) (Url "http://a.com/x")
           {[ "verify" := VNone ]} online).2) = [] /\
   forall c,
     c ∈ executed_on
           (news online
              (_download_body id (plain false) (Url "http://a.com/x")
                 {[ "verify" := VNone ]} online).2) ->
     c = if use_session (plain false) then SharedSession else HttpxModule).
Proof.
  pose proof (fresh_client_exactly_when_proxies_verify_cert id (plain false))
    as [Ht Hd].
  pose proof (Ht (VStr "GET") (VStr "http://a.com/x") VNone
                {[ "stream" := VBool false; "verify" := VBool false ]} online
                (VBool false) (VBool false) eq_refl eq_refl) as [Ht1 _].
  pose proof (Hd (Url "http://a.com/x") ∅ online) as [Hd1 _].
  pose proof (Hd (Url "http://a.com/x") {[ "verify" := VNone ]} online)
    as [_ Hd2].
  cbv zeta in Ht1, Hd1, Hd2.
  split; [|split].
  - exact Ht1.
  - apply Hd1; [reflexivity|]. vm_compute. apply list_elem_of_here.
  - apply Hd2; [reflexivity | left; split; reflexivity
               | reflexivity | reflexivity].
Defined.

(** C6 fails for a call of [download] that gives none of [proxies],
    [verify] and [cert], on a downloader without proxies: the request is
    executed on a client made for the call, with [verify = False], not
    on the shared session. *)
Lemma download_without_verify_leaves_shared_session :
  executed_on
    (trace (run_download id (plain false) 0 (Url "http://a.com/x") ∅
              online).2)
  = [Fresh VNone (VBool false) VNone false] /\
  SharedSession ∉
    executed_on
      (trace (run_download id (plain false) 0 (Url "http://a.com/x") ∅
                online).2).
Proof.
  split.
  - vm_compute. reflexivity.
  - vm_compute. intros H. apply list_elem_of_singleton in H. discriminate.
Qed.
End PipelineExamples.

(** ** LimitRedisCookiePool *)

Section LimitRedisFacts.
Import LimitRedisCookiePool.

Lemma elem_of_zrangebyscore key max r m :
  m ∈ zrangebyscore key max r <->
  exists s, zset key r !! m = Some s /\ (s <= max)%Q.
Proof.
  unfold zrangebyscore. rewrite list_elem_of_fmap. split.
  - intros ([m' s] & -> & H). rewrite merge_sort_Permutation in H.
    apply list_elem_of_filter in H as [Hs H]. cbn in *.
    apply elem_of_map_to_list in H. exists s. split; [done|].
    apply Qle_bool_iff. by apply Is_true_true.
  - intros (s & Hm & Hs). exists (m, s). split; [done|].
    rewrite merge_sort_Permutation. apply list_elem_of_filter. split.
    + cbn. apply Is_true_true. by apply Qle_bool_iff.
    + by apply elem_of_map_to_list.
Qed.

Lemma NoDup_zrangebyscore key max r : NoDup (zrangebyscore key max r).
Proof.
  unfold zrangebyscore. rewrite merge_sort_Permutation.
  apply (sublist_NoDup _ ((map_to_list (zset key r)).*1)).
  - apply NoDup_fst_map_to_list.
  - apply fmap_sublist, sublist_filter.
Qed.

Lemma random_choice_elem draw x l : random_choice draw x l ∈ x :: l.
Proof.
  unfold random_choice. apply list_elem_of_In, nth_In.
  apply Nat.mod_upper_bound. done.
Qed.

(** Each cookie of a list without repetition is chosen by exactly one of
    the draws below the length of the list. *)
Lemma random_choice_one_draw x l c :
  NoDup (x :: l) -> c ∈ x :: l ->
  exists draw,
    (draw < length (x :: l))%nat /\ random_choice draw x l = c /\
    forall draw',
      (draw' < length (x :: l))%nat -> random_choice draw' x l = c ->
      draw' = draw.
Proof.
  intros Hnd Hc. apply list_elem_of_lookup in Hc as [d Hd].
  pose proof (lookup_lt_Some _ _ _ Hd) as Hlt.
  assert (forall d', (d' < length (x :: l))%nat ->
                     (x :: l) !! d' = Some (random_choice d' x l)) as Hnth.
  { intros d' Hd'. unfold random_choice.
    rewrite Nat.mod_small by done. apply nth_lookup_Some with (d := x) in Hd.
    destruct (lookup_lt_is_Some_2 (x :: l) d' Hd') as [y Hy].
    rewrite Hy. f_equal. symmetry. by apply nth_lookup_Some. }
  exists d. split_and!; [done| |].
  - specialize (Hnth d Hlt). congruence.
  - intros d' Hd' Hc'. specialize (Hnth d' Hd'). rewrite Hc' in Hnth.
    by eapply NoDup_lookup.
Qed.

(** What the loop of [get] does, by the turn at which it first finds the
    server holding a cookie old enough. *)
Lemma get_loop_spec p _limit env n i w :
  (exists k x l,
     (k < n)%nat /\
     (forall j, (j < k)%nat ->
        candidates p _limit env i (now w) (redis_conn w) j = []) /\
     candidates p _limit env i (now w) (redis_conn w) k = x :: l /\
     get_loop p _limit env n i w =
       (Some (random_choice (pick (env (i + k)%nat)) x l),
        mkWorld (attempt_time env i (now w) k + lag (env (i + k)%nat))%Q
          (zadd (cookie_key p) (random_choice (pick (env (i + k)%nat)) x l)
             (attempt_time env i (now w) k + lag (env (i + k)%nat))%Q
             (redis_conn w)))) \/
  ((forall j, (j < n)%nat ->
      candidates p _limit env i (now w) (redis_conn w) j = []) /\
   get_loop p _limit env n i w =
     (None, mkWorld (attempt_time env i (now w) n) (redis_conn w))).
Proof.
  revert i w. induction n as [|n IH]; intros i w.
  { right. split; [lia|]. by destruct w. }
  cbn [get_loop].
  destruct (zrangebyscore (cookie_key p) (now w - inject_Z _limit)
              (redis_conn w)) as [|x l] eqn:Hc.
  - destruct (IH (S i) (elapse (1 + over (env i)) w))
      as [(k & x & l & Hk & Hbefore & Hat & Hget)|[Hall Hget]].
    + left. exists (S k), x, l. split_and!.
      * lia.
      * intros [|j] Hj; [done|]. apply Hbefore. lia.
      * done.
      * rewrite Hget. by replace (S i + k)%nat with (i + S k)%nat by lia.
    + right. split; [|done]. intros [|j] Hj; [done|]. apply Hall. lia.
  - left. exists 0%nat, x, l. split_and!; [lia|lia|done|].
    by rewrite Nat.add_0_r.
Qed.

Lemma attempt_time_ge env i t k :
  steady env -> (t + inject_Z (Z.of_nat k) <= attempt_time env i t k)%Q.
Proof.
  intros Hs. revert i t. induction k as [|k IH]; intros i t.
  - change (t + 0 <= t)%Q. lra.
  - cbn [attempt_time]. specialize (IH (S i) (t + (1 + over (env i)))%Q).
    destruct (Hs i) as [_ Ho].
    rewrite Nat2Z.inj_succ. unfold Z.succ. rewrite inject_Z_plus.
    change (inject_Z 1) with 1%Q. lra.
Qed.

Lemma attempt_time_succ env i t k :
  attempt_time env i t (S k)
  = (attempt_time env i t k + (1 + over (env (i + k)%nat)))%Q.
Proof.
  revert i t. induction k as [|k IH]; intros i t.
  - cbn. by rewrite Nat.add_0_r.
  - change (attempt_time env i t (S (S k)))
      with (attempt_time env (S i) (t + (1 + over (env i)))%Q (S k)).
    rewrite IH. cbn [attempt_time].
    by replace (S i + k)%nat with (i + S k)%nat by lia.
Qed.

Lemma zset_zadd key member score r :
  zset key (zadd key member score r) = <[member := score]> (zset key r).
Proof. unfold zset at 1, zadd. by rewrite lookup_insert_eq. Qed.

(** C3.  [get] forms its effective limit once, the limit plus the one
    draw of the jitter (the limit itself when [with_random] is zero), and
    makes at most [retry] turns.  Each turn asks for the members scored at
    most the time of the turn minus the effective limit; when there is
    none the pool sleeps a second (or longer) and goes on, and [get]
    returns [None] after [retry] turns; when there are some, one of them
    is chosen, each by exactly one draw, it is scored anew with the time
    read then, and returned: its score in the set is that time when
    [get] ends, and the score of every other member is as it was. *)
Theorem get_retries_until_a_cookie_is_due p retry jitter env w :
  let _limit := effective_limit p jitter in
  let n := Z.to_nat retry in
  let found := candidates p _limit env 0 (now w) (redis_conn w) in
  (_limit = if with_random p =? 0 then limit p else limit p + jitter) /\
  (- with_random p <= jitter <= with_random p ->
   limit p - with_random p <= _limit <= limit p + with_random p) /\
  ((exists k x l,
      (k < n)%nat /\
      (forall j, (j < k)%nat -> found j = []) /\
      found k = x :: l /\
      let cookie := random_choice (pick (env k)) x l in
      let t := (attempt_time env 0 (now w) k + lag (env k))%Q in
      cookie ∈ found k /\
      get p retry jitter env w
      = (Some cookie, mkWorld t (zadd (cookie_key p) cookie t (redis_conn w)))
      /\
      now (get p retry jitter env w).2 = t /\
      zset (cookie_key p) (redis_conn (get p retry jitter env w).2) !! cookie
      = Some t /\
      forall m,
        m ≠ cookie ->
        zset (cookie_key p) (redis_conn (get p retry jitter env w).2) !! m
        = zset (cookie_key p) (redis_conn w) !! m)
   \/
   ((forall j, (j < n)%nat -> found j = []) /\
    get p retry jitter env w
    = (None, mkWorld (attempt_time env 0 (now w) n) (redis_conn w)))) /\
  (forall k m,
     m ∈ found k <->
     exists s, zset (cookie_key p) (redis_conn w) !! m = Some s /\
               (s <= attempt_time env 0 (now w) k - inject_Z _limit)%Q) /\
  (forall k,
     attempt_time env 0 (now w) (S k)
     = (attempt_time env 0 (now w) k + (1 + over (env k)))%Q) /\
  (forall k x l c,
     found k = x :: l -> c ∈ x :: l ->
     exists draw,
       (draw < length (x :: l))%nat /\ random_choice draw x l = c /\
       forall draw',
         (draw' < length (x :: l))%nat -> random_choice draw' x l = c ->
         draw' = draw).
Proof.
  intros _limit n found. split_and!.
  - done.
  - subst _limit. unfold effective_limit. intros H.
    destruct (Z.eqb_spec (with_random p) 0); lia.
  - destruct (get_loop_spec p _limit env n 0 w)
      as [(k & x & l & Hk & Hbefore & Hat & Hget)|[Hall Hget]].
    + left. exists k, x, l. split; [done|]. split; [done|]. split; [done|].
      subst found. cbv beta zeta. rewrite Hat.
      change (get p retry jitter env w) with (get_loop p _limit env n 0 w).
      rewrite Hget. cbn [snd now redis_conn].
      change (0 + k)%nat with k. rewrite zset_zadd.
      split_and!.
      * apply random_choice_elem.
      * done.
      * done.
      * apply lookup_insert_eq.
      * intros m Hm. by rewrite lookup_insert_ne.
    + by right.
  - intros k m. apply elem_of_zrangebyscore.
  - intros k. apply attempt_time_succ.
  - intros k x l c Hk Hc. apply random_choice_one_draw; [|done].
    rewrite <- Hk. apply NoDup_zrangebyscore.
Qed.

Lemma inject_Z_nonneg z : 0 <= z -> (0 <= inject_Z z)%Q.
Proof. intros H. unfold Qle. cbn. lia. Qed.

Lemma zset_zrem key member r :
  zset key (zrem key member r) = base.delete member (zset key r).
Proof. unfold zset at 1, zrem. by rewrite lookup_insert_eq. Qed.

Lemma zset_zadd_all key info r :
  zset key (zadd_all key info r) = info ∪ zset key r.
Proof. unfold zset at 1, zadd_all. by rewrite lookup_insert_eq. Qed.

(** A [get] that returns a cookie found it at some turn, old enough for
    the effective limit, and scored it with the time it ended at; a [get]
    leaves every other score alone, and ends no earlier than it began. *)
Lemma get_returns p retry jitter env w c w' :
  get p retry jitter env w = (Some c, w') ->
  exists k s,
    (k < Z.to_nat retry)%nat /\
    zset (cookie_key p) (redis_conn w) !! c = Some s /\
    (s <= attempt_time env 0 (now w) k
          - inject_Z (effective_limit p jitter))%Q /\
    now w' = (attempt_time env 0 (now w) k + lag (env k))%Q /\
    zset (cookie_key p) (redis_conn w')
    = <[c := now w']> (zset (cookie_key p) (redis_conn w)).
Proof.
  intros Hget. unfold get in Hget.
  destruct (get_loop_spec p (effective_limit p jitter) env
              (Z.to_nat retry) 0 w)
    as [(k & x & l & Hk & _ & Hat & Hget')|[_ Hget']];
    rewrite Hget' in Hget; [|discriminate].
  injection Hget as <- <-.
  pose proof (random_choice_elem (pick (env k)) x l) as Hin.
  rewrite <- Hat in Hin. apply elem_of_zrangebyscore in Hin as (s & Hs & Hle).
  exists k, s. cbn [now redis_conn]. split_and!; try done.
  by rewrite zset_zadd.
Qed.

Lemma get_step p retry jitter env w :
  steady env ->
  let r := get p retry jitter env w in
  (now w <= now r.2)%Q /\
  forall m,
    r.1 ≠ Some m ->
    zset (cookie_key p) (redis_conn r.2) !! m
    = zset (cookie_key p) (redis_conn w) !! m.
Proof.
  intros Hs r. subst r. unfold get.
  destruct (get_loop_spec p (effective_limit p jitter) env
              (Z.to_nat retry) 0 w)
    as [(k & x & l & Hk & _ & Hat & ->)|[_ ->]]; cbn [fst snd now redis_conn].
  - pose proof (attempt_time_ge env 0 (now w) k Hs) as Hge.
    destruct (Hs k) as [Hlag _].
    assert (0 <= inject_Z (Z.of_nat k))%Q as Hk0.
    { apply inject_Z_nonneg. lia. }
    change (0 + k)%nat with k.
    split; [lra|]. intros m Hm. rewrite zset_zadd.
    apply lookup_insert_ne. congruence.
  - pose proof (attempt_time_ge env 0 (now w) (Z.to_nat retry) Hs) as Hge.
    assert (0 <= inject_Z (Z.of_nat (Z.to_nat retry)))%Q as Hk0.
    { apply inject_Z_nonneg. lia. }
    split; [lra|done].
Qed.

(** The scores an [add] computes: every cookie of the call gets a score
    no less than the time of the call plus the delay. *)
Lemma scores_spec cookie delay drift k t info :
  (forall i, (0 <= drift i)%Q) ->
  let r := scores cookie delay drift k t info in
  (t <= r.1)%Q /\
  forall c,
    (c ∈ cookie -> exists s, r.2 !! c = Some s /\ (t + delay <= s)%Q) /\
    (c ∉ cookie -> r.2 !! c = info !! c).
Proof.
  intros Hd. revert k t info.
  induction cookie as [|c0 rest IH]; intros k t info; cbn.
  - split; [lra|]. intros c. split; [|done].
    intros H. by apply elem_of_nil in H.
  - destruct (IH (S k) (t + drift k)%Q (<[c0 := (t + delay)%Q]> info))
      as [Ht Hc].
    pose proof (Hd k) as Hdk. split; [lra|].
    intros c. destruct (Hc c) as [Hin Hout].
    split.
    + intros H. destruct (decide (c ∈ rest)) as [Hr|Hr].
      * destruct (Hin Hr) as (s & Hs & Hle). exists s. split; [done|lra].
      * apply elem_of_cons in H as [->|H]; [|done].
        rewrite (Hout Hr), lookup_insert_eq. eexists. split; [done|lra].
    + intros H. apply not_elem_of_cons in H as [Hne Hr].
      by rewrite (Hout Hr), lookup_insert_ne.
Qed.

(** The score of a cookie after an [add]. *)
Lemma add_score p cookie delay drift w c :
  (forall i, (0 <= drift i)%Q) ->
  let w' := add p cookie delay drift w in
  (now w <= now w')%Q /\
  (c ∈ cookies_of cookie ->
   exists s, zset (cookie_key p) (redis_conn w') !! c = Some s /\
             (now w + delay <= s)%Q) /\
  (c ∉ cookies_of cookie ->
   zset (cookie_key p) (redis_conn w') !! c
   = zset (cookie_key p) (redis_conn w) !! c).
Proof.
  intros Hd w'. subst w'. unfold add. cbn [now redis_conn].
  rewrite zset_zadd_all. fold (cookies_of cookie).
  destruct (scores_spec (cookies_of cookie) delay drift 0 (now w) ∅ Hd)
    as [Ht Hc].
  split; [done|]. destruct (Hc c) as [Hin Hout]. split.
  - intros H. destruct (Hin H) as (s & Hs & Hle). exists s.
    split; [|done]. by apply lookup_union_Some_l.
  - intros H. rewrite lookup_union_r; [done|]. by rewrite (Hout H).
Qed.

(** Gentle calls keep the clock and the score of [c] at or above [t]. *)
Lemma step_gentle p c t cl w :
  gentle c cl ->
  (t <= now w)%Q ->
  (forall s, zset (cookie_key p) (redis_conn w) !! c = Some s -> (t <= s)%Q) ->
  (t <= now (step p w cl))%Q /\
  (forall s, zset (cookie_key p) (redis_conn (step p w cl)) !! c = Some s ->
             (t <= s)%Q).
Proof.
  intros Hg Hnow Hscore. destruct cl as [retry jitter env|cookie delay drift|c'|d];
    cbn [step gentle] in *.
  - pose proof (get_step p retry jitter env w Hg) as [Hle Hsame].
    destruct (get p retry jitter env w) as [[m|] w'] eqn:Hget;
      cbn [fst snd] in *.
    + split; [lra|]. intros s Hs. destruct (decide (m = c)) as [->|Hne].
      * apply get_returns in Hget as (_ & _ & _ & _ & _ & _ & Hz).
        rewrite Hz, lookup_insert_eq in Hs. injection Hs as <-. lra.
      * rewrite Hsame in Hs by congruence. by apply Hscore.
    + split; [lra|]. intros s Hs. rewrite Hsame in Hs by done.
      by apply Hscore.
  - destruct Hg as [Hd Hdelay].
    destruct (add_score p cookie delay drift w c Hd) as (Hle & Hin & Hout).
    split; [lra|]. intros s Hs.
    destruct (decide (c ∈ cookies_of cookie)) as [Hc|Hc].
    + destruct (Hin Hc) as (s' & Hs' & Hle'). specialize (Hdelay Hc).
      rewrite Hs' in Hs. injection Hs as <-. lra.
    + rewrite (Hout Hc) in Hs. by apply Hscore.
  - split; [done|]. intros s Hs. unfold delete in Hs. cbn in Hs.
    rewrite zset_zrem in Hs. apply lookup_delete_Some in Hs as [_ Hs].
    by apply Hscore.
  - cbn. split; [lra|done].
Qed.

Lemma run_gentle p c t cs w :
  Forall (gentle c) cs ->
  (t <= now w)%Q ->
  (forall s, zset (cookie_key p) (redis_conn w) !! c = Some s -> (t <= s)%Q) ->
  (t <= now (run p cs w))%Q /\
  (forall s, zset (cookie_key p) (redis_conn (run p cs w)) !! c = Some s ->
             (t <= s)%Q).
Proof.
  intros Hcs. revert w. induction Hcs as [|cl cs Hcl _ IH]; intros w Hn Hs.
  - done.
  - cbn. destruct (step_gentle p c t cl w Hcl Hn Hs) as [Hn' Hs'].
    by apply IH.
Qed.

(** C1, as far as it holds.  Without jitter, a cookie that [get] has
    returned at time [t] carries the score [t], and a later [get] returns
    it only from a turn made at [t] plus the limit or later, so that it
    ends no earlier than that; a [get] of a single turn that begins before
    [t] plus the limit does not return it.  Between the two calls the
    pool may be used in any gentle way. *)
Theorem cookie_rests_for_the_limit p w0 retry0 jitter0 env0 c w1 :
  with_random p = 0 ->
  get p retry0 jitter0 env0 w0 = (Some c, w1) ->
  zset (cookie_key p) (redis_conn w1) !! c = Some (now w1) /\
  forall cs retry jitter env,
    Forall (gentle c) cs -> steady env ->
    let w2 := run p cs w1 in
    (forall w3,
       get p retry jitter env w2 = (Some c, w3) ->
       (exists k,
          (k < Z.to_nat retry)%nat /\
          (now w1 + inject_Z (limit p) <= attempt_time env 0 (now w2) k)%Q /\
          now w3 = (attempt_time env 0 (now w2) k + lag (env k))%Q) /\
       (now w1 + inject_Z (limit p) <= now w3)%Q) /\
    (retry <= 1 -> (now w2 < now w1 + inject_Z (limit p))%Q ->
     (get p retry jitter env w2).1 ≠ Some c).
Proof.
  intros Hwr Hget0.
  pose proof Hget0 as (_ & _ & _ & _ & _ & _ & Hz)%get_returns.
  split; [by rewrite Hz, lookup_insert_eq|].
  intros cs retry jitter env Hcs Hs w2.
  destruct (run_gentle p c (now w1) cs w1 Hcs) as [Hnow Hscore].
  { lra. }
  { intros s. rewrite Hz, lookup_insert_eq. intros [= <-]. lra. }
  fold w2 in Hnow, Hscore.
  assert (forall w3,
            get p retry jitter env w2 = (Some c, w3) ->
            exists k,
              (k < Z.to_nat retry)%nat /\
              (now w1 + inject_Z (limit p)
               <= attempt_time env 0 (now w2) k)%Q /\
              now w3 = (attempt_time env 0 (now w2) k + lag (env k))%Q)
    as Hturn.
  { intros w3 (k & s & Hk & Hsc & Hle & Hend & _)%get_returns.
    exists k. split_and!; [done| |done].
    unfold effective_limit in Hle. rewrite Hwr in Hle. cbn in Hle.
    specialize (Hscore s Hsc). lra. }
  split.
  - intros w3 Hget. destruct (Hturn w3 Hget) as (k & Hk & Hle & Hend).
    split; [by exists k|]. destruct (Hs k) as [Hlag _]. rewrite Hend. lra.
  - intros Hretry Hearly Hget.
    destruct (get p retry jitter env w2) as [o w3] eqn:Hg. cbn in Hget.
    subst o. destruct (Hturn w3 eq_refl) as (k & Hk & Hle & _).
    assert (k = 0%nat) as -> by lia. cbn in Hle. lra.
Qed.




(** C1 fails for a call that retries: with a limit of two seconds the
    cookie is returned at time 0; a [get] issued one second later finds
    nothing, sleeps a second, and returns the same cookie. *)
Lemma get_issued_within_limit_returns_cookie :
  let first := get two_seconds 3 0 calm one_cookie in
  let second := get two_seconds 3 0 calm (elapse 1 first.2) in
  first.1 = Some "c" /\
  (now first.2 == 0)%Q /\
  zset (cookie_key two_seconds) (redis_conn first.2) !! "c"
  = Some (now first.2) /\
  (now (elapse 1 first.2) < now first.2 + inject_Z (limit two_seconds))%Q /\
  second.1 = Some "c".
Proof. vm_compute. split_and!; reflexivity. Qed.

End LimitRedisFacts.

Section LimitRedisExamples.
Import LimitRedisCookiePool.

Lemma steady_calm : steady calm.
Proof. intros i. cbn. split; lra. Qed.

Lemma get_retries_until_a_cookie_is_due_witness :
  (limit two_seconds - with_random two_seconds
   <= effective_limit two_seconds 0
   <= limit two_seconds + with_random two_seconds) /\
  (exists draw,
     (draw < length ["c"])%nat /\ random_choice draw "c" [] = "c" /\
     forall draw',
       (draw' < length ["c"])%nat -> random_choice draw' "c" [] = "c" ->
       draw' = draw) /\
  zset (cookie_key two_seconds)
    (redis_conn (get two_seconds 3 0 calm one_cookie).2) !! "c"
  = Some (now (get two_seconds 3 0 calm one_cookie).2).
Proof.
  pose proof (get_retries_until_a_cookie_is_due two_seconds 3 0 calm
                one_cookie) as (_ & Hjitter & Hturns & _ & _ & Hdraw).
  cbv zeta in Hjitter, Hturns, Hdraw. split; [|split].
  - apply Hjitter. cbn. lia.
  - apply (Hdraw 0%nat "c" [] "c").
    + vm_compute. reflexivity.
    + apply list_elem_of_here.
  - assert ((get two_seconds 3 0 calm one_cookie).1 = Some "c") as Hc
      by (vm_compute; reflexivity).
    destruct Hturns
      as [(k & x & l & _ & _ & _ & _ & Hget & Hnow & Hscore & _)|[_ Hget]];
      rewrite Hget in Hc; [|discriminate].
    injection Hc as Hc.
    change (random_choice (pick (calm k)) x l = "c") in Hc.
    rewrite Hc in Hscore. by rewrite Hnow.
Defined.

Lemma cookie_rests_for_the_limit_witness :
  let w1 := (get two_seconds 3 0 calm one_cookie).2 in
  zset (cookie_key two_seconds) (redis_conn w1) !! "c" = Some (now w1) /\
  (now w1 + inject_Z (limit two_seconds)
   <= now (get two_seconds 3 0 calm (run two_seconds [Wait 3] w1)).2)%Q /\
  (get two_seconds 1 0 calm (run two_seconds [Wait 1] w1)).1 ≠ Some "c".
Proof.
  intros w1.
  assert (get two_seconds 3 0 calm one_cookie = (Some "c", w1)) as Hfirst.
  { apply injective_projections; [vm_compute; reflexivity | reflexivity]. }
  destruct (cookie_rests_for_the_limit two_seconds one_cookie 3 0 calm "c" w1
              eq_refl Hfirst) as [Hscore Hlater].
  split; [exact Hscore|]. split.
  - assert (Forall (gentle "c") [Wait 3]) as Hcs.
    { constructor; [cbn; lra | constructor]. }
    destruct (Hlater [Wait 3] 3 0 calm Hcs steady_calm) as [Hget _].
    apply Hget.
    apply injective_projections; [vm_compute; reflexivity | reflexivity].
  - assert (Forall (gentle "c") [Wait 1]) as Hcs.
    { constructor; [cbn; lra | constructor]. }
    destruct (Hlater [Wait 1] 1 0 calm Hcs steady_calm) as [_ Hsingle].
    apply Hsingle; [lia|]. vm_compute. reflexivity.
Defined.

End LimitRedisExamples.

(** * Further properties *)

(** ** CookiePool, beyond its bound *)

Section CookiePoolMore.
Import CookiePool.
Context {A : Type}.
Implicit Types (d : list A) (p : pool A) (ops : list (op A)).

Lemma run_app ops1 ops2 p : run (ops1 ++ ops2) p = run ops2 (run ops1 p).
Proof. unfold run. apply foldl_app. Qed.

Lemma answers_app ops1 ops2 p :
  answers (ops1 ++ ops2) p = answers ops1 p ++ answers ops2 (run ops1 p).
Proof.
  revert p. induction ops1 as [|o ops1 IH]; intros p; [done|].
  destruct o as [c|]; cbn.
  - apply IH.
  - f_equal. apply IH.
Qed.

Lemma answers_adds (xs : list A) p : answers (adds xs) p = [].
Proof. revert p. induction xs as [|x xs IH]; intros p; [done|]. apply IH. Qed.

Lemma drain d :
  answers (replicate (length d) Get) (mkPool d) = (Ok ∘ Some) <$> reverse d /\
  run (replicate (length d) Get) (mkPool d) = init.
Proof.
  induction d as [|x d IH] using rev_ind; [done|].
  rewrite length_app, Nat.add_comm. cbn [length Nat.add replicate].
  destruct IH as [IH1 IH2]. split.
  - cbn [answers]. rewrite get_snoc, reverse_snoc. cbn. f_equal. exact IH1.
  - unfold run in *. cbn [foldl step]. rewrite get_snoc. exact IH2.
Qed.

Lemma run_adds_init (xs : list A) :
  cookie_list (run (adds xs) init) = drop (length xs - Z.to_nat 10000) xs.
Proof.
  change (init (A := A)) with (mkPool (A := A) []).
  rewrite run_adds by (cbn; unfold maxlen; lia). done.
Qed.

(** An [add] on a pool that is not full is undone by the next [get],
    which returns the cookie added. *)
Theorem cookie_pool_get_undoes_add p (x : A) :
  len p < 10000 -> get (add x p) = (Ok (Some x), p).
Proof.
  intros Hlen. destruct p as [d]. unfold len in Hlen. cbn in Hlen.
  unfold add. cbn [cookie_list]. rewrite deque_append_short by done.
  apply get_snoc.
Qed.

(** The pool holds the last 10000 of the cookies added to it, in the
    order of their addition. *)
Theorem cookie_pool_keeps_the_newest (xs : list A) :
  cookie_list (run (adds xs) init) = drop (length xs - Z.to_nat 10000) xs /\
  len (run (adds xs) init) = Z.min (Z.of_nat (length xs)) 10000.
Proof.
  pose proof (run_adds_init xs) as Hl.
  split; [done|]. unfold len. rewrite Hl, length_drop. lia.
Qed.

(** Cookies come back newest first: after up to 10000 cookies are added
    to an empty pool, as many calls of [get] return them in reverse order
    and empty the pool, and the next [get] returns [None]. *)
Theorem cookie_pool_returns_newest_first (xs : list A) :
  Z.of_nat (length xs) <= 10000 ->
  answers (adds xs ++ replicate (length xs) Get ++ [Get]) init
  = ((Ok ∘ Some) <$> reverse xs) ++ [Ok None] /\
  run (adds xs ++ replicate (length xs) Get ++ [Get]) init = init.
Proof.
  intros Hlen.
  pose proof (run_adds_init xs) as Hl.
  replace (length xs - Z.to_nat 10000)%nat with 0%nat in Hl by lia.
  cbn [drop] in Hl.
  assert (run (adds xs) init = mkPool xs) as Hrun.
  { destruct (run (adds xs) init) as [d]. cbn in Hl. by subst d. }
  destruct (drain xs) as [Hans Hend].
  rewrite !answers_app, !run_app, answers_adds, Hrun, Hans, Hend.
  done.
Qed.
End CookiePoolMore.

Lemma cookie_pool_get_undoes_add_witness :
  CookiePool.get (CookiePool.add 7%nat (CookiePool.mkPool [1; 2]%nat))
  = (Ok (Some 7%nat), CookiePool.mkPool [1; 2]%nat).
Proof. apply cookie_pool_get_undoes_add. vm_compute. reflexivity. Defined.

Lemma cookie_pool_returns_newest_first_witness :
  CookiePool.answers
    (CookiePool.adds [1; 2; 3]%nat ++ replicate (length [1; 2; 3]%nat)
       CookiePool.Get ++ [CookiePool.Get]) CookiePool.init
  = ((Ok ∘ Some) <$> reverse [1; 2; 3]%nat) ++ [Ok None] /\
  CookiePool.run
    (CookiePool.adds [1; 2; 3]%nat ++ replicate (length [1; 2; 3]%nat)
       CookiePool.Get ++ [CookiePool.Get]) CookiePool.init
  = CookiePool.init.
Proof. apply cookie_pool_returns_newest_first. vm_compute. discriminate. Defined.

(** ** LimitRedisCookiePool, beyond its limit *)

Section LimitRedisMore.
Import LimitRedisCookiePool.

Lemma get_world p retry jitter env w :
  let r := get p retry jitter env w in
  (r.1 = None /\ redis_conn r.2 = redis_conn w) \/
  (exists c s,
     r.1 = Some c /\
     zset (cookie_key p) (redis_conn w) !! c = Some s /\
     redis_conn r.2 = zadd (cookie_key p) c (now r.2) (redis_conn w)).
Proof.
  cbv zeta. unfold get.
  destruct (get_loop_spec p (effective_limit p jitter) env
              (Z.to_nat retry) 0 w)
    as [(k & x & l & _ & _ & Hat & ->)|[_ ->]]; cbn [fst snd now redis_conn].
  - right. pose proof (random_choice_elem (pick (env (0 + k)%nat)) x l) as Hin.
    rewrite <- Hat in Hin.
    apply elem_of_zrangebyscore in Hin as (s & Hs & _). eauto.
  - by left.
Qed.

Lemma scores_other cookie delay drift k t info c :
  c ∉ cookie -> (scores cookie delay drift k t info).2 !! c = info !! c.
Proof.
  revert k t info. induction cookie as [|c0 rest IH]; intros k t info Hc;
    cbn; [done|].
  apply not_elem_of_cons in Hc as [Hne Hc].
  by rewrite IH, lookup_insert_ne.
Qed.

Lemma scores_dom cookie delay drift k t info :
  dom (scores cookie delay drift k t info).2 = list_to_set cookie ∪ dom info.
Proof.
  revert k t info. induction cookie as [|c0 rest IH]; intros k t info; cbn.
  - by rewrite (left_id_L ∅ (∪)).
  - rewrite IH, dom_insert_L.
    by rewrite (assoc_L (∪)), (comm_L (∪) (list_to_set rest)).
Qed.

(** A pool touches no sorted set but its own. *)
Lemma step_other_key p key cl w :
  key ≠ cookie_key p -> redis_conn (step p w cl) !! key = redis_conn w !! key.
Proof.
  intros Hkey. destruct cl as [retry jitter env|cookie delay drift|c|d]; cbn.
  - destruct (get_world p retry jitter env w)
      as [[_ ->]|(c & s & _ & _ & ->)]; [done|].
    unfold zadd. by rewrite lookup_insert_ne.
  - unfold zadd_all. by rewrite lookup_insert_ne.
  - unfold zrem. by rewrite lookup_insert_ne.
  - done.
Qed.

Lemma run_other_key p key cs w :
  key ≠ cookie_key p ->
  zset key (redis_conn (run p cs w)) = zset key (redis_conn w).
Proof.
  intros Hkey. revert w. induction cs as [|cl cs IH]; intros w; [done|].
  change (run p (cl :: cs) w) with (run p cs (step p w cl)).
  rewrite IH. unfold zset. by rewrite step_other_key.
Qed.

(** Pools of different namespaces keep different sorted sets, and no
    call on one of them changes the set of the other.  [__init__] refuses
    an empty namespace and a negative jitter. *)
Theorem namespaces_keep_pools_apart namespace1 namespace2 l1 r1 l2 r2 :
  (init "" l1 r1 = Raise (AssertionError "must special namespace")) /\
  (namespace1 ≠ "" -> r1 < 0 ->
   init namespace1 l1 r1 = Raise (AssertionError "")) /\
  forall p1 p2,
    init namespace1 l1 r1 = Ok p1 ->
    init namespace2 l2 r2 = Ok p2 ->
    namespace1 ≠ namespace2 ->
    cookie_key p1 ≠ cookie_key p2 /\
    forall cs w,
      zset (cookie_key p2) (redis_conn (run p1 cs w))
      = zset (cookie_key p2) (redis_conn w).
Proof.
  split_and!.
  - done.
  - intros Hns Hr. unfold init. rewrite bool_decide_eq_false_2 by done.
    by destruct (Z.ltb_spec r1 0); [|lia].
  - intros p1 p2 H1 H2 Hne. unfold init in H1, H2.
    repeat case_match; try discriminate.
    injection H1 as <-. injection H2 as <-. cbn [cookie_key].
    assert ("LimitRedisCookiePool:" +:+ namespace1
            ≠ "LimitRedisCookiePool:" +:+ namespace2) as Hkeys.
    { cbn. intros [= ?]. done. }
    split; [done|]. intros cs w. apply run_other_key. cbn. congruence.
Qed.

Lemma get_members p retry jitter env w :
  dom (zset (cookie_key p) (redis_conn (get p retry jitter env w).2))
  = dom (zset (cookie_key p) (redis_conn w)) /\
  forall c, (get p retry jitter env w).1 = Some c ->
            c ∈ dom (zset (cookie_key p) (redis_conn w)).
Proof.
  destruct (get_world p retry jitter env w)
    as [[-> ->]|(c & s & -> & Hs & ->)].
  - done.
  - assert (c ∈ dom (zset (cookie_key p) (redis_conn w))) as Hc
      by (apply elem_of_dom; eauto).
    split.
    + rewrite zset_zadd, dom_insert_L.
      apply subseteq_union_1_L. by apply singleton_subseteq_l.
    + by intros c' [= <-].
Qed.

(** [get] returns members of the set only, and neither adds a member
    nor removes one. *)
Theorem get_keeps_the_members p retry jitter env w :
  let r := get p retry jitter env w in
  dom (zset (cookie_key p) (redis_conn r.2))
  = dom (zset (cookie_key p) (redis_conn w)) /\
  forall c, r.1 = Some c -> c ∈ dom (zset (cookie_key p) (redis_conn w)).
Proof. apply get_members. Qed.

(** A [get] that returns [None] has left the server as it was and has
    taken a second for each of its turns. *)
Theorem get_none_has_slept p retry jitter env w w' :
  steady env -> 0 <= retry ->
  get p retry jitter env w = (None, w') ->
  redis_conn w' = redis_conn w /\ (now w + inject_Z retry <= now w')%Q.
Proof.
  intros Hs Hretry Hget. unfold get in Hget.
  destruct (get_loop_spec p (effective_limit p jitter) env
              (Z.to_nat retry) 0 w)
    as [(k & x & l & _ & _ & _ & Hget')|[_ Hget']];
    rewrite Hget' in Hget; [discriminate|].
  injection Hget as <-. cbn [now redis_conn]. split; [done|].
  pose proof (attempt_time_ge env 0 (now w) (Z.to_nat retry) Hs) as Hge.
  by rewrite Z2Nat.id in Hge.
Qed.

Lemma get_due p retry jitter env w m s :
  0 < retry ->
  zset (cookie_key p) (redis_conn w) !! m = Some s ->
  (s <= now w - inject_Z (effective_limit p jitter))%Q ->
  exists c s',
    (get p retry jitter env w).1 = Some c /\
    zset (cookie_key p) (redis_conn w) !! c = Some s' /\
    (s' <= now w - inject_Z (effective_limit p jitter))%Q /\
    now (get p retry jitter env w).2 = (now w + lag (env 0%nat))%Q.
Proof.
  intros Hretry Hm Hs.
  assert (m ∈ candidates p (effective_limit p jitter) env 0 (now w)
                (redis_conn w) 0) as Hdue.
  { apply elem_of_zrangebyscore. eauto. }
  unfold get.
  destruct (get_loop_spec p (effective_limit p jitter) env
              (Z.to_nat retry) 0 w)
    as [(k & x & l & Hk & Hbefore & Hat & ->)|[Hall _]].
  - destruct k as [|k].
    + pose proof (random_choice_elem (pick (env 0%nat)) x l) as Hin.
      rewrite <- Hat in Hin.
      apply elem_of_zrangebyscore in Hin as (s' & Hs' & Hle).
      exists (random_choice (pick (env 0%nat)) x l), s'. done.
    + rewrite (Hbefore 0%nat) in Hdue by lia. by apply elem_of_nil in Hdue.
  - rewrite (Hall 0%nat) in Hdue by lia. by apply elem_of_nil in Hdue.
Qed.

(** A cookie that is due when [get] is called is returned at once: with
    a turn to make and a member old enough for the effective limit, [get]
    returns such a member without sleeping. *)
Theorem get_serves_a_due_cookie_at_once p retry jitter env w m s :
  0 < retry ->
  zset (cookie_key p) (redis_conn w) !! m = Some s ->
  (s <= now w - inject_Z (effective_limit p jitter))%Q ->
  exists c s',
    (get p retry jitter env w).1 = Some c /\
    zset (cookie_key p) (redis_conn w) !! c = Some s' /\
    (s' <= now w - inject_Z (effective_limit p jitter))%Q /\
    now (get p retry jitter env w).2 = (now w + lag (env 0%nat))%Q.
Proof. apply get_due. Qed.

Lemma step_spares p c cl w :
  spares c cl ->
  zset (cookie_key p) (redis_conn w) !! c = None ->
  zset (cookie_key p) (redis_conn (step p w cl)) !! c = None.
Proof.
  intros Hsp Hc. destruct cl as [retry jitter env|cookie delay drift|c'|d];
    cbn [step spares] in *.
  - destruct (get_members p retry jitter env w) as [Hdom _].
    apply not_elem_of_dom. rewrite Hdom. by apply not_elem_of_dom.
  - unfold add. cbn [redis_conn]. rewrite zset_zadd_all.
    apply lookup_union_None. split; [|done].
    by rewrite scores_other.
  - unfold delete. cbn [redis_conn]. rewrite zset_zrem.
    apply lookup_delete_None. by right.
  - done.
Qed.

(** A cookie that was deleted is not returned again, whatever the limit
    and the jitter, as long as it is not added anew. *)
Theorem deleted_cookie_is_not_returned p c w cs retry jitter env :
  Forall (spares c) cs ->
  zset (cookie_key p) (redis_conn (delete p c w)) !! c = None /\
  (get p retry jitter env (run p cs (delete p c w))).1 ≠ Some c.
Proof.
  intros Hcs.
  assert (zset (cookie_key p) (redis_conn (delete p c w)) !! c = None) as Hgone.
  { unfold delete. cbn [redis_conn]. rewrite zset_zrem.
    apply lookup_delete_eq. }
  split; [done|].
  assert (zset (cookie_key p) (redis_conn (run p cs (delete p c w))) !! c
          = None) as Hstill.
  { revert Hgone. generalize (delete p c w). clear w.
    induction Hcs as [|cl cs Hcl _ IH]; intros w Hw; [done|].
    change (run p (cl :: cs) w) with (run p cs (step p w cl)).
    apply IH. by apply step_spares. }
  intros Hget.
  destruct (get_members p retry jitter env
              (run p cs (delete p c w))) as [_ Hin].
  apply Hin, elem_of_dom in Hget as [s Hs]. congruence.
Qed.

Lemma add_one p c delay drift w :
  zset (cookie_key p) (redis_conn (add p (One c) delay drift w))
  = <[c := (now w + delay)%Q]> (zset (cookie_key p) (redis_conn w)).
Proof.
  unfold add. cbn [redis_conn]. rewrite zset_zadd_all.
  cbn [cookies_of scores snd]. rewrite insert_empty.
  symmetry. apply insert_union_singleton_l.
Qed.

(** [add] makes each of its cookies a member, with a new score when it
    was one already, and touches no other member: a single cookie gets
    the time of the call plus the delay. *)
Theorem add_scores_its_cookies p cookie delay drift w :
  let w' := add p cookie delay drift w in
  dom (zset (cookie_key p) (redis_conn w'))
  = list_to_set (cookies_of cookie) ∪ dom (zset (cookie_key p) (redis_conn w))
  /\
  (forall m, m ∉ cookies_of cookie ->
     zset (cookie_key p) (redis_conn w') !! m
     = zset (cookie_key p) (redis_conn w) !! m) /\
  (forall c, cookie = One c ->
     zset (cookie_key p) (redis_conn w')
     = <[c := (now w + delay)%Q]> (zset (cookie_key p) (redis_conn w))).
Proof.
  intros w'. subst w'. split_and!.
  - unfold add. cbn [redis_conn]. rewrite zset_zadd_all.
    by rewrite dom_union_L, scores_dom, dom_empty_L, (right_id_L ∅ (∪)).
  - intros m Hm. unfold add. cbn [redis_conn]. rewrite zset_zadd_all.
    rewrite lookup_union_r; [done|]. by rewrite scores_other.
  - intros c ->. apply add_one.
Qed.

(** A cookie added to an empty set with a delay is served once the delay
    and the effective limit have passed: a [get] with a turn to make,
    called that much later, returns it at once. *)
Theorem added_cookie_is_served_after_its_delay
    p c delay drift w d retry jitter env :
  zset (cookie_key p) (redis_conn w) = ∅ ->
  (0 <= drift 0%nat)%Q ->
  (delay + inject_Z (effective_limit p jitter) <= d)%Q ->
  0 < retry ->
  (get p retry jitter env (elapse d (add p (One c) delay drift w))).1
  = Some c.
Proof.
  intros Hempty Hdrift Hd Hretry.
  pose proof (add_one p c delay drift w) as Hone. rewrite Hempty in Hone.
  set (w1 := elapse d (add p (One c) delay drift w)).
  assert (zset (cookie_key p) (redis_conn w1) = {[c := (now w + delay)%Q]})
    as Hz by (by rewrite <- insert_empty).
  assert (now w1 = (now w + drift 0%nat + d)%Q) as Hnow by done.
  destruct (get_due p retry jitter env w1 c
              (now w + delay)%Q Hretry) as (c' & s' & -> & Hs' & _).
  - rewrite Hz. apply lookup_singleton_eq.
  - rewrite Hnow. lra.
  - rewrite Hz in Hs'. apply lookup_singleton_Some in Hs' as [-> _]. done.
Qed.
End LimitRedisMore.

Section LimitRedisMoreExamples.
Import LimitRedisCookiePool.

Lemma namespaces_keep_pools_apart_witness :
  init "a" 2 (-1) = Raise (AssertionError "") /\
  (forall p1 p2,
     init "a" 2 0 = Ok p1 -> init "b" 2 0 = Ok p2 ->
     cookie_key p1 ≠ cookie_key p2) /\
  zset "LimitRedisCookiePool:b"
    (redis_conn (run (mkPool "LimitRedisCookiePool:a" 2 0)
                   [Add (One "c") 0 no_drift] empty_server))
  = zset "LimitRedisCookiePool:b" (redis_conn empty_server).
Proof.
  pose proof (namespaces_keep_pools_apart "a" "b" 2 (-1) 2 0) as (_ & H1 & _).
  pose proof (namespaces_keep_pools_apart "a" "b" 2 0 2 0) as (_ & _ & H2).
  split; [|split].
  - apply H1; [discriminate | lia].
  - intros p1 p2 Hp1 Hp2. apply (H2 p1 p2 Hp1 Hp2). discriminate.
  - apply (H2 (mkPool "LimitRedisCookiePool:a" 2 0)
              (mkPool "LimitRedisCookiePool:b" 2 0) eq_refl eq_refl).
    discriminate.
Defined.

Lemma get_none_has_slept_witness :
  redis_conn (get two_seconds 3 0 calm empty_server).2
  = redis_conn empty_server /\
  (now empty_server + inject_Z 3
   <= now (get two_seconds 3 0 calm empty_server).2)%Q.
Proof.
  apply (get_none_has_slept two_seconds 3 0 calm empty_server).
  - exact steady_calm.
  - lia.
  - apply injective_projections; [vm_compute; reflexivity | reflexivity].
Defined.

Lemma get_serves_a_due_cookie_at_once_witness :
  exists c s',
    (get two_seconds 1 0 calm one_cookie).1 = Some c /\
    zset (cookie_key two_seconds) (redis_conn one_cookie) !! c = Some s' /\
    (s' <= now one_cookie - inject_Z (effective_limit two_seconds 0))%Q /\
    now (get two_seconds 1 0 calm one_cookie).2
    = (now one_cookie + lag (calm 0%nat))%Q.
Proof.
  apply (get_serves_a_due_cookie_at_once two_seconds 1 0 calm one_cookie
           "c" (-10)%Q).
  - lia.
  - reflexivity.
  - vm_compute. discriminate.
Defined.

Lemma deleted_cookie_is_not_returned_witness :
  zset (cookie_key two_seconds)
    (redis_conn (delete two_seconds "c" one_cookie)) !! "c" = None /\
  (get two_seconds 3 0 calm
     (run two_seconds [Wait 5; Add (One "d") 0 no_drift]
        (delete two_seconds "c" one_cookie))).1 ≠ Some "c".
Proof.
  apply deleted_cookie_is_not_returned.
  constructor; [exact I|]. constructor; [|constructor].
  cbn. intros H. apply list_elem_of_singleton in H. discriminate.
Defined.

Lemma add_scores_its_cookies_witness :
  zset (cookie_key two_seconds)
    (redis_conn (add two_seconds (One "d") 5 no_drift one_cookie)) !! "c"
  = zset (cookie_key two_seconds) (redis_conn one_cookie) !! "c" /\
  zset (cookie_key two_seconds)
    (redis_conn (add two_seconds (One "d") 5 no_drift one_cookie))
  = <["d" := (now one_cookie + 5)%Q]>
      (zset (cookie_key two_seconds) (redis_conn one_cookie)).
Proof.
  pose proof (add_scores_its_cookies two_seconds (One "d") 5 no_drift
                one_cookie) as (_ & H1 & H2).
  split.
  - apply H1. cbn. intros H. apply list_elem_of_singleton in H. discriminate.
  - apply H2. reflexivity.
Defined.

Lemma added_cookie_is_served_after_its_delay_witness :
  (get two_seconds 1 0 calm
     (elapse 7 (add two_seconds (One "c") 5 no_drift empty_server))).1
  = Some "c".
Proof.
  apply added_cookie_is_served_after_its_delay.
  - reflexivity.
  - unfold no_drift. lra.
  - vm_compute. discriminate.
  - lia.
Defined.
End LimitRedisMoreExamples.

(** ** UserAgentPool *)

Section UserAgentFacts.
Import Py UserAgentPool.
Variable files : gmap string (list string).
Variable generate_user_agent : option (list string -> string).

Lemma lstrip_idem s : lstrip (lstrip s) = lstrip s.
Proof.
  induction s as [|a s IH]; [done|]. cbn.
  destruct (isspace a) eqn:Ha; [done|]. cbn. by rewrite Ha.
Qed.

Lemma rstrip_idem s : rstrip (rstrip s) = rstrip s.
Proof.
  induction s as [|a s IH]; [done|]. cbn.
  destruct (rstrip s) as [|b r] eqn:Hr.
  - destruct (isspace a) eqn:Ha; [done|]. cbn. by rewrite Ha.
  - cbn. cbn in IH. by rewrite IH.
Qed.

Lemma lstrip_rstrip s : lstrip s = s -> lstrip (rstrip s) = rstrip s.
Proof.
  destruct s as [|a s]; [done|]. cbn.
  destruct (isspace a) eqn:Ha.
  - intros H. exfalso.
    assert (forall t, String.length (lstrip t) <= String.length t)%nat as Hlen.
    { induction t as [|b t IHt]; cbn; [lia|].
      destruct (isspace b); cbn; lia. }
    specialize (Hlen s). rewrite H in Hlen. cbn in Hlen. lia.
  - intros _. destruct (rstrip s); cbn; by rewrite Ha.
Qed.

Lemma strip_idem s : strip (strip s) = strip s.
Proof.
  unfold strip. rewrite lstrip_rstrip by apply lstrip_idem.
  apply rstrip_idem.
Qed.

Lemma get_ua_from_file_stripped self filename ua :
  ua ∈ get_ua_from_file files self filename ->
  ua ≠ "" /\ strip ua = ua /\ lstrip ua = ua /\ rstrip ua = ua.
Proof.
  unfold get_ua_from_file. cbv zeta.
  destruct (files !! path_join (ua_local_dir self) filename) as [lines|];
    [|by intros ?%elem_of_nil].
  intros (x & Hx & Hua)%list_elem_of_omap.
  destruct (String.eqb_spec (strip x) ""); [done|].
  cbn in Hua. injection Hua as <-.
  split_and!; [done|apply strip_idem| |].
  - unfold strip. apply lstrip_rstrip, lstrip_idem.
  - unfold strip. apply rstrip_idem.
Qed.

(** [get_ua_from_file] gives nothing for a file that is not there; what
    it gives for a file is, in the order of the lines, the lines stripped
    of the white space around them: none is empty, and none has white
    space left at either end. *)
Theorem user_agents_of_a_file_are_stripped self filename :
  (files !! path_join (ua_local_dir self) filename = None ->
   get_ua_from_file files self filename = []) /\
  (forall lines,
     files !! path_join (ua_local_dir self) filename = Some lines ->
     get_ua_from_file files self filename
     = filter (fun x => x ≠ "") (strip <$> lines)) /\
  (forall ua,
     ua ∈ get_ua_from_file files self filename ->
     ua ≠ "" /\ strip ua = ua /\ lstrip ua = ua /\ rstrip ua = ua).
Proof.
  split_and!; [| |apply get_ua_from_file_stripped].
  - unfold get_ua_from_file. cbv zeta. by intros ->.
  - unfold get_ua_from_file. cbv zeta.
    intros lines ->. induction lines as [|x lines IH]; [done|].
    cbn [omap list_omap fmap list_fmap]. rewrite filter_cons.
    destruct (String.eqb_spec (strip x) ""); cbn [negb].
    + rewrite decide_False by (by intros []). exact IH.
    + rewrite decide_True by done. f_equal. exact IH.
Qed.

Lemma type_func_dict_known self typ :
  is_Some (type_func_dict files self !! typ) <-> typ ∈ dev_types.
Proof.
  unfold type_func_dict. rewrite <- not_eq_None_Some.
  rewrite <- not_elem_of_list_to_map. cbn [fmap list_fmap fst].
  fold dev_types. split; [|by auto].
  intros H. by destruct (decide (typ ∈ dev_types)).
Qed.

Lemma type_func_dict_stripped self typ l ua :
  type_func_dict files self !! typ = Some l -> ua ∈ l ->
  ua ≠ "" /\ strip ua = ua /\ lstrip ua = ua /\ rstrip ua = ua.
Proof.
  intros Hl Hua. unfold type_func_dict in Hl.
  apply elem_of_list_to_map_2 in Hl.
  unfold pc_ua, mobile_ua, win_ua, mac_ua, linux_ua, android_ua, ios_ua in Hl.
  repeat (apply elem_of_cons in Hl as [Heq|Hl];
          [injection Heq as _ ->;
           repeat (apply elem_of_app in Hua as [Hua|Hua]);
           by eapply get_ua_from_file_stripped|]).
  by apply elem_of_nil in Hl.
Qed.

(** The loop of [init]: it ends well when every type is known, and then
    holds what the types stand for; it stops at a type that is not
    known. *)
Lemma init_loop_spec dict types ua os :
  let r := init_loop dict types ua os in
  match r.1 with
  | Ok _ =>
      Forall (fun typ => is_Some (dict !! typ)) types /\
      (forall t,
         t ∈ r.2.2 <->
         t ∈ os \/
         exists typ,
           typ ∈ types /\
           t ∈ (if String.eqb typ pc then [win; mac; linux]
                else if String.eqb typ mobile then [android] else [typ])) /\
      (forall u,
         u ∈ r.2.1 ->
         u ∈ ua \/ exists typ l, dict !! typ = Some l /\ u ∈ l)
  | Raise e => exists typ, e = KeyError typ /\ typ ∈ types /\ dict !! typ = None
  end.
Proof.
  cbv zeta. revert ua os. induction types as [|typ rest IH]; intros ua os.
  - cbn. split_and!; [done| |by left].
    intros t. split; [by left|]. intros [?|(typ & ?%elem_of_nil & _)]; done.
  - cbn [init_loop]. destruct (dict !! typ) as [ua_list|] eqn:Hd.
    2: { cbn. exists typ. split_and!; [done|by left|done]. }
    cbv zeta.
    set (ua' := match ua_list with [] => ua | _ => ua ++ ua_list end).
    set (os' := if String.eqb typ pc then os ++ [win; mac; linux]
                else if String.eqb typ mobile then os ++ [android]
                else os ++ [typ]).
    specialize (IH ua' os').
    destruct (init_loop dict rest ua' os') as [[[]|e] [ua2 os2]];
      cbn [fst snd] in *.
    + destruct IH as (Hall & Hos & Hua). split_and!.
      * constructor; [by rewrite Hd|done].
      * intros t. rewrite Hos. subst os'. split.
        -- intros [Ht|(typ' & Hin & Ht)].
           ++ destruct (String.eqb typ pc) eqn:E1;
                [|destruct (String.eqb typ mobile) eqn:E2];
                apply elem_of_app in Ht as [Ht|Ht]; try (by left);
                right; exists typ; rewrite E1, ?E2; split; try done;
                by left.
           ++ right. exists typ'. split; [by right|done].
        -- intros [Ht|(typ' & Hin & Ht)].
           ++ left. destruct (String.eqb typ pc);
                [|destruct (String.eqb typ mobile)];
                apply elem_of_app; by left.
           ++ apply elem_of_cons in Hin as [->|Hin].
              ** left. destruct (String.eqb typ pc);
                   [|destruct (String.eqb typ mobile)];
                   apply elem_of_app; by right.
              ** right. by exists typ'.
      * intros u Hu. apply Hua in Hu as [Hu|Hu]; [|by right].
        subst ua'. destruct ua_list as [|x l]; [by left|].
        apply elem_of_app in Hu as [Hu|Hu]; [by left|].
        right. by exists typ, (x :: l).
    + destruct IH as (typ' & -> & Hin & Hnone).
      exists typ'. split_and!; [done|by right|done].
Qed.

Ltac not_among :=
  let H := fresh in
  intros H; repeat (apply elem_of_cons in H as [H|H]; [discriminate|]);
  by apply elem_of_nil in H.

Lemma init_spec self :
  let r := init files self in
  init_flag r.2 = true /\
  (r.1 = Ok tt <-> Forall (fun typ => typ ∈ dev_types) (types self)) /\
  (forall e,
     r.1 = Raise e ->
     exists typ, e = KeyError typ /\ typ ∈ types self /\ typ ∉ dev_types) /\
  (r.1 = Ok tt -> os_types self = [] ->
   forall t,
     t ∈ os_types r.2 <->
     (t = win /\ (win ∈ types self \/ pc ∈ types self)) \/
     (t = mac /\ (mac ∈ types self \/ pc ∈ types self)) \/
     (t = linux /\ (linux ∈ types self \/ pc ∈ types self)) \/
     (t = android /\ (android ∈ types self \/ mobile ∈ types self))) /\
  (r.1 = Ok tt -> user_agents self = [] ->
   forall ua, ua ∈ user_agents r.2 ->
     ua ≠ "" /\ strip ua = ua /\ lstrip ua = ua /\ rstrip ua = ua).
Proof.
  cbv zeta. unfold init. cbv zeta.
  pose proof (init_loop_spec (type_func_dict files self) (types self)
                (user_agents self) (os_types self)) as Hloop.
  cbv zeta in Hloop.
  destruct (init_loop (type_func_dict files self) (types self)
              (user_agents self) (os_types self)) as [[[]|e] [ua2 os2]];
    cbn [fst snd init_flag os_types user_agents] in *.
  - destruct Hloop as (Hall & Hos & Hua).
    assert (Forall (fun typ => typ ∈ dev_types) (types self)) as Hknown.
    { eapply Forall_impl; [exact Hall|]. intros typ.
      apply type_func_dict_known. }
    split_and!; [done|done|intros; discriminate| |].
    + intros _ Hnil t. rewrite list_elem_of_filter, Hos, Hnil. split.
      * intros [Hnot [?%elem_of_nil|(typ & Hin & Ht)]]; [done|].
        pose proof (proj1 (Forall_forall _ _) Hknown typ Hin) as Hdev.
        unfold dev_types in Hdev.
        repeat (apply elem_of_cons in Hdev as [->|Hdev]);
          [..|by apply elem_of_nil in Hdev]; cbn in Ht;
          repeat (apply elem_of_cons in Ht as [->|Ht]);
          try (by apply elem_of_nil in Ht); try tauto.
        exfalso. apply Hnot. repeat constructor.
      * intros [[-> H]|[[-> H]|[[-> H]|[-> H]]]];
          (split; [not_among|]); right.
        -- destruct H; [exists win|exists pc]; split; try done; repeat constructor.
        -- destruct H; [exists mac|exists pc]; split; try done; repeat constructor.
        -- destruct H; [exists linux|exists pc]; split; try done;
             repeat constructor.
        -- destruct H; [exists android|exists mobile]; split; try done;
             repeat constructor.
    + intros _ Hnil ua Hin. apply Hua in Hin as [Hin|(typ & l & Hl & Hin)].
      * rewrite Hnil in Hin. by apply elem_of_nil in Hin.
      * by eapply type_func_dict_stripped.
  - destruct Hloop as (typ & -> & Hin & Hnone).
    assert (typ ∉ dev_types) as Hnot.
    { intros Hd. apply (proj2 (type_func_dict_known self typ)) in Hd.
      rewrite Hnone in Hd. by destruct Hd. }
    split_and!; [done| |by intros ? [= <-]; eauto|done|done].
    split; [done|]. intros Hall.
    by pose proof (proj1 (Forall_forall _ _) Hall typ Hin).
Qed.

(** [init] knows the seven device types and no other: it ends well
    exactly when every type of the pool is one of them, and stops with
    [KeyError] at a type that is not (at "compatible", for one).  On a
    pool as [__init__] leaves it, the types it then holds for the
    generator are win, mac, linux and android only: "pc" stands for the
    first three, "mobile" for android, and "ios" is dropped.  The user
    agents it loads are stripped lines. *)
Theorem init_knows_seven_device_types self :
  let r := init files self in
  init_flag r.2 = true /\
  (r.1 = Ok tt <-> Forall (fun typ => typ ∈ dev_types) (types self)) /\
  (forall e,
     r.1 = Raise e ->
     exists typ, e = KeyError typ /\ typ ∈ types self /\ typ ∉ dev_types) /\
  (compatible ∉ dev_types) /\
  (r.1 = Ok tt -> os_types self = [] ->
   forall t,
     t ∈ os_types r.2 <->
     (t = win /\ (win ∈ types self \/ pc ∈ types self)) \/
     (t = mac /\ (mac ∈ types self \/ pc ∈ types self)) \/
     (t = linux /\ (linux ∈ types self \/ pc ∈ types self)) \/
     (t = android /\ (android ∈ types self \/ mobile ∈ types self))) /\
  (r.1 = Ok tt -> user_agents self = [] ->
   forall ua, ua ∈ user_agents r.2 ->
     ua ≠ "" /\ strip ua = ua /\ lstrip ua = ua /\ rstrip ua = ua).
Proof.
  intros r. destruct (init_spec self) as (H1 & H2 & H3 & H4 & H5).
  split_and!; try done. not_among.
Qed.

Lemma get_initialised self draw :
  init_flag self = true ->
  (get files generate_user_agent self draw).2 = self /\
  is_ok (get files generate_user_agent self draw).1 = true.
Proof.
  intros Hflag. unfold get. rewrite Hflag. cbn [fst snd].
  destruct (if with_random_ua self then generate_user_agent else None);
    [done|]. by destruct (user_agents self).
Qed.

Lemma get_sets_flag self draw :
  init_flag (get files generate_user_agent self draw).2 = true.
Proof.
  destruct (init_flag self) eqn:Hflag.
  - by rewrite (proj1 (get_initialised self draw Hflag)).
  - unfold get. rewrite Hflag. destruct (init_spec self) as [Hinit _].
    destruct (init files self) as [[[]|e] self']; cbn [fst snd] in *; [|done].
    destruct (if with_random_ua self' then generate_user_agent else None);
      [done|]. by destruct (user_agents self').
Qed.

(** [get] initialises the pool once: the first call sets the flag even
    when [init] stops with [KeyError], and from then on [get] neither
    raises nor changes the pool.  Without the generator it returns one of
    the user agents loaded, or the empty string when none is loaded; with
    it, what the generator makes of the types held, which on a pool as
    [__init__] leaves it are among win, mac, linux and android. *)
Theorem get_initialises_once self draw :
  let r := get files generate_user_agent self draw in
  init_flag r.2 = true /\
  (forall draw',
     is_ok (get files generate_user_agent r.2 draw').1 = true /\
     (get files generate_user_agent r.2 draw').2 = r.2) /\
  (forall ua,
     r.1 = Ok ua ->
     with_random_ua self = false \/ generate_user_agent = None ->
     ua = "" /\ user_agents r.2 = [] \/ ua ∈ user_agents r.2) /\
  (forall ua generate,
     r.1 = Ok ua ->
     with_random_ua self = true -> generate_user_agent = Some generate ->
     ua = generate (os_types r.2) /\
     (init_flag self = false -> os_types self = [] ->
      forall t, t ∈ os_types r.2 -> t ∈ [win; mac; linux; android])).
Proof.
  intros r. subst r. split_and!.
  - apply get_sets_flag.
  - intros draw'. split; by apply get_initialised, get_sets_flag.
  - intros ua Hget Hoff. unfold get in *.
    destruct (init_flag self).
    + cbn [fst snd] in *.
      replace (if with_random_ua self then generate_user_agent else None)
        with (@None (list string -> string)) in *
        by (destruct Hoff as [-> | ->]; [done|by destruct (with_random_ua _)]).
      destruct (user_agents self) as [|x l] eqn:Hl; cbn [fst snd] in *.
      * left. by injection Hget as <-.
      * right. injection Hget as <-. rewrite Hl.
        apply list_elem_of_In.
        exact (nth_In (x :: l) x
                 (Nat.mod_upper_bound draw (length (x :: l)) (Nat.neq_succ_0 _))).
    + assert (with_random_ua (init files self).2 = with_random_ua self) as Hw.
      { unfold init. cbv zeta. by destruct (init_loop _ _ _ _).1. }
      destruct (init files self) as [[[]|e] self']; cbn [fst snd] in *;
        [|done].
      assert ((if with_random_ua self' then generate_user_agent else None)
              = None) as Hnone
        by (rewrite Hw; destruct Hoff as [-> | ->];
            [done|by destruct (with_random_ua self)]).
      rewrite Hnone in *.
      destruct (user_agents self') as [|x l] eqn:Hl; cbn [fst snd] in *.
      * left. by injection Hget as <-.
      * right. injection Hget as <-. rewrite Hl.
        apply list_elem_of_In.
        exact (nth_In (x :: l) x
                 (Nat.mod_upper_bound draw (length (x :: l)) (Nat.neq_succ_0 _))).
  - intros ua generate Hget Hon Hgen. unfold get in *.
    destruct (init_flag self) eqn:Hflag.
    + cbn [fst snd] in *. rewrite Hon, Hgen in *. cbn [fst snd] in *.
      split; [by injection Hget as <-|]. intros; discriminate.
    + assert (with_random_ua (init files self).2 = with_random_ua self) as Hw.
      { unfold init. cbv zeta. by destruct (init_loop _ _ _ _).1. }
      destruct (init_spec self) as (_ & _ & _ & Hos & _).
      destruct (init files self) as [[[]|e] self']; cbn [fst snd] in *;
        [|done].
      rewrite Hw, Hon, Hgen in *. cbn [fst snd] in *.
      split; [by injection Hget as <-|].
      intros _ Hnil t Ht. apply (Hos eq_refl Hnil) in Ht.
      destruct Ht as [[-> _]|[[-> _]|[[-> _]|[-> _]]]]; repeat constructor.
Qed.
End UserAgentFacts.

Section UserAgentExamples.
Import Py UserAgentPool.

Lemma user_agents_of_a_file_are_stripped_witness :
  get_ua_from_file ua_files (new "/home/u" [] false "/ua") "linux.txt" = [] /\
  get_ua_from_file ua_files (new "/home/u" [] false "/ua") "windows.txt"
  = filter (fun x => x ≠ "")
      (strip <$> ["  Mozilla/5.0 (Windows NT 10.0)  "; ""; "Opera/9.80"]) /\
  ("Opera/9.80" ≠ "" /\ strip "Opera/9.80" = "Opera/9.80" /\
   lstrip "Opera/9.80" = "Opera/9.80" /\ rstrip "Opera/9.80" = "Opera/9.80").
Proof.
  pose proof (user_agents_of_a_file_are_stripped ua_files
                (new "/home/u" [] false "/ua") "linux.txt") as (H1 & _ & _).
  pose proof (user_agents_of_a_file_are_stripped ua_files
                (new "/home/u" [] false "/ua") "windows.txt") as (_ & H2 & H3).
  split; [|split].
  - apply H1. reflexivity.
  - apply H2. reflexivity.
  - apply H3. vm_compute. repeat constructor.
Defined.

Lemma init_knows_seven_device_types_witness :
  (exists typ,
     KeyError "compatible" = KeyError typ /\
     typ ∈ types (new "/home/u" [compatible] false "/ua") /\
     typ ∉ dev_types) /\
  (forall t,
     t ∈ os_types (init ua_files (new "/home/u" [pc; mobile; ios] false "/ua")).2
     <->
     (t = win /\ (win ∈ [pc; mobile; ios] \/ pc ∈ [pc; mobile; ios])) \/
     (t = mac /\ (mac ∈ [pc; mobile; ios] \/ pc ∈ [pc; mobile; ios])) \/
     (t = linux /\ (linux ∈ [pc; mobile; ios] \/ pc ∈ [pc; mobile; ios])) \/
     (t = android
      /\ (android ∈ [pc; mobile; ios] \/ mobile ∈ [pc; mobile; ios]))).
Proof.
  pose proof (init_knows_seven_device_types ua_files
                (new "/home/u" [compatible] false "/ua"))
    as (_ & _ & H1 & _).
  pose proof (init_knows_seven_device_types ua_files
                (new "/home/u" [pc; mobile; ios] false "/ua"))
    as (_ & _ & _ & _ & H2 & _).
  split.
  - apply H1. vm_compute. reflexivity.
  - apply H2; [vm_compute; reflexivity | reflexivity].
Defined.

Lemma get_initialises_once_witness :
  ("Opera/9.80" = "" /\
   user_agents (get ua_files None (new "/home/u" [] false "/ua") 1).2 = [] \/
   "Opera/9.80"
   ∈ user_agents (get ua_files None (new "/home/u" [] false "/ua") 1).2) /\
  "win,mac"
  = (fun os => String.concat "," os)
      (os_types (get ua_files (Some (String.concat ","))
                   (new "/home/u" [] true "/ua") 0).2).
Proof.
  pose proof (get_initialises_once ua_files None
                (new "/home/u" [] false "/ua") 1) as (_ & _ & H1 & _).
  pose proof (get_initialises_once ua_files (Some (String.concat ","))
                (new "/home/u" [] true "/ua") 0) as (_ & _ & _ & H2).
  split.
  - apply H1; [vm_compute; reflexivity | by left].
  - apply (H2 "win,mac" (String.concat ",")); [vm_compute|..]; reflexivity.
Defined.
End UserAgentExamples.

(** ** Downloader.convert_http_protocol and Downloader.download *)

Section DownloaderMore.
Import Py Downloader.

Lemma startswith_spec p s :
  startswith p s = true <-> exists rest, s = p +:+ rest.
Proof.
  revert s. induction p as [|a p IH]; intros s; cbn.
  - split; [eauto|done].
  - destruct s as [|b s].
    + split; [done|]. intros [rest H].
      change (EmptyString = String a (p +:+ rest)) in H. discriminate.
    + destruct (Ascii.eqb_spec a b) as [->|Hne].
      * rewrite IH. split; intros [rest H]; exists rest.
        -- exact (f_equal (String b) H).
        -- change (String b s = String b (p +:+ rest)) in H. congruence.
      * split; [done|]. intros [rest H].
        change (String b s = String a (p +:+ rest)) in H. congruence.
Qed.

(** Conversion is its own inverse on the URLs that begin with "http:"
    or "https:", be they plain or in a dictionary, and it does change
    them; a URL that begins with neither "https" nor "http:" comes back as
    it is.  The conversion fails exactly when the URL is missing or is no
    string, and then with [AttributeError]. *)
Theorem convert_http_protocol_is_its_own_inverse :
  (forall u,
     startswith "http:" u = true \/ startswith "https:" u = true ->
     exists u',
       u' ≠ u /\
       convert_http_protocol (Url u) = Ok (Url u') /\
       convert_http_protocol (Url u') = Ok (Url u) /\
       forall d, d !! "url" = Some (VStr u) ->
         convert_http_protocol (Structured d)
         = Ok (Structured (<["url" := VStr u']> d)) /\
         convert_http_protocol (Structured (<["url" := VStr u']> d))
         = Ok (Structured d)) /\
  (forall u,
     startswith "https" u = false -> startswith "http:" u = false ->
     convert_http_protocol (Url u) = Ok (Url u)) /\
  (forall request,
     (exists request', convert_http_protocol request = Ok request')
     <-> url_is_str request) /\
  (forall request e,
     convert_http_protocol request = Raise e ->
     e = AttributeError "object has no attribute 'startswith'").
Proof.
  split_and!.
  - assert (forall u u' d,
              convert_http_protocol (Url u) = Ok (Url u') ->
              convert_http_protocol (Url u') = Ok (Url u) ->
              d !! "url" = Some (VStr u) ->
              convert_http_protocol (Structured d)
              = Ok (Structured (<["url" := VStr u']> d)) /\
              convert_http_protocol (Structured (<["url" := VStr u']> d))
              = Ok (Structured d)) as Hd.
    { intros u u' d H1 H2 Hu. unfold convert_http_protocol in *.
      rewrite Hu, lookup_insert_eq. cbn in *.
      injection H1 as ->. injection H2 as H2.
      split; [done|]. rewrite H2, insert_insert_eq. by rewrite insert_id. }
    intros u [[rest ->]%startswith_spec|[rest ->]%startswith_spec].
    + exists ("https:" +:+ rest). split_and!; [done|done|done|].
      intros d. by apply Hd.
    + exists ("http:" +:+ rest). split_and!; [done|done|done|].
      intros d. by apply Hd.
  - intros u H1 H2. unfold convert_http_protocol. by rewrite H1, H2.
  - intros [u|d]; cbn.
    + split; [done|]. intros _. unfold convert_http_protocol. eauto.
    + unfold convert_http_protocol.
      destruct (d !! "url") as [[| | | |u| |]|]; cbn;
        (split; [intros [? [=]]; eauto | intros [? [=]]; eauto]).
  - intros request e. unfold convert_http_protocol.
    destruct request as [u|d]; cbn; [done|].
    by destruct (d !! "url") as [[| | | |u| |]|]; cbn; intros [= <-].
Qed.

(** What [download] logs.  A response that counts as false is reported
    with its status and URL when [show_fail_log] is on; a response that
    counts as true, and no response, are not.  When both calls of the
    dispatcher fail, one record is written, and it carries the exception
    of the first call, not that of the second; when the conversion of the
    request fails, nothing is logged. *)
Theorem download_logs_the_first_exception :
  forall (W : Type) logger _download self request kwargs (w : W),
    let r := download (recording logger) (unrecorded _download) self
               request kwargs (w, []) in
    let failed (response : option Response) :=
      match response with
      | Some resp =>
          if negb (truth resp) && show_fail_log self
          then [LogError ("download failed: " +:+ pretty (status_code resp)
                          +:+ " " +:+ url resp)]
          else []
      | None => []
      end in
    (forall response w1,
       _download request kwargs w = (Ok response, w1) ->
       r.2.2 = failed response) /\
    (forall e1 w1 request',
       _download request kwargs w = (Raise e1, w1) ->
       convert_http_protocol request = Ok request' ->
       (forall response w2,
          _download request' kwargs w1 = (Ok response, w2) ->
          r.2.2 = failed response) /\
       (forall e2 w2,
          _download request' kwargs w1 = (Raise e2, w2) ->
          r.1 = Ok None /\
          r.2.2 = [if show_error_log self then LogException (Some e1)
                   else LogError ("download exception: " +:+ exn_str e1)])) /\
    (forall e1 w1 e',
       _download request kwargs w = (Raise e1, w1) ->
       convert_http_protocol request = Raise e' ->
       r.1 = Raise e' /\ r.2.2 = []).
Proof.
  intros W logger _download self request kwargs w r failed. subst r failed.
  unfold download, download_loop, unrecorded, recording. cbn [fst snd].
  split_and!.
  - intros response w1 ->. cbn [fst snd].
    destruct response as [resp|]; [|done].
    by destruct (negb (truth resp) && show_fail_log self).
  - intros e1 w1 request' -> ->. cbn [fst snd]. split.
    + intros response w2 ->. cbn [fst snd].
      destruct response as [resp|]; [|done].
      by destruct (negb (truth resp) && show_fail_log self).
    + intros e2 w2 ->. cbn [fst snd negb].
      by destruct (show_error_log self).
  - intros e1 w1 e' -> ->. done.
Qed.
End DownloaderMore.

Lemma convert_http_protocol_is_its_own_inverse_witness :
  exists u',
    u' ≠ "http://a.com/x" /\
    Downloader.convert_http_protocol (Downloader.Url "http://a.com/x")
    = Ok (Downloader.Url u') /\
    Downloader.convert_http_protocol (Downloader.Url u')
    = Ok (Downloader.Url "http://a.com/x") /\
    forall d, d !! "url" = Some (Py.VStr "http://a.com/x") ->
      Downloader.convert_http_protocol (Downloader.Structured d)
      = Ok (Downloader.Structured (<["url" := Py.VStr u']> d)) /\
      Downloader.convert_http_protocol
        (Downloader.Structured (<["url" := Py.VStr u']> d))
      = Ok (Downloader.Structured d).
Proof.
  destruct convert_http_protocol_is_its_own_inverse as (H & _).
  apply H. left. reflexivity.
Defined.

Lemma download_logs_the_first_exception_witness :
  let r := Downloader.download (Downloader.recording Downloader.no_logger)
             (Downloader.unrecorded Downloader.offline)
             (Downloader.plain false) (Downloader.Url "http://a.com/x") ∅
             (0%nat, []) in
  r.1 = Ok None /\
  r.2.2 = [if Downloader.show_error_log (Downloader.plain false)
           then Downloader.LogException
                  (Some (TransportError "connection refused"))
           else Downloader.LogError
                  ("download exception: "
                   +:+ Py.exn_str (TransportError "connection refused"))].
Proof.
  intros r.
  destruct (download_logs_the_first_exception nat Downloader.no_logger
              Downloader.offline (Downloader.plain false)
              (Downloader.Url "http://a.com/x") ∅ 0%nat) as (_ & H & _).
  destruct (H (TransportError "connection refused") 1%nat
              (Downloader.Url "https://a.com/x") eq_refl eq_refl) as [_ H2].
  apply (H2 (TransportError "connection refused") 2%nat). reflexivity.
Defined.

(** ** Downloader.prepare_request, option by option *)

Ltac look_up :=
  repeat first
    [ rewrite lookup_delete_ne by done
    | rewrite lookup_insert_ne by done
    | rewrite lookup_insert_eq
    | rewrite lookup_delete_eq
    | rewrite lookup_setdefault
    | rewrite decide_True by done
    | rewrite decide_False by done ].

Section PrepareMore.
Import Py Downloader.
Variable util_format_headers : gmap string value -> gmap string value.
Variable self : downloader.

Lemma default_headers_spec w :
  exists w1,
    default_headers self w
    = (match (if user_agent_pool self then next_outcome UserAgent w
              else Ok (VStr "")) with
       | Ok ua =>
           Ok (_custom_headers self ∪
               {[ "User-Agent" := ua;
                  "Accept" := VStr "*/*";
                  "Accept-Encoding" := VStr "gzip, deflate";
                  "Connection" := VStr "keep-alive" ]})
       | Raise e => Raise e
       end, w1) /\
    trace w1 = trace w ++ (if user_agent_pool self then [PoolGet UserAgent]
                           else []) /\
    (forall q, q ≠ UserAgent -> pools w1 q = pools w q) /\
    network w1 = network w /\ clock w1 = clock w.
Proof.
  unfold default_headers. destruct (user_agent_pool self).
  - destruct (pool_get_spec UserAgent w) as (w1 & Hget & Htr & Hp & Hn & Hc).
    exists w1. unfold bind. rewrite Hget.
    by destruct (next_outcome UserAgent w).
  - exists w. cbn. rewrite app_nil_r. done.
Qed.

(** The headers [request_headers] builds and the pools it asks, up to
    the first pool that raises. *)
Lemma request_headers_spec headers w :
  let given := match headers with VDict hd => hd | _ => ∅ end in
  let defaults : gmap string value :=
    if use_default_headers self
    then _custom_headers self ∪
         {[ "User-Agent" := if user_agent_pool self
                            then next_answer UserAgent w else VStr "";
            "Accept" := VStr "*/*";
            "Accept-Encoding" := VStr "gzip, deflate";
            "Connection" := VStr "keep-alive" ]}
    else ∅ in
  let cookie := next_answer Cookie w in
  let pooled : bool := cookie_pool self && truthy cookie in
  let from_cookie_pool : gmap string value :=
    match cookie with
    | VDict _ => ∅
    | _ => if pooled then {[ "Cookie" := cookie ]} else ∅
    end in
  let jar : gmap string value :=
    match cookie with
    | VDict d => if pooled then d else ∅
    | _ => ∅
    end in
  let from_referer_pool : gmap string value :=
    if referer_pool self then {[ "Referer" := next_answer Referer w ]}
    else ∅ in
  let raw := given ∪ (from_referer_pool ∪ (from_cookie_pool ∪ defaults)) in
  let ua_asked := use_default_headers self && user_agent_pool self in
  let ua_out := if ua_asked then next_outcome UserAgent w else Ok VNone in
  let ck_out := if cookie_pool self then next_outcome Cookie w else Ok VNone in
  let rf_out :=
    if referer_pool self then next_outcome Referer w else Ok VNone in
  let ua_ev := if ua_asked then [PoolGet UserAgent] else [] in
  let ck_ev := if cookie_pool self then [PoolGet Cookie] else [] in
  let rf_ev := if referer_pool self then [PoolGet Referer] else [] in
  let r := request_headers util_format_headers self headers w in
  pools r.2 Proxy = pools w Proxy /\
  (network r.2 = network w /\ clock r.2 = clock w) /\
  match ua_out with
  | Raise e => r.1 = Raise e /\ trace r.2 = trace w ++ [PoolGet UserAgent]
  | Ok _ =>
      match ck_out with
      | Raise e =>
          r.1 = Raise e /\ trace r.2 = trace w ++ ua_ev ++ [PoolGet Cookie]
      | Ok _ =>
          match rf_out with
          | Raise e =>
              r.1 = Raise e /\
              trace r.2 = trace w ++ ua_ev ++ ck_ev ++ [PoolGet Referer]
          | Ok _ =>
              trace r.2 = trace w ++ ua_ev ++ ck_ev ++ rf_ev /\
              (dict_or_falsy headers ->
               r.1 = Ok (if format_headers self
                         then util_format_headers raw else raw, jar)) /\
              (~ dict_or_falsy headers -> is_ok r.1 = false)
          end
      end
  end.
Proof.
  intros given defaults cookie pooled from_cookie_pool jar
    from_referer_pool raw ua_asked ua_out ck_out rf_out ua_ev ck_ev rf_ev r.
  subst r. unfold request_headers.
  assert (exists w1,
            (if use_default_headers self then default_headers self
             else ret ∅) w
            = (match ua_out with
               | Ok _ => Ok defaults
               | Raise e => Raise e
               end, w1) /\
            trace w1 = trace w ++ ua_ev /\
            (forall q, q ≠ UserAgent -> pools w1 q = pools w q) /\
            network w1 = network w /\ clock w1 = clock w)
    as (w1 & H1 & Ht1 & Hp1 & Hn1 & Hc1).
  { subst defaults ua_out ua_ev ua_asked.
    destruct (use_default_headers self); cbn [andb].
    - destruct (default_headers_spec w) as (w1 & -> & Hrest).
      exists w1. split; [|done].
      destruct (user_agent_pool self); [|done].
      destruct (next_outcome UserAgent w) as [ua|e] eqn:Hua; [|done].
      by rewrite (next_outcome_answer _ _ _ Hua).
    - exists w. cbn. by rewrite app_nil_r. }
  destruct ua_out as [ua|e] eqn:Hua.
  2: { assert (ua_ev = [PoolGet UserAgent]) as Hev.
       { subst ua_out ua_ev. by destruct ua_asked. }
       rewrite Hev in Ht1. rewrite (bind_fail _ _ _ _ _ H1). cbn [fst snd].
       split_and!; try done; [by rewrite Hp1]. }
  rewrite (bind_run _ _ _ _ _ H1).
  assert (exists w2,
            (if cookie_pool self then
               let* _cookie := pool_get Cookie in
               if truthy _cookie then
                 match _cookie with
                 | VDict d => ret (defaults, d)
                 | _ => ret (<["Cookie" := _cookie]> defaults, ∅)
                 end
               else ret (defaults, ∅)
             else ret (defaults, ∅)) w1
            = (match ck_out with
               | Ok _ => Ok (from_cookie_pool ∪ defaults, jar)
               | Raise e => Raise e
               end, w2) /\
            trace w2 = trace w1 ++ ck_ev /\
            (forall q, q ≠ Cookie -> pools w2 q = pools w1 q) /\
            network w2 = network w1 /\ clock w2 = clock w1)
    as (w2 & H2 & Ht2 & Hp2 & Hn2 & Hc2).
  { assert (next_outcome Cookie w1 = next_outcome Cookie w) as Hc
      by (unfold next_outcome; by rewrite Hp1).
    subst from_cookie_pool jar pooled ck_out ck_ev.
    destruct (cookie_pool self); cbn [andb].
    - destruct (pool_get_spec Cookie w1) as (w2 & Hget & Htr & Hp & Hfeeds).
      exists w2. unfold bind. rewrite Hget, Hc. split; [|done].
      destruct (next_outcome Cookie w) as [ck|e] eqn:Hck; [|done].
      assert (cookie = ck) as ->
        by (by apply next_outcome_answer).
      destruct (truthy ck) eqn:Htc.
      + destruct ck; cbn [ret]; rewrite ?(left_id_L ∅ (∪));
          rewrite ?insert_union_singleton_l; done.
      + destruct ck; cbn [ret]; by rewrite (left_id_L ∅ (∪)).
    - exists w1. rewrite app_nil_r. split; [|done].
      destruct cookie; cbn [ret]; by rewrite (left_id_L ∅ (∪)). }
  destruct ck_out as [ck|e] eqn:Hck.
  2: { assert (ck_ev = [PoolGet Cookie]) as Hev.
       { subst ck_out ck_ev. by destruct (cookie_pool self). }
       rewrite Hev in Ht2. rewrite (bind_fail _ _ _ _ _ H2). cbn [fst snd].
       split_and!; try done;
         [by rewrite Hp2, Hp1|congruence|congruence|].
       by rewrite Ht2, Ht1, <- app_assoc. }
  rewrite (bind_run _ _ _ _ _ H2).
  assert (exists w3,
            (if referer_pool self then
               let* _referer := pool_get Referer in
               ret (<["Referer" := _referer]> (from_cookie_pool ∪ defaults))
             else ret (from_cookie_pool ∪ defaults)) w2
            = (match rf_out with
               | Ok _ =>
                   Ok (from_referer_pool ∪ (from_cookie_pool ∪ defaults))
               | Raise e => Raise e
               end, w3) /\
            trace w3 = trace w2 ++ rf_ev /\
            (forall q, q ≠ Referer -> pools w3 q = pools w2 q) /\
            network w3 = network w2 /\ clock w3 = clock w2)
    as (w3 & H3 & Ht3 & Hp3 & Hn3 & Hc3).
  { assert (next_outcome Referer w2 = next_outcome Referer w) as Hr
      by (unfold next_outcome; by rewrite Hp2, Hp1).
    subst from_referer_pool rf_out rf_ev.
    destruct (referer_pool self).
    - destruct (pool_get_spec Referer w2) as (w3 & Hget & Htr & Hp & Hfeeds).
      exists w3. unfold bind. rewrite Hget, Hr. split; [|done].
      destruct (next_outcome Referer w) as [rf|e] eqn:Hrf; [|done].
      rewrite (next_outcome_answer _ _ _ Hrf). cbn [ret].
      by rewrite insert_union_singleton_l.
    - exists w2. rewrite app_nil_r. by rewrite (left_id_L ∅ (∪)). }
  destruct rf_out as [rf|e] eqn:Hrf.
  2: { assert (rf_ev = [PoolGet Referer]) as Hev.
       { subst rf_out rf_ev. by destruct (referer_pool self). }
       rewrite Hev in Ht3. rewrite (bind_fail _ _ _ _ _ H3). cbn [fst snd].
       split_and!; try done;
         [by rewrite Hp3, Hp2, Hp1|congruence|congruence|].
       by rewrite Ht3, Ht2, Ht1, <- !app_assoc. }
  rewrite (bind_run _ _ _ _ _ H3).
  unfold bind.
  destruct (truthy headers) eqn:Hth.
  - destruct headers; cbn [fst snd raise ret] in *; try discriminate.
    all: split_and!; try done;
      try (by rewrite Hp3, Hp2, Hp1); try congruence;
      try (by rewrite Ht3, Ht2, Ht1, <- !app_assoc);
      try (by intros Hh; cbn in Hh; congruence).
  - cbn [fst snd ret].
    split_and!; try done;
      try (by rewrite Hp3, Hp2, Hp1); try congruence;
      try (by rewrite Ht3, Ht2, Ht1, <- !app_assoc).
    + intros _. subst raw given. do 2 f_equal.
      destruct headers; rewrite ?(left_id_L ∅ (∪)); try done.
      cbn in Hth. destruct (map_to_list d) eqn:Hl; [|done].
      apply map_to_list_empty_iff in Hl as ->.
      by rewrite (left_id_L ∅ (∪)).
    + intros Hh. destruct Hh. destruct headers; try done.
Qed.

Lemma dict_or_falsy_dec v : dict_or_falsy v \/ ~ dict_or_falsy v.
Proof.
  unfold dict_or_falsy. destruct v; try (by left);
    match goal with
    | |- ?b = false \/ _ => destruct b; [right|left]; done
    end.
Qed.

(** The headers of a call of [request_headers] that returns. *)
Lemma request_headers_ok headers w h ck w1 :
  request_headers util_format_headers self headers w = (Ok (h, ck), w1) ->
  let given := match headers with VDict hd => hd | _ => ∅ end in
  let defaults : gmap string value :=
    if use_default_headers self
    then _custom_headers self ∪
         {[ "User-Agent" := if user_agent_pool self
                            then next_answer UserAgent w else VStr "";
            "Accept" := VStr "*/*";
            "Accept-Encoding" := VStr "gzip, deflate";
            "Connection" := VStr "keep-alive" ]}
    else ∅ in
  let cookie := next_answer Cookie w in
  let from_cookie_pool : gmap string value :=
    match cookie with
    | VDict _ => ∅
    | _ => if cookie_pool self && truthy cookie
           then {[ "Cookie" := cookie ]} else ∅
    end in
  let from_referer_pool : gmap string value :=
    if referer_pool self then {[ "Referer" := next_answer Referer w ]}
    else ∅ in
  let raw := given ∪ (from_referer_pool ∪ (from_cookie_pool ∪ defaults)) in
  dict_or_falsy headers /\
  h = (if format_headers self then util_format_headers raw else raw) /\
  trace w1
  = trace w
    ++ (if use_default_headers self && user_agent_pool self
        then [PoolGet UserAgent] else [])
    ++ (if cookie_pool self then [PoolGet Cookie] else [])
    ++ (if referer_pool self then [PoolGet Referer] else []).
Proof.
  intros H. pose proof (request_headers_spec headers w) as Hs.
  cbv zeta in *. rewrite H in Hs. cbn [fst snd] in Hs.
  destruct Hs as (_ & _ & Hs).
  repeat match type of Hs with
         | match ?o with Ok _ => _ | Raise _ => _ end =>
             destruct o; [|by destruct Hs]
         end.
  destruct Hs as (Ht & Hok & Hbad).
  destruct (dict_or_falsy_dec headers) as [Hh|Hh];
    [|by specialize (Hbad Hh)].
  specialize (Hok Hh). by injection Hok as -> _.
Qed.

Lemma request_defaults_other kwargs w kw2 w2 k :
  request_defaults self kwargs w = (Ok kw2, w2) ->
  k ≠ "verify" -> k ≠ "proxies" -> k ≠ "stream" -> k ≠ "timeout" ->
  kw2 !! k = kwargs !! k.
Proof.
  intros H ? ? ? ?.
  pose proof (request_defaults_spec self kwargs w) as Hd. cbv zeta in Hd.
  rewrite H in Hd. cbn [fst snd] in Hd.
  destruct (kwargs !! "proxies") as [px|].
  - injection Hd as -> _. by look_up.
  - destruct (proxy_enable self).
    + destruct Hd as [_ Hd].
      destruct (next_outcome Proxy w) as [proxies|e]; [|done].
      destruct (truthy proxies); [|done].
      injection Hd as ->. by look_up.
    + injection Hd as -> _. by look_up.
Qed.

(** [prepare_request] leaves the network and the clock alone. *)
Lemma prepare_request_feeds request kwargs w :
  let r := prepare_request util_format_headers self request kwargs w in
  network r.2 = network w /\ clock r.2 = clock w.
Proof.
  cbv zeta. rewrite prepare_request_stages. cbv zeta.
  set (opts := options request kwargs).
  set (hv := default (VDict ∅) (opts !! "headers")).
  pose proof (request_headers_spec hv w) as Hs. cbv zeta in Hs.
  destruct Hs as (_ & [Hn Hc] & _).
  destruct (request_headers util_format_headers self hv w)
    as [[[headers ck]|e] w1]; cbn [fst snd] in *; [|done].
  set (kw1 := <["headers" := VDict headers]> (delete "headers" opts)).
  assert (network (request_defaults self kw1 w1).2 = network w /\
          clock (request_defaults self kw1 w1).2 = clock w) as Hd.
  { pose proof (request_defaults_spec self kw1 w1) as Hd. cbv zeta in Hd.
    destruct (kw1 !! "proxies"); [by rewrite Hd|].
    destruct (proxy_enable self); [|by rewrite Hd].
    destruct Hd as [-> _].
    destruct (pool_get_spec Proxy w1) as (w2 & -> & _ & _ & Hn2 & Hc2).
    cbn [snd]. by rewrite Hn2, Hc2, Hn, Hc. }
  destruct (request_defaults self kw1 w1) as [[kw2|e] w2];
    cbn [fst snd] in *; [|done].
  destruct (request_cookies_spec self (default VNone (kw2 !! "session"))
              headers ck (delete "session" kw2) w2) as (Hw & _).
  destruct (request_cookies _ _ _ _ _ w2) as [[kw3|e] w3];
    cbn [fst snd] in *; by subst w3.
Qed.

(** How a call of [prepare_request] that returns ends. *)
Lemma prepare_request_tail request kwargs w s m u kw' w' :
  prepare_request util_format_headers self request kwargs w
  = (Ok (s, m, u, kw'), w') ->
  let opts := options request kwargs in
  let method := default (VStr "GET") (opts !! "method") in
  dict_or_falsy (default (VDict ∅) (opts !! "headers")) /\
  (exists headers ck,
     (request_headers util_format_headers self
        (default (VDict ∅) (opts !! "headers")) w).1 = Ok (headers, ck) /\
     kw' !! "headers" = Some (VDict headers)) /\
  kw' !! "url" = None /\ kw' !! "method" = None /\ kw' !! "session" = None /\
  u = match request with
      | Structured d => default VNone (d !! "url")
      | Url u => VStr u
      end /\
  m = if (bool_decide (is_Some (kw' !! "data"))
          || bool_decide (is_Some (kw' !! "json")))
         && eq_str method "GET"
      then VStr "POST" else method.
Proof.
  intros H opts method. subst method.
  rewrite prepare_request_stages in H. cbv zeta in H. fold opts in H.
  set (hv := default (VDict ∅) (opts !! "headers")) in *.
  destruct (request_headers util_format_headers self hv w)
    as [[[headers ck]|e] w1'] eqn:Hhd; [|done]. cbn [fst snd] in *.
  pose proof (request_headers_ok _ _ _ _ _ Hhd) as [Hgood _].
  destruct (request_defaults _ _ w1') as [[kw2|e] w2] eqn:Hd; [|done].
  cbn [fst snd] in *.
  pose proof (request_cookies_spec self (default VNone (kw2 !! "session"))
                headers ck (delete "session" kw2) w2) as (_ & _ & Hc).
  destruct (request_cookies _ _ _ _ _ w2) as [[kw3|e] w3]; [|done].
  cbn [fst snd] in *. destruct (Hc kw3 eq_refl) as (Hother & _ & _).
  injection H as <- <- <- <- <-.
  split_and!.
  - done.
  - exists headers, ck. split; [done|].
    rewrite !lookup_delete_ne, Hother, lookup_delete_ne by done.
    rewrite (request_defaults_other _ _ _ _ _ Hd) by done.
    apply lookup_insert_eq.
  - by rewrite lookup_delete_ne, lookup_delete_eq.
  - by rewrite lookup_delete_eq.
  - by rewrite !lookup_delete_ne, Hother, lookup_delete_eq.
  - done.
  - by rewrite !lookup_delete_ne.
Qed.

(** The options [prepare_request] returns are complete and clean: "url",
    "method" and "session" are taken out and returned beside them, and
    "verify", "stream", "timeout", "headers" and "cookies" are always
    there, with [False], the [stream] and the [timeout] of the downloader
    where the call gave none; every other option is passed on as
    given. *)
Theorem prepared_options_are_complete request kwargs w s m u kw' w' :
  prepare_request util_format_headers self request kwargs w
  = (Ok (s, m, u, kw'), w') ->
  let opts := options request kwargs in
  (kw' !! "url" = None /\ kw' !! "method" = None /\
   kw' !! "session" = None) /\
  s = default VNone (opts !! "session") /\
  u = match request with
      | Structured d => default VNone (d !! "url")
      | Url u => VStr u
      end /\
  kw' !! "verify" = Some (default (VBool false) (opts !! "verify")) /\
  kw' !! "stream" = Some (default (VBool (stream self)) (opts !! "stream")) /\
  kw' !! "timeout" = Some (default (timeout self) (opts !! "timeout")) /\
  (exists h, kw' !! "headers" = Some (VDict h)) /\
  is_Some (kw' !! "cookies") /\
  (forall k,
     k ∉ ["headers"; "verify"; "proxies"; "stream"; "timeout"; "session";
          "cookies"; "url"; "method"] ->
     kw' !! k = opts !! k).
Proof.
  intros H opts.
  pose proof (prepare_request_tail _ _ _ _ _ _ _ _ H)
    as (_ & _ & Hurl & Hmethod & Hsession & Hu & _).
  pose proof (prepare_request_ok _ _ _ _ _ _ _ _ _ _ H)
    as (Hs & Hv & Hst & Ht & _ & _ & Hc & (h & Hh & _) & Hk & _).
  split_and!; try done. by exists h.
Qed.

(** A request with a body is sent as POST unless the call names another
    method: with "data" or "json" among the options, be it with the value
    [None], a method that is missing or is "GET" becomes "POST"; any other
    method, "get" in small letters too, is kept; and without body the
    method is the one given, or "GET". *)
Theorem body_turns_get_into_post request kwargs w s m u kw' w' :
  prepare_request util_format_headers self request kwargs w
  = (Ok (s, m, u, kw'), w') ->
  let opts := options request kwargs in
  (is_Some (opts !! "data") \/ is_Some (opts !! "json") ->
   opts !! "method" = None \/ opts !! "method" = Some (VStr "GET") ->
   m = VStr "POST") /\
  (forall v, opts !! "method" = Some v -> v ≠ VStr "GET" -> m = v) /\
  (opts !! "data" = None -> opts !! "json" = None ->
   m = default (VStr "GET") (opts !! "method")).
Proof.
  intros H opts.
  pose proof (prepare_request_tail _ _ _ _ _ _ _ _ H)
    as (_ & _ & _ & _ & _ & _ & Hm).
  pose proof (prepare_request_ok _ _ _ _ _ _ _ _ _ _ H)
    as (_ & _ & _ & _ & _ & _ & _ & _ & Hk & _).
  fold opts in Hm, Hk.
  rewrite !Hk in Hm
    by (intros Hin; repeat (apply elem_of_cons in Hin as [?|Hin]; [done|]);
        by apply elem_of_nil in Hin).
  split_and!.
  - intros Hbody Hget.
    assert (bool_decide (is_Some (opts !! "data"))
            || bool_decide (is_Some (opts !! "json")) = true) as Hb.
    { apply orb_true_iff. rewrite !bool_decide_eq_true. done. }
    rewrite Hb in Hm. by destruct Hget as [Hg|Hg]; rewrite Hg in Hm.
  - intros v Hv Hne. rewrite Hv in Hm. cbn in Hm.
    assert (eq_str v "GET" = false) as Hf.
    { destruct v as [| | | |x| |]; cbn; try done.
      destruct (String.eqb_spec x "GET"); [by subst|done]. }
    by rewrite Hf, andb_false_r in Hm.
  - intros Hd Hj. rewrite Hd, Hj in Hm.
    rewrite !bool_decide_eq_false_2 in Hm by (by intros [? ?]). done.
Qed.

(** The headers of a request, by precedence: those of the call come
    first, then the Referer of the referer pool (whatever it returned),
    then the Cookie of the cookie pool (when it returned something that is
    true and no dictionary), then the headers added to the downloader,
    then its four default headers; the last two only when
    [use_default_headers] is on. *)
Theorem headers_by_precedence request kwargs w s m u kw' w' :
  prepare_request util_format_headers self request kwargs w
  = (Ok (s, m, u, kw'), w') ->
  let opts := options request kwargs in
  let given :=
    match opts !! "headers" with Some (VDict hd) => hd | _ => ∅ end in
  let cookie := next_answer Cookie w in
  let from_cookie_pool : gmap string value :=
    match cookie with
    | VDict _ => ∅
    | _ => if cookie_pool self && truthy cookie
           then {[ "Cookie" := cookie ]} else ∅
    end in
  let from_referer_pool : gmap string value :=
    if referer_pool self then {[ "Referer" := next_answer Referer w ]}
    else ∅ in
  let defaults : gmap string value :=
    if use_default_headers self
    then _custom_headers self ∪
         {[ "User-Agent" := if user_agent_pool self
                            then next_answer UserAgent w else VStr "";
            "Accept" := VStr "*/*";
            "Accept-Encoding" := VStr "gzip, deflate";
            "Connection" := VStr "keep-alive" ]}
    else ∅ in
  let raw := given ∪ (from_referer_pool ∪ (from_cookie_pool ∪ defaults)) in
  kw' !! "headers"
  = Some (VDict (if format_headers self then util_format_headers raw
                 else raw)).
Proof.
  intros H opts given cookie from_cookie_pool from_referer_pool defaults raw.
  pose proof (prepare_request_tail _ _ _ _ _ _ _ _ H)
    as (Hok & (headers & ck & Hh & ->) & _).
  fold opts in Hok, Hh.
  destruct (request_headers util_format_headers self
              (default (VDict ∅) (opts !! "headers")) w)
    as [o w1] eqn:Hrun.
  cbn [fst] in Hh. subst o.
  pose proof (request_headers_ok _ _ _ _ _ Hrun) as (_ & -> & _).
  subst raw given. by destruct (opts !! "headers") as [[]|].
Qed.

Lemma elem_of_removelast {A} (l : list A) x : x ∈ removelast l -> x ∈ l.
Proof.
  induction l as [|a [|b l] IH]; cbn; [done|by intros ?%elem_of_nil|].
  intros [->|Hx]%elem_of_cons; [by left|]. right. by apply IH.
Qed.

(** Preparing a request asks the pools in the order user agents,
    cookies, referers, proxies, each at most once, and does nothing else
    to the outside.  The pools asked are a beginning of the list of those
    the downloader and the call provide for: the user-agent pool when
    the default headers are on, the cookie pool when there is one, the
    referer pool when it counts as true, each of them even when the call
    brings the header itself, and the proxy pool when proxies are on and
    the call brings none.  A preparation that returns has asked them
    all.  Every pool asked but the last has returned; when the last one
    raises, its error ends the preparation, and no later pool is
    asked. *)
Theorem prepare_asks_each_pool_once request kwargs w :
  let opts := options request kwargs in
  let r := prepare_request util_format_headers self request kwargs w in
  let provided : list pool_id :=
    (if use_default_headers self && user_agent_pool self
     then [UserAgent] else [])
    ++ (if cookie_pool self then [Cookie] else [])
    ++ (if referer_pool self then [Referer] else [])
    ++ (if proxy_enable self && bool_decide (opts !! "proxies" = None)
        then [Proxy] else []) in
  exists asked : list pool_id,
    news w r.2 = PoolGet <$> asked /\
    asked `prefix_of` provided /\
    (is_ok r.1 = true -> asked = provided) /\
    (forall p, p ∈ removelast asked -> is_ok (next_outcome p w) = true) /\
    (forall p e,
       last asked = Some p -> next_outcome p w = Raise e -> r.1 = Raise e).
Proof.
  intros opts r provided. subst r provided.
  rewrite prepare_request_stages. cbv zeta.
  fold opts. set (hv := default (VDict ∅) (opts !! "headers")).
  pose proof (request_headers_spec hv w) as Hs. cbv zeta in Hs.
  set (ua_asked := use_default_headers self && user_agent_pool self) in *.
  set (ua_l := if ua_asked then [UserAgent] else []).
  set (ck_l := if cookie_pool self then [Cookie] else []).
  set (rf_l := if referer_pool self then [Referer] else []).
  set (px_l := if proxy_enable self && bool_decide (opts !! "proxies" = None)
               then [Proxy] else []).
  assert ((if ua_asked then [PoolGet UserAgent] else []) = PoolGet <$> ua_l)
    as Hual by (subst ua_l; by destruct ua_asked).
  assert ((if cookie_pool self then [PoolGet Cookie] else [])
          = PoolGet <$> ck_l)
    as Hckl by (subst ck_l; by destruct (cookie_pool self)).
  assert ((if referer_pool self then [PoolGet Referer] else [])
          = PoolGet <$> rf_l)
    as Hrfl by (subst rf_l; by destruct (referer_pool self)).
  rewrite Hual, Hckl, Hrfl in Hs.
  set (ua_out := if ua_asked then next_outcome UserAgent w else Ok VNone)
    in *.
  set (ck_out := if cookie_pool self then next_outcome Cookie w
                 else Ok VNone) in *.
  set (rf_out := if referer_pool self then next_outcome Referer w
                 else Ok VNone) in *.
  assert (forall v, ua_out = Ok v ->
            forall p, p ∈ ua_l -> is_ok (next_outcome p w) = true) as Fua.
  { intros v Hv p. subst ua_l ua_out. destruct ua_asked.
    - intros ->%list_elem_of_singleton. by rewrite Hv.
    - by intros ?%elem_of_nil. }
  assert (forall v, ck_out = Ok v ->
            forall p, p ∈ ck_l -> is_ok (next_outcome p w) = true) as Fck.
  { intros v Hv p. subst ck_l ck_out. destruct (cookie_pool self).
    - intros ->%list_elem_of_singleton. by rewrite Hv.
    - by intros ?%elem_of_nil. }
  assert (forall v, rf_out = Ok v ->
            forall p, p ∈ rf_l -> is_ok (next_outcome p w) = true) as Frf.
  { intros v Hv p. subst rf_l rf_out. destruct (referer_pool self).
    - intros ->%list_elem_of_singleton. by rewrite Hv.
    - by intros ?%elem_of_nil. }
  assert (forall e, ua_out = Raise e ->
            ua_l = [UserAgent] /\ next_outcome UserAgent w = Raise e) as Rua.
  { intros e. subst ua_l ua_out. by destruct ua_asked. }
  assert (forall e, ck_out = Raise e ->
            ck_l = [Cookie] /\ next_outcome Cookie w = Raise e) as Rck.
  { intros e. subst ck_l ck_out. by destruct (cookie_pool self). }
  assert (forall e, rf_out = Raise e ->
            rf_l = [Referer] /\ next_outcome Referer w = Raise e) as Rrf.
  { intros e. subst rf_l rf_out. by destruct (referer_pool self). }
  clearbody ua_l ck_l rf_l ua_out ck_out rf_out.
  destruct Hs as (Hp & _ & Hs).
  destruct ua_out as [ua|e] eqn:Hua.
  2: { destruct Hs as [Hr Ht]. destruct (Rua e eq_refl) as [-> Hout].
       destruct (request_headers util_format_headers self hv w)
         as [o w1]; cbn [fst snd] in *; subst o; cbn [fst snd].
       exists [UserAgent]. split_and!.
       - by apply news_app.
       - by apply prefix_app_r.
       - done.
       - by intros p ?%elem_of_nil.
       - intros p e' [= <-] He. congruence. }
  destruct ck_out as [ckv|e] eqn:Hck.
  2: { destruct Hs as [Hr Ht]. destruct (Rck e eq_refl) as [-> Hout].
       destruct (request_headers util_format_headers self hv w)
         as [o w1]; cbn [fst snd] in *; subst o; cbn [fst snd].
       exists (ua_l ++ [Cookie]). split_and!.
       - rewrite fmap_app. by apply news_app.
       - apply prefix_app, prefix_app_r. done.
       - done.
       - intros p. rewrite removelast_last. by apply (Fua ua).
       - intros p e'. rewrite last_snoc. intros [= <-] He. congruence. }
  destruct rf_out as [rfv|e] eqn:Hrf.
  2: { destruct Hs as [Hr Ht]. destruct (Rrf e eq_refl) as [-> Hout].
       destruct (request_headers util_format_headers self hv w)
         as [o w1]; cbn [fst snd] in *; subst o; cbn [fst snd].
       exists (ua_l ++ ck_l ++ [Referer]). split_and!.
       - rewrite !fmap_app. by apply news_app.
       - apply prefix_app, prefix_app, prefix_app_r. done.
       - done.
       - intros p. rewrite !(assoc_L (++)), removelast_last.
         intros [?|?]%elem_of_app; [by apply (Fua ua)|by apply (Fck ckv)].
       - intros p e'. rewrite !(assoc_L (++)), last_snoc.
         intros [= <-] He. congruence. }
  destruct Hs as (Ht & _ & _).
  assert (forall p, p ∈ ua_l ++ ck_l ++ rf_l ->
            is_ok (next_outcome p w) = true) as Fall.
  { intros p [?|[?|?]%elem_of_app]%elem_of_app;
      [by apply (Fua ua)|by apply (Fck ckv)|by apply (Frf rfv)]. }
  assert (trace (request_headers util_format_headers self hv w).2
          = trace w ++ (PoolGet <$> ua_l ++ ck_l ++ rf_l)) as Ht'
    by (by rewrite !fmap_app).
  clear Ht Fua Fck Frf Rua Rck Rrf.
  destruct (request_headers util_format_headers self hv w)
    as [[[headers ck]|e] w1]; cbn [fst snd] in *.
  2: { exists (ua_l ++ ck_l ++ rf_l). split_and!.
       - by apply news_app.
       - rewrite !(assoc_L (++)). by apply prefix_app_r.
       - done.
       - intros p ?%elem_of_removelast. by apply Fall.
       - intros p e' ?%last_Some_elem_of He.
         pose proof (Fall p ltac:(done)) as Hok. by rewrite He in Hok. }
  set (kw1 := <["headers" := VDict headers]> (delete "headers" opts)).
  pose proof (request_defaults_spec self kw1 w1) as Hd. cbv zeta in Hd.
  assert (kw1 !! "proxies" = opts !! "proxies") as Hkw1
    by (unfold kw1; by look_up).
  rewrite Hkw1 in Hd.
  assert (next_outcome Proxy w1 = next_outcome Proxy w) as Hnext
    by (unfold next_outcome; by rewrite Hp).
  assert (forall d : outcome (gmap string value) * world,
            let rest :=
              match d.1 with
              | Raise e => (Raise e, d.2)
              | Ok kw =>
                  let c := request_cookies self
                             (default VNone (kw !! "session"))
                             headers ck (delete "session" kw) d.2 in
                  match c.1 with
                  | Raise e => (Raise e, c.2)
                  | Ok kw' =>
                      (Ok (default VNone (kw !! "session"),
                           (if (bool_decide (is_Some (kw' !! "data"))
                                || bool_decide (is_Some (kw' !! "json")))
                               && eq_str (default (VStr "GET")
                                            (opts !! "method")) "GET"
                            then VStr "POST"
                            else default (VStr "GET") (opts !! "method")),
                           match request with
                           | Structured d => default VNone (d !! "url")
                           | Url u => VStr u
                           end,
                           delete "method" (delete "url" kw')), c.2)
                  end
              end in
            rest.2 = d.2 /\ forall e, d.1 = Raise e -> rest.1 = Raise e)
    as Hrest.
  { intros [[kw|e] w2]; cbn [fst snd]; [|by split; [|intros ? [= ->]]].
    destruct (request_cookies_spec self (default VNone (kw !! "session"))
                headers ck (delete "session" kw) w2) as (Hc & _).
    split; [|done]. by destruct (request_cookies _ _ _ _ _ w2).1. }
  cbv zeta in Hrest.
  destruct (Hrest (request_defaults self kw1 w1)) as [-> Hfail].
  clear Hrest. subst px_l.
  destruct (opts !! "proxies") as [px|] eqn:Hpx.
  - rewrite bool_decide_eq_false_2, andb_false_r by done.
    rewrite Hd in *. cbn [fst snd] in *.
    exists (ua_l ++ ck_l ++ rf_l). rewrite !app_nil_r. split_and!.
    + by apply news_app.
    + done.
    + done.
    + intros p ?%elem_of_removelast. by apply Fall.
    + intros p e' ?%last_Some_elem_of He.
      pose proof (Fall p ltac:(done)) as Hok. by rewrite He in Hok.
  - rewrite bool_decide_eq_true_2, andb_true_r by done.
    destruct (proxy_enable self) eqn:Hen.
    + destruct Hd as [Hd2 Hd1]. rewrite Hd2 in Hfail |- *.
      destruct (pool_get_spec Proxy w1) as (w2 & Hget & Ht2 & _).
      rewrite Hget in Hfail |- *. cbn [snd] in Hfail |- *.
      exists ((ua_l ++ ck_l ++ rf_l) ++ [Proxy]). split_and!.
      * rewrite fmap_app. apply news_app.
        by rewrite Ht2, Ht', <- (assoc_L (++)).
      * by rewrite <- !(assoc_L (++)).
      * intros _. by rewrite <- !(assoc_L (++)).
      * intros p. rewrite removelast_last. apply Fall.
      * intros p e'. rewrite last_snoc. intros [= <-] He.
        apply Hfail. by rewrite Hd1, Hnext, He.
    + rewrite Hd in *. cbn [fst snd] in *.
      exists (ua_l ++ ck_l ++ rf_l). rewrite !app_nil_r. split_and!.
      * by apply news_app.
      * done.
      * done.
      * intros p ?%elem_of_removelast. by apply Fall.
      * intros p e' ?%last_Some_elem_of He.
        pose proof (Fall p ltac:(done)) as Hok. by rewrite He in Hok.
Qed.
End PrepareMore.

(** ** Downloader._download_by_httpx, option by option *)

Section TransportMore.
Import Py Downloader.
Variable util_format_headers : gmap string value -> gmap string value.
Variable self : downloader.

Lemma append_cons a s r : String a s +:+ r = String a (s +:+ r).
Proof. reflexivity. Qed.

Lemma length_append s r :
  String.length (s +:+ r) = (String.length s + String.length r)%nat.
Proof.
  induction s as [|a s IH]; [reflexivity|].
  rewrite append_cons. cbn. by rewrite IH.
Qed.

Lemma append_inj_r s1 s2 r : s1 +:+ r = s2 +:+ r -> s1 = s2.
Proof.
  revert s2. induction s1 as [|a s1 IH]; intros [|b s2] H.
  - done.
  - apply (f_equal String.length) in H.
    rewrite !length_append in H. cbn in H. lia.
  - apply (f_equal String.length) in H.
    rewrite !length_append in H. cbn in H. lia.
  - rewrite !append_cons in H. injection H as -> H. f_equal. by apply IH.
Qed.

Lemma append_nil_r s : s +:+ "" = s.
Proof.
  induction s as [|a s IH]; [reflexivity|]. by rewrite append_cons, IH.
Qed.

Lemma contains_append p s : contains p (s +:+ p) = true.
Proof.
  induction s as [|a s IH].
  - change ("" +:+ p) with p.
    assert (startswith p p = true) as Hp
      by (apply startswith_spec; exists ""; by rewrite append_nil_r).
    destruct p; cbn [contains]; by rewrite Hp.
  - rewrite append_cons. cbn [contains]. rewrite IH. apply orb_true_r.
Qed.

(** The key [normalize_proxies] gives to a proxy. *)
Lemma normalize_proxies_elem d k v :
  normalize_proxies d !! k = Some v ->
  exists k0,
    d !! k0 = Some v /\
    k = if contains "://" k0 then k0 else k0 +:+ "://".
Proof.
  unfold normalize_proxies. intros H.
  apply elem_of_list_to_map_2, list_elem_of_fmap in H as ([k0 v0] & [= -> ->] & H).
  apply elem_of_map_to_list in H. by exists k0.
Qed.

(** The keys of the proxies handed to a client are URL prefixes: a key
    without "://", such as "http", gets "://" appended and one with it is
    left as it is, each keeping its proxy as long as no two keys become
    one; so every key of the result contains "://", and what is normal
    already is not changed. *)
Theorem proxy_keys_become_url_prefixes d :
  (forall k v,
     normalize_proxies d !! k = Some v ->
     contains "://" k = true /\
     exists k0,
       d !! k0 = Some v /\
       k = if contains "://" k0 then k0 else k0 +:+ "://") /\
  (forall k v,
     d !! k = Some v -> contains "://" k = false ->
     d !! (k +:+ "://") = None ->
     normalize_proxies d !! (k +:+ "://") = Some v) /\
  (forall k v,
     d !! k = Some v -> contains "://" k = true ->
     (forall k0, k = k0 +:+ "://" -> contains "://" k0 = false ->
                 d !! k0 = None) ->
     normalize_proxies d !! k = Some v) /\
  ((forall k, is_Some (d !! k) -> contains "://" k = true) ->
   normalize_proxies d = d) /\
  normalize_proxies (normalize_proxies d) = normalize_proxies d.
Proof.
  assert (forall d : gmap string value,
            (forall k, is_Some (d !! k) -> contains "://" k = true) ->
            normalize_proxies d = d) as Hid.
  { intros d' Hall. unfold normalize_proxies.
    rewrite <- (list_to_map_to_list d') at 2. f_equal.
    rewrite <- (list_fmap_id (map_to_list d')) at 2.
    apply list_fmap_ext. intros i [k v] Hi.
    apply list_elem_of_lookup_2, elem_of_map_to_list in Hi.
    cbn. by rewrite (Hall k) by eauto. }
  assert (forall k v,
            normalize_proxies d !! k = Some v -> contains "://" k = true)
    as Hkeys.
  { intros k v (k0 & _ & ->)%normalize_proxies_elem.
    destruct (contains "://" k0) eqn:Hc; [done|]. apply contains_append. }
  split_and!.
  - intros k v H. split; [by eapply Hkeys|]. by apply normalize_proxies_elem.
  - intros k v Hk Hc Hfree. unfold normalize_proxies.
    apply elem_of_list_to_map_1'.
    + intros y ([k0 v0] & [= Hk0 ->] & H)%list_elem_of_fmap.
      apply elem_of_map_to_list in H. cbn in Hk0.
      destruct (contains "://" k0) eqn:Hc0.
      * subst k0. congruence.
      * apply append_inj_r in Hk0 as <-. congruence.
    + apply list_elem_of_fmap. exists (k, v). cbn. rewrite Hc.
      split; [done|]. by apply elem_of_map_to_list.
  - intros k v Hk Hc Hfree. unfold normalize_proxies.
    apply elem_of_list_to_map_1'.
    + intros y ([k0 v0] & [= Hk0 ->] & H)%list_elem_of_fmap.
      apply elem_of_map_to_list in H. cbn in Hk0.
      destruct (contains "://" k0) eqn:Hc0.
      * subst k0. congruence.
      * rewrite (Hfree k0 Hk0 Hc0) in H. done.
    + apply list_elem_of_fmap. exists (k, v). cbn. rewrite Hc.
      split; [done|]. by apply elem_of_map_to_list.
  - apply Hid.
  - apply Hid. intros k [v Hv]. by eapply Hkeys.
Qed.

Lemma lookup_keys (f : string -> value) (l : list string) k :
  (list_to_map ((fun k => (k, f k)) <$> l) : gmap string value) !! k
  = if bool_decide (k ∈ l) then Some (f k) else None.
Proof.
  induction l as [|x l IH]; [done|]. cbn [fmap list_fmap list_to_map foldr].
  change (foldr _ _ _) with
    (list_to_map ((fun k => (k, f k)) <$> l) : gmap string value).
  destruct (decide (k = x)) as [->|Hne].
  - rewrite lookup_insert_eq, bool_decide_eq_true_2; [done|]. by left.
  - rewrite lookup_insert_ne, IH by done.
    destruct (decide (k ∈ l)).
    + rewrite !bool_decide_eq_true_2; [done|by right|done].
    + rewrite !bool_decide_eq_false_2; [done| |done].
      by intros [?|?]%elem_of_cons.
Qed.

(** One call of the transport: it ends at the choice of the client, with
    [AttributeError], or it is one exchange. *)
Lemma transport_spec method url session kwargs w stream verify :
  kwargs !! "stream" = Some stream ->
  kwargs !! "verify" = Some verify ->
  let r := _download_by_httpx self method url session kwargs w in
  let rest :=
    delete "cert" (delete "verify" (delete "proxies" (delete "stream" kwargs)))
  in
  let sent : gmap string value :=
    if truthy stream then
      <["auth" := default VNone (rest !! "auth")]>
        (<["follow_redirects" := default VNone (rest !! "follow_redirects")]>
           (list_to_map ((fun k => (k, default VNone (rest !! k)))
                           <$> build_request_keys)))
    else rest in
  (exists msg, r = (Raise (AttributeError msg), w)) \/
  (exists c w0,
     r = exchange c (truthy stream) method url sent w0 /\
     network w0 = network w /\ clock w0 = clock w /\
     (trace w0 = trace w \/ trace w0 = trace w ++ [MakeClient c])).
Proof.
  intros Hs Hv. cbv zeta. unfold _download_by_httpx. rewrite Hs. cbn [pop].
  rewrite !lookup_delete_ne by done. rewrite Hv.
  set (proxies := default VNone (kwargs !! "proxies")).
  set (cert := default VNone (kwargs !! "cert")).
  destruct (truthy proxies || negb (is_None verify) || negb (is_None cert)).
  - unfold bind, make_httpx_client.
    destruct proxies; cbn [fst snd raise ret]; try (left; by eexists).
    all: right; eexists _, _; split;
      [by destruct (truthy stream)|by split_and!; try right].
  - unfold bind.
    destruct session; cbn [fst snd raise ret]; try (left; by eexists).
    all: right; eexists _, _; split;
      [by destruct (truthy stream)|by split_and!; try left].
Qed.

(** What reaches the client.  The transport needs "stream" and "verify"
    among its options and raises [KeyError] without them, before anything
    is sent.  A request that is not streamed is sent with every option
    of the call but "stream", "proxies", "verify" and "cert"; a streamed
    one with ten options only, those [build_request] and [send] take,
    each with [None] where the call gave none, and every other option is
    dropped. *)
Theorem transport_forwards_the_options method url session kwargs w :
  let r := _download_by_httpx self method url session kwargs w in
  (kwargs !! "stream" = None -> r = (Raise (KeyError "stream"), w)) /\
  (is_Some (kwargs !! "stream") -> kwargs !! "verify" = None ->
   r = (Raise (KeyError "verify"), w)) /\
  (forall stream verify c streamed m u kw,
     kwargs !! "stream" = Some stream ->
     kwargs !! "verify" = Some verify ->
     Exchange c streamed m u kw ∈ news w r.2 ->
     streamed = truthy stream /\ m = method /\ u = url /\
     (truthy stream = false ->
      forall k,
        kw !! k = if bool_decide (k ∈ ["stream"; "proxies"; "verify"; "cert"])
                  then None else kwargs !! k) /\
     (truthy stream = true ->
      forall k,
        kw !! k = if bool_decide
                       (k ∈ build_request_keys ++ ["auth"; "follow_redirects"])
                  then Some (default VNone (kwargs !! k)) else None)).
Proof.
  cbv zeta. split_and!.
  - intros Hs. unfold _download_by_httpx. by rewrite Hs.
  - intros [stream Hs] Hv. unfold _download_by_httpx. rewrite Hs. cbn [pop].
    rewrite !lookup_delete_ne by done. by rewrite Hv.
  - intros stream verify c streamed m u kw Hs Hv Hin.
    set (rest := delete "cert" (delete "verify" (delete "proxies"
                   (delete "stream" kwargs)))).
    assert (forall k,
              rest !! k
              = if bool_decide (k ∈ ["stream"; "proxies"; "verify"; "cert"])
                then None else kwargs !! k) as Hrest.
    { intros k. subst rest.
      destruct (decide (k ∈ ["stream"; "proxies"; "verify"; "cert"]))
        as [Hk|Hk].
      - rewrite bool_decide_eq_true_2 by done.
        repeat (apply elem_of_cons in Hk as [->|Hk]; [by look_up|]).
        by apply elem_of_nil in Hk.
      - rewrite bool_decide_eq_false_2 by done.
        rewrite !lookup_delete_ne; [done|..];
          intros <-; apply Hk; repeat constructor. }
    assert (forall k,
              k ∈ build_request_keys ++ ["auth"; "follow_redirects"] ->
              rest !! k = kwargs !! k) as Hkept.
    { intros k Hk. rewrite Hrest, bool_decide_eq_false_2; [done|].
      intros Hk'. unfold build_request_keys in Hk.
      repeat (apply elem_of_cons in Hk as [->|Hk];
              [repeat (apply elem_of_cons in Hk' as [?|Hk']; [done|]);
               by apply elem_of_nil in Hk'|]).
      by apply elem_of_nil in Hk. }
    assert (forall c' w0,
              Exchange c streamed m u kw
              ∈ [Exchange c' (truthy stream) method url w0] ->
              streamed = truthy stream /\ m = method /\ u = url /\ kw = w0)
      as Hone.
    { intros c' w0 Hev. apply list_elem_of_singleton in Hev.
      by injection Hev as -> -> -> -> ->. }
    assert (forall c st m u kw w0,
              trace (exchange c st m u kw w0).2
              = trace w0 ++ [Exchange c st m u kw]) as Hex.
    { intros. unfold exchange. cbn. by destruct (network w0). }
    destruct (transport_spec method url session kwargs w stream verify Hs Hv)
      as [[msg Hr]|(c0 & w0 & Hr & _ & _ & Ht)]; cbv zeta in Hr;
      fold rest in Hr; rewrite Hr in Hin.
    { unfold news in Hin. cbn [snd] in Hin. rewrite drop_all in Hin.
      by apply elem_of_nil in Hin. }
    unfold news in Hin. rewrite Hex in Hin.
    assert (streamed = truthy stream /\ m = method /\ u = url /\
            kw = if truthy stream then
                   <["auth" := default VNone (rest !! "auth")]>
                     (<["follow_redirects" :=
                          default VNone (rest !! "follow_redirects")]>
                        (list_to_map
                           ((fun k => (k, default VNone (rest !! k)))
                              <$> build_request_keys)))
                 else rest) as (-> & -> & -> & ->).
    { destruct Ht as [Ht|Ht]; rewrite Ht in Hin.
      - rewrite drop_app_length in Hin. by eapply Hone.
      - rewrite <- app_assoc, drop_app_length in Hin.
        apply elem_of_cons in Hin as [[=]|Hin]. by eapply Hone. }
    split_and!; try done.
    + intros Hst k. rewrite Hst. apply Hrest.
    + intros Hst k. rewrite Hst.
      destruct (decide (k = "auth")) as [->|Hauth].
      { rewrite lookup_insert_eq, bool_decide_eq_true_2.
        - by rewrite Hkept by (unfold build_request_keys; repeat constructor).
        - unfold build_request_keys. repeat constructor. }
      rewrite lookup_insert_ne by done.
      destruct (decide (k = "follow_redirects")) as [->|Hfollow].
      { rewrite lookup_insert_eq, bool_decide_eq_true_2.
        - by rewrite Hkept by (unfold build_request_keys; repeat constructor).
        - unfold build_request_keys. repeat constructor. }
      rewrite lookup_insert_ne by done.
      rewrite (lookup_keys (fun k => default VNone (rest !! k))).
      destruct (decide (k ∈ build_request_keys)) as [Hk|Hk].
      * rewrite !bool_decide_eq_true_2;
          [|apply elem_of_app; by left|done].
        by rewrite Hkept by (apply elem_of_app; by left).
      * rewrite !bool_decide_eq_false_2; [done| |done].
        intros [?|Hk']%elem_of_app; [done|].
        apply elem_of_cons in Hk' as [?|Hk']; [done|].
        apply list_elem_of_singleton in Hk'. done.
Qed.

Lemma time_spec w t w' :
  time w = (Ok t, w') ->
  network w' = network w /\ trace w' = trace w /\ pools w' = pools w.
Proof. unfold time. destruct (clock w); by intros [= <- <-]. Qed.

Lemma exchange_spec c st m u kw w resp w' :
  exchange c st m u kw w = (Ok resp, w') ->
  head (network w) = Some (Ok resp) /\ network w' = tail (network w).
Proof.
  unfold exchange. cbn. destruct (network w) as [|o rest]; [done|].
  by intros [= -> <-].
Qed.

Lemma copy_spec x v w w' :
  copy x w = (Ok v, w') -> w' = w /\ v = x /\ exists d, x = VDict d.
Proof. destruct x; cbn; try done. intros [= <- <-]. eauto. Qed.

(** A dispatch that returns hands back the next answer of the network:
    status, URL, truth and exception are the answer's, the answer is
    closed unless the options say "stream", and [meta] is set to the
    proxies, the headers and the cookies of the prepared options and to
    the two clock readings with their difference. *)
Theorem download_body_returns_the_answer request kwargs w r w' :
  _download_body util_format_headers self request kwargs w = (Ok r, w') ->
  let opts := options request kwargs in
  let streamed := truthy (default (VBool (stream self)) (opts !! "stream")) in
  exists answer s m u kw w1,
    prepare_request util_format_headers self request kwargs w
    = (Ok (s, m, u, kw), w1) /\
    head (network w) = Some (Ok answer) /\
    network w' = tail (network w) /\
    (status_code r = status_code answer /\ url r = url answer /\
     truth r = truth answer /\
     graper_exception r = graper_exception answer) /\
    is_closed r = negb streamed || is_closed answer /\
    exists h c _start _end,
      kw !! "headers" = Some (VDict h) /\ kw !! "cookies" = Some (VDict c) /\
      meta r = {[ "proxies" := default VNone (kw !! "proxies");
                  "headers" := VDict h; "cookies" := VDict c;
                  "time" := VDict {[ "start" := VFloat _start;
                                     "end" := VFloat _end;
                                     "use" := VFloat (_end - _start) ]} ]}.
Proof.
  intros H opts streamed. unfold _download_body in H.
  apply bind_ok in H as ([[[s m] u] kw] & w1 & Hprep & H).
  apply bind_ok in H as (t0 & w2 & Ht0 & H).
  apply bind_ok in H as (resp & w3 & Htr & H).
  apply bind_ok in H as (t1 & w4 & Ht1 & H).
  apply bind_ok in H as (hd & w5 & Hhd & H).
  apply bind_ok in H as (ck & w6 & Hck & H).
  injection H as <- <-.
  pose proof (prepare_request_feeds util_format_headers self request kwargs w)
    as [Hn1 _]. cbv zeta in Hn1. rewrite Hprep in Hn1. cbn [snd] in Hn1.
  pose proof (prepare_request_ok _ _ _ _ _ _ _ _ _ _ Hprep)
    as (_ & Hver & Hstr & _).
  fold opts in Hstr.
  apply time_spec in Ht0 as (Hn2 & _). apply time_spec in Ht1 as (Hn4 & _).
  apply copy_spec in Hhd as (-> & -> & h & Hh).
  destruct (kw !! "cookies") as [cv|] eqn:Hcv; [|done].
  apply copy_spec in Hck as (-> & -> & c & ->).
  destruct (kw !! "headers") as [hv|] eqn:Hhv; [|done]. cbn in Hh. subst hv.
  destruct (transport_spec m u s kw w2 _ _ Hstr Hver)
    as [[msg Hr]|(c0 & w0 & Hr & Hn0 & _)]; cbv zeta in Hr;
    rewrite Hr in Htr; [done|].
  apply exchange_spec in Htr as [Hhead Htail].
  assert (truthy (default VNone (kw !! "stream")) = streamed) as ->
    by (by rewrite Hstr).
  assert (head (network w) = Some (Ok resp)) as Hw by congruence.
  assert (network w4 = tail (network w)) as Hw' by congruence.
  exists resp, s, m, u, kw, w1.
  destruct streamed; cbn [negb orb];
    (split_and!; try done; exists h, c, t0, t1; by split_and!).
Qed.
End TransportMore.

(** ** The cookies of a request *)

Section CookiesMore.
Import Py Downloader.
Variable self : downloader.

Lemma contains_cons c a s :
  contains (String c "") (String a s)
  = Ascii.eqb c a || contains (String c "") s.
Proof. cbn [contains startswith]. by destruct (Ascii.eqb c a). Qed.

Lemma contains_char_app c x y :
  contains (String c "") (x +:+ y)
  = contains (String c "") x || contains (String c "") y.
Proof.
  induction x as [|a x IH]; [done|].
  rewrite append_cons, !contains_cons, IH. apply orb_assoc.
Qed.

Lemma split_nonempty c s : split c s ≠ [].
Proof.
  destruct s as [|a s]; cbn; [done|].
  destruct (Ascii.eqb a c); [done|]. by destruct (split c s).
Qed.

Lemma split_app c x y : split c (x +:+ String c y) = split c x ++ split c y.
Proof.
  induction x as [|a x IH].
  - change ("" +:+ String c y) with (String c y). cbn.
    by rewrite Ascii.eqb_refl.
  - rewrite append_cons. cbn [split]. rewrite IH.
    destruct (Ascii.eqb a c); [done|].
    pose proof (split_nonempty c x). by destruct (split c x).
Qed.

Lemma split_none c x : contains (String c "") x = false -> split c x = [x].
Proof.
  induction x as [|a x IH]; [done|]. rewrite contains_cons.
  intros [Ha Hx]%orb_false_iff. cbn [split].
  rewrite Ascii.eqb_sym, Ha, IH; done.
Qed.

Lemma split_concat c l :
  l ≠ [] ->
  Forall (fun x => contains (String c "") x = false) l ->
  split c (String.concat (String c "") l) = l.
Proof.
  induction l as [|x l IH]; [done|]. intros _ Hl.
  apply Forall_cons in Hl as [Hx Hl]. destruct l as [|y l].
  - cbn. by apply split_none.
  - change (String.concat (String c "") (x :: y :: l))
      with (x +:+ String c (String.concat (String c "") (y :: l))).
    rewrite split_app, split_none, IH; done.
Qed.

Lemma split_once_app k v :
  contains "=" k = false -> split_once "=" (k +:+ String "=" v) = [k; v].
Proof.
  induction k as [|a k IH]; [done|]. rewrite contains_cons.
  intros [Ha Hk]%orb_false_iff. rewrite append_cons. cbn [split_once].
  rewrite Ascii.eqb_sym, Ha, IH; done.
Qed.

Lemma split_once_none x :
  contains "=" x = false -> split_once "=" x = [x].
Proof.
  induction x as [|a x IH]; [done|]. rewrite contains_cons.
  intros [Ha Hx]%orb_false_iff. cbn [split_once].
  rewrite Ascii.eqb_sym, Ha, IH; done.
Qed.

Lemma strip_nonempty_pair k v : strip_nonempty (k +:+ String "=" v) = true.
Proof.
  induction k as [|a k IH]; [done|]. rewrite append_cons. cbn [strip_nonempty].
  rewrite IH. apply orb_true_r.
Qed.

Lemma cookie_pairs_app l1 l2 acc :
  cookie_pairs (l1 ++ l2) acc
  = match cookie_pairs l1 acc with
    | Ok acc' => cookie_pairs l2 acc'
    | Raise e => Raise e
    end.
Proof.
  revert acc. induction l1 as [|x l1 IH]; intros acc; [done|]. cbn.
  destruct (strip_nonempty x); [|apply IH].
  by destruct (split_once "=" x) as [|k [|v [|? ?]]].
Qed.

Lemma cookie_pairs_segments (kvs : list (string * string)) acc :
  Forall (fun kv => contains "=" kv.1 = false) kvs ->
  cookie_pairs ((fun kv => kv.1 +:+ "=" +:+ kv.2) <$> kvs) acc
  = Ok (foldl (fun a kv => <[kv.1 := VStr kv.2]> a) acc kvs).
Proof.
  revert acc. induction kvs as [|[k v] kvs IH]; intros acc Hk; [done|].
  apply Forall_cons in Hk as [Hk Hkvs]. cbn [fmap list_fmap cookie_pairs fst snd].
  change (k +:+ "=" +:+ v) with (k +:+ String "=" v).
  rewrite strip_nonempty_pair, split_once_app by done. by apply IH.
Qed.

Lemma cookie_pairs_of_string (kvs : list (string * string)) acc :
  Forall (fun kv => contains ";" kv.1 = false /\ contains "=" kv.1 = false /\
                    contains ";" kv.2 = false) kvs ->
  cookie_pairs
    (split ";" (String.concat ";" ((fun kv => kv.1 +:+ "=" +:+ kv.2) <$> kvs)))
    acc
  = Ok (foldl (fun a kv => <[kv.1 := VStr kv.2]> a) acc kvs).
Proof.
  intros Hwf. destruct kvs as [|kv kvs]; [done|].
  rewrite split_concat.
  - apply cookie_pairs_segments. eapply Forall_impl; [done|]. by intros ? (_ & ? & _).
  - done.
  - apply Forall_fmap. eapply Forall_impl; [done|].
    intros [k v] (Hk & _ & Hv). unfold compose. cbn [fst snd] in *.
    change (k +:+ "=" +:+ v) with (k +:+ String "=" v).
    by rewrite contains_char_app, contains_cons, Hk, Hv.
Qed.

(** A piece that is not blank and has no "=" makes [dict] raise,
    wherever it stands among the pieces. *)
Lemma cookie_pairs_bad segments acc x :
  x ∈ segments -> strip_nonempty x = true -> contains "=" x = false ->
  cookie_pairs segments acc
  = Raise (ValueError "dictionary update sequence element").
Proof.
  intros Hin Hx Heq. revert acc.
  induction segments as [|y rest IH]; intros acc;
    [by apply elem_of_nil in Hin|].
  apply elem_of_cons in Hin as [<-|Hin]; cbn [cookie_pairs].
  - by rewrite Hx, split_once_none.
  - destruct (strip_nonempty y); [|by apply IH].
    destruct (split_once "=" y) as [|k [|v [|? ?]]]; try done. by apply IH.
Qed.

(** The cookies of a request whose call brings none: the pairs of the
    Cookie header of the request, then those of the Cookie header of the
    session, each name with the value met last, and over them the jar of
    the cookie pool.  A piece of a Cookie header, of the request or of the
    session, that is not blank and has no "=" stops the request with
    [ValueError], whatever the other pieces are. *)
Theorem cookies_by_precedence _session headers _cookies kwargs w :
  kwargs !! "cookies" = None ->
  (forall hc sc : list (string * string),
     Forall (fun kv => contains ";" kv.1 = false /\
                       contains "=" kv.1 = false /\
                       contains ";" kv.2 = false) (hc ++ sc) ->
     default (VStr "") (headers !! "Cookie")
     = VStr (String.concat ";" ((fun kv => kv.1 +:+ "=" +:+ kv.2) <$> hc)) ->
     session_cookie self _session
     = Ok (String.concat ";" ((fun kv => kv.1 +:+ "=" +:+ kv.2) <$> sc)) ->
     request_cookies self _session headers _cookies kwargs w
     = (Ok (<["cookies" :=
               VDict (_cookies ∪
                      foldl (fun a kv => <[kv.1 := VStr kv.2]> a) ∅
                        (hc ++ sc))]> kwargs), w)) /\
  (forall from_request from_session x,
     default (VStr "") (headers !! "Cookie") = VStr from_request ->
     session_cookie self _session = Ok from_session ->
     x ∈ split ";" from_request \/ x ∈ split ";" from_session ->
     strip_nonempty x = true -> contains "=" x = false ->
     request_cookies self _session headers _cookies kwargs w
     = (Raise (ValueError "dictionary update sequence element"), w)).
Proof.
  intros Hnone. split.
  - intros hc sc Hwf Hh Hs. unfold request_cookies.
    rewrite Hnone, Hs, Hh.
    apply Forall_app in Hwf as [Hhc Hsc].
    change (?a +:+ ";" +:+ ?b) with (a +:+ String ";" b).
    rewrite split_app, cookie_pairs_app.
    rewrite !cookie_pairs_of_string by done.
    by rewrite foldl_app.
  - intros from_request from_session x Hh Hs Hin Hx Heq.
    unfold request_cookies. rewrite Hnone, Hs, Hh.
    change (?a +:+ ";" +:+ ?b) with (a +:+ String ";" b).
    rewrite split_app.
    rewrite (cookie_pairs_bad _ ∅ x); [done| |done|done].
    apply elem_of_app. exact Hin.
Qed.
End CookiesMore.

(** ** Examples for the pipeline *)

Section PipelineMoreExamples.
Import Py Downloader.

Lemma prepared_options_are_complete_witness :
  match (prepare_request id (plain false)
           (Structured {[ "url" := VStr "http://a.com/x";
                          "method" := VStr "PUT" ]})
           {[ "params" := VStr "q=1" ]} quiet).1 with
  | Ok (_, _, _, kw') =>
      kw' !! "url" = None /\
      kw' !! "verify" = Some (VBool false) /\
      kw' !! "params" = Some (VStr "q=1")
  | Raise _ => False
  end.
Proof.
  destruct (prepare_request id (plain false)
              (Structured {[ "url" := VStr "http://a.com/x";
                             "method" := VStr "PUT" ]})
              {[ "params" := VStr "q=1" ]} quiet)
    as [[[[[s m] u] kw']|e] w'] eqn:H.
  - pose proof (prepared_options_are_complete id (plain false) _ _ _ _ _ _ _ _ H)
      as ((Hurl & _) & _ & _ & Hv & _ & _ & _ & _ & Hk).
    split; [exact Hurl|]. split; [exact Hv|].
    rewrite Hk; [reflexivity|].
    intros Hin. repeat (apply elem_of_cons in Hin as [?|Hin]; [done|]).
    by apply elem_of_nil in Hin.
  - vm_compute in H. discriminate.
Defined.

Lemma body_turns_get_into_post_witness :
  match (prepare_request id (plain false) (Url "http://a.com/x")
           {[ "json" := VNone ]} quiet).1 with
  | Ok (_, m, _, _) => m = VStr "POST"
  | Raise _ => False
  end.
Proof.
  destruct (prepare_request id (plain false) (Url "http://a.com/x")
              {[ "json" := VNone ]} quiet)
    as [[[[[s m] u] kw']|e] w'] eqn:H.
  - pose proof (body_turns_get_into_post id (plain false) _ _ _ _ _ _ _ _ H)
      as (Hpost & _).
    apply Hpost; [right; by eexists | left; reflexivity].
  - vm_compute in H. discriminate.
Defined.

Lemma headers_by_precedence_witness :
  match (prepare_request id (plain false) (Url "http://a.com/x")
           {[ "headers" := VDict {[ "Accept" := VStr "text/html" ]} ]}
           quiet).1 with
  | Ok (_, _, _, kw') =>
      exists h,
        kw' !! "headers" = Some (VDict h) /\
        h !! "Accept" = Some (VStr "text/html") /\
        h !! "Connection" = Some (VStr "keep-alive")
  | Raise _ => False
  end.
Proof.
  destruct (prepare_request id (plain false) (Url "http://a.com/x")
              {[ "headers" := VDict {[ "Accept" := VStr "text/html" ]} ]}
              quiet)
    as [[[[[s m] u] kw']|e] w'] eqn:H.
  - pose proof (headers_by_precedence id (plain false) _ _ _ _ _ _ _ _ H)
      as Hh.
    cbv zeta in Hh. eexists. split; [exact Hh|].
    split; vm_compute; reflexivity.
  - vm_compute in H. discriminate.
Defined.

Lemma prepare_asks_each_pool_once_witness :
  news stuck
    (prepare_request id (plain true) (Url "http://a.com/x") ∅ stuck).2
  = [PoolGet UserAgent] /\
  (prepare_request id (plain true) (Url "http://a.com/x") ∅ stuck).1
  = Raise (KeyError "compatible").
Proof.
  destruct (prepare_asks_each_pool_once id (plain true)
              (Url "http://a.com/x") ∅ stuck)
    as (asked & Hnews & _ & _ & _ & Hlast).
  assert (asked = [UserAgent]) as ->.
  { destruct asked as [|a [|b l]]; vm_compute in Hnews; try discriminate.
    by injection Hnews as <-. }
  split; [exact Hnews|]. apply (Hlast UserAgent); reflexivity.
Defined.

Lemma proxy_keys_become_url_prefixes_witness :
  normalize_proxies {[ "http" := VStr "http://10.0.0.1:80" ]} !! "http://"
  = Some (VStr "http://10.0.0.1:80").
Proof.
  destruct (proxy_keys_become_url_prefixes
              {[ "http" := VStr "http://10.0.0.1:80" ]}) as (_ & H & _).
  apply (H "http"); reflexivity.
Defined.

Lemma transport_forwards_the_options_witness :
  match last (news online
                (_download_by_httpx (plain false) (VStr "GET")
                   (VStr "http://a.com/x") VNone
                   {[ "stream" := VBool true; "verify" := VBool false;
                      "extensions" := VInt 1; "params" := VStr "q=1" ]}
                   online).2) with
  | Some (Exchange _ _ _ _ kw) =>
      kw !! "extensions" = None /\ kw !! "params" = Some (VStr "q=1") /\
      kw !! "auth" = Some VNone
  | _ => False
  end.
Proof.
  destruct (last (news online
                    (_download_by_httpx (plain false) (VStr "GET")
                       (VStr "http://a.com/x") VNone
                       {[ "stream" := VBool true; "verify" := VBool false;
                          "extensions" := VInt 1; "params" := VStr "q=1" ]}
                       online).2)) as [ev|] eqn:Hlast;
    [|vm_compute in Hlast; discriminate].
  destruct ev as [?|?|c streamed m u kw|?];
    try (vm_compute in Hlast; discriminate).
  apply last_Some_elem_of in Hlast.
  destruct (transport_forwards_the_options (plain false) (VStr "GET")
              (VStr "http://a.com/x") VNone
              {[ "stream" := VBool true; "verify" := VBool false;
                 "extensions" := VInt 1; "params" := VStr "q=1" ]} online)
    as (_ & _ & H).
  destruct (H (VBool true) (VBool false) c streamed m u kw eq_refl eq_refl
              Hlast) as (_ & _ & _ & _ & Hs).
  rewrite !(Hs eq_refl). split; [|split]; reflexivity.
Defined.

Lemma download_body_returns_the_answer_witness :
  match _download_body id (plain false) (Url "http://a.com/x") ∅ online with
  | (Ok r, w') =>
      status_code r = status_code page /\ is_closed r = true /\
      network w' = []
  | (Raise _, _) => False
  end.
Proof.
  destruct (_download_body id (plain false) (Url "http://a.com/x") ∅ online)
    as [[r|e] w'] eqn:H.
  - destruct (download_body_returns_the_answer id (plain false) _ _ _ _ _ H)
      as (answer & s & m & u & kw & w1 & _ & Hhead & Htail & (Hst & _) & Hcl
          & _).
    injection Hhead as <-. split; [exact Hst|]. split; [exact Hcl|exact Htail].
  - vm_compute in H. discriminate.
Defined.

Lemma cookies_by_precedence_witness :
  request_cookies (plain false) VNone {[ "Cookie" := VStr "a=1;b=2" ]}
    {[ "a" := VStr "9" ]} ∅ quiet
  = (Ok (<["cookies" :=
            VDict ({[ "a" := VStr "9" ]} ∪
                   foldl (fun a kv => <[kv.1 := VStr kv.2]> a) ∅
                     ([("a", "1"); ("b", "2")] ++ []))]> ∅), quiet) /\
  request_cookies (plain false) VNone {[ "Cookie" := VStr "a=1; secure" ]}
    ∅ ∅ quiet
  = (Raise (ValueError "dictionary update sequence element"), quiet) /\
  request_cookies (plain false)
    (VClient 1 {[ "Cookie" := "b=2;secure" ]})
    {[ "Cookie" := VStr "a=1" ]} ∅ ∅ quiet
  = (Raise (ValueError "dictionary update sequence element"), quiet).
Proof.
  destruct (cookies_by_precedence (plain false) VNone
              {[ "Cookie" := VStr "a=1;b=2" ]} {[ "a" := VStr "9" ]} ∅ quiet
              (lookup_empty "cookies")) as [H _].
  destruct (cookies_by_precedence (plain false) VNone
              {[ "Cookie" := VStr "a=1; secure" ]} ∅ ∅ quiet
              (lookup_empty "cookies")) as [_ H1].
  destruct (cookies_by_precedence (plain false)
              (VClient 1 {[ "Cookie" := "b=2;secure" ]})
              {[ "Cookie" := VStr "a=1" ]} ∅ ∅ quiet
              (lookup_empty "cookies")) as [_ H2].
  split; [|split].
  - apply (H [("a", "1"); ("b", "2")] []); [|reflexivity|reflexivity].
    repeat constructor.
  - apply (H1 "a=1; secure" "" " secure"); try reflexivity.
    left. vm_compute. repeat constructor.
  - apply (H2 "a=1" "b=2;secure" "secure"); try reflexivity.
    right. vm_compute. repeat constructor.
Defined.
End PipelineMoreExamples.

(** ** Downloader.add_headers and the default pool of user agents *)

Section DefaultsMore.
Import Py Downloader.
Variable util_format_headers : gmap string value -> gmap string value.
Variable self : downloader.

(** Headers added to the downloader lie over its default headers: when
    [default_headers] returns, it returns after [add_headers] the added
    headers, formatted, over what it returned before, so that an added
    header replaces the built-in header and the header added earlier of
    the same name, and every other header stays; what it returns always
    has the four built-in headers, under the headers added earlier.  The
    user-agent pool is asked as before, and when it raises,
    [default_headers] raises its error before and after alike. *)
Theorem added_headers_override_defaults headers w :
  (default_headers (add_headers util_format_headers self headers) w).2
  = (default_headers self w).2 /\
  (forall h,
     (default_headers self w).1 = Ok h ->
     (default_headers (add_headers util_format_headers self headers) w).1
     = Ok (util_format_headers headers ∪ h) /\
     (forall k,
        k ∈ ["User-Agent"; "Accept"; "Accept-Encoding"; "Connection"] ->
        is_Some (h !! k)) /\
     (forall k v, _custom_headers self !! k = Some v -> h !! k = Some v)) /\
  (forall e,
     (default_headers self w).1 = Raise e ->
     (default_headers (add_headers util_format_headers self headers) w).1
     = Raise e).
Proof.
  unfold default_headers, add_headers. cbn [user_agent_pool _custom_headers].
  unfold bind.
  destruct ((if user_agent_pool self then pool_get UserAgent
             else ret (VStr "")) w) as [[ua|e] w1] eqn:Hua;
    cbn [ret fst snd]; (split; [done|]); (split; [|by intros ? [= <-]]).
  - intros h [= <-]. split_and!.
    + by rewrite (assoc_L (∪)).
    + intros k Hk. apply lookup_union_is_Some. right.
      repeat (apply elem_of_cons in Hk as [->|Hk]; [by eexists|]).
      by apply elem_of_nil in Hk.
    + intros k v Hk. by apply lookup_union_Some_l.
  - intros; discriminate.
Qed.
End DefaultsMore.

Section UserAgentMore.
Import Py UserAgentPool.
Variable files : gmap string (list string).

Lemma init_loop_closed dict types uas os :
  Forall (fun typ => is_Some (dict !! typ)) types ->
  init_loop dict types uas os
  = (Ok tt,
     (uas ++ (types ≫= fun typ => default [] (dict !! typ)),
      os ++ (types ≫= fun typ =>
               if String.eqb typ pc then [win; mac; linux]
               else if String.eqb typ mobile then [android]
               else [typ]))).
Proof.
  revert uas os. induction types as [|typ types IH]; intros uas os Hall.
  - cbn. by rewrite !app_nil_r.
  - apply Forall_cons in Hall as [[ua_list Hty] Hall].
    cbn [init_loop mbind list_bind]. rewrite Hty. cbn [default].
    rewrite IH by done. rewrite !(assoc_L (++)). do 3 f_equal.
    + destruct ua_list; [by rewrite app_nil_r|done].
    + by destruct (String.eqb typ pc), (String.eqb typ mobile).
Qed.

(** [init] in closed form.  With known types only it succeeds; the types
    held for the generator are then those of the pool in their order,
    "pc" replaced by win, mac and linux and "mobile" by android, without
    "ios", a type named twice being held twice; and the user agents are
    those of the files of each type in the same order.  So the pool that
    is built without types, as the default pool of the module is, asks
    the generator for win and mac. *)
Theorem init_expands_the_types :
  (forall self,
     Forall (fun typ => typ ∈ dev_types) (types self) ->
     (init files self).1 = Ok tt /\
     os_types (init files self).2
     = filter (fun x => x ∉ [compatible; ios])
         (os_types self
          ++ (types self ≫= fun typ =>
                if String.eqb typ pc then [win; mac; linux]
                else if String.eqb typ mobile then [android]
                else [typ])) /\
     user_agents (init files self).2
     = user_agents self
       ++ (types self ≫= fun typ =>
             default [] (type_func_dict files self !! typ))) /\
  (forall home ua_local_dir generate draw,
     (get files (Some generate) (new home [] true ua_local_dir) draw).1
     = Ok (generate [win; mac])).
Proof.
  split.
  - intros self Hall. unfold init. cbv zeta.
    rewrite init_loop_closed.
    + done.
    + eapply Forall_impl; [done|]. intros typ Hin.
      by apply type_func_dict_known.
  - intros home dir generate draw. unfold get.
    change (init_flag (new home [] true dir)) with false. cbv iota.
    destruct (init_spec files (new home [] true dir)) as (_ & Hok & _).
    assert ((init files (new home [] true dir)).1 = Ok tt) as Hinit.
    { apply Hok. repeat constructor. }
    unfold init in *. cbv zeta in *.
    rewrite init_loop_closed in *
      by (repeat constructor; apply type_func_dict_known; repeat constructor).
    done.
Qed.
End UserAgentMore.

Lemma added_headers_override_defaults_witness :
  (Downloader.default_headers
     (Downloader.add_headers id (Downloader.plain false)
        {[ "Accept" := Py.VStr "text/html" ]}) Downloader.quiet).1
  = Ok ({[ "Accept" := Py.VStr "text/html" ]}
        ∪ {[ "User-Agent" := Py.VNone; "Accept" := Py.VStr "*/*";
             "Accept-Encoding" := Py.VStr "gzip, deflate";
             "Connection" := Py.VStr "keep-alive" ]}) /\
  (Downloader.default_headers
     (Downloader.add_headers id (Downloader.plain false)
        {[ "Accept" := Py.VStr "text/html" ]}) Downloader.stuck).1
  = Raise (KeyError "compatible").
Proof.
  destruct (added_headers_override_defaults id (Downloader.plain false)
              {[ "Accept" := Py.VStr "text/html" ]} Downloader.quiet)
    as (_ & Hok & _).
  destruct (added_headers_override_defaults id (Downloader.plain false)
              {[ "Accept" := Py.VStr "text/html" ]} Downloader.stuck)
    as (_ & _ & Hfail).
  split.
  - destruct (Hok ({[ "User-Agent" := Py.VNone; "Accept" := Py.VStr "*/*";
                      "Accept-Encoding" := Py.VStr "gzip, deflate";
                      "Connection" := Py.VStr "keep-alive" ]}))
      as [H _]; [vm_compute; reflexivity|exact H].
  - apply Hfail. reflexivity.
Defined.

Lemma init_expands_the_types_witness :
  UserAgentPool.os_types (UserAgentPool.init UserAgentPool.ua_files
              (UserAgentPool.new "/home/u"
                 [UserAgentPool.pc; UserAgentPool.ios; UserAgentPool.win]
                 false "/ua")).2
  = [UserAgentPool.win; UserAgentPool.mac; UserAgentPool.linux;
     UserAgentPool.win].
Proof.
  destruct (init_expands_the_types UserAgentPool.ua_files) as [H _].
  destruct (H (UserAgentPool.new "/home/u"
                 [UserAgentPool.pc; UserAgentPool.ios; UserAgentPool.win]
                 false "/ua")) as (_ & Hos & _).
  - repeat constructor.
  - rewrite Hos. vm_compute. reflexivity.
Defined.
